(** * sitemapper: the crawl engine, its URL normalizer, options and sitemap
    rendering, embedded from the Go sources.

    Go strings are byte strings and are modelled by [string] (a list of 8-bit
    [ascii]); maps with string keys are [gmap string _]; a method that mutates
    its receiver takes the old value and returns the new one. *)

From Stdlib Require Import Ascii NArith ZArith.
From stdpp Require Import gmap strings list fin_maps.

Local Open Scope Z_scope.

(** ** Bytes *)

Definition dquote : ascii := ascii_of_nat 34.

Definition byte_between (lo hi c : ascii) : bool :=
  ((N_of_ascii lo <=? N_of_ascii c) && (N_of_ascii c <=? N_of_ascii hi))%N.

Definition isLetter (c : ascii) : bool :=
  byte_between "a" "z" c || byte_between "A" "Z" c.

Definition isDigit (c : ascii) : bool := byte_between "0" "9" c.

Fixpoint char_in (c : ascii) (set : string) : bool :=
  match set with
  | EmptyString => false
  | String x r => Ascii.eqb c x || char_in c r
  end.

(** ** The functions of Go's [strings] package that the sources call.
    Separators and cut sets are single bytes at every call site. *)
Module gostrings.

Definition HasPrefix (s pre : string) : bool := String.prefix pre s.

Fixpoint lastByte (s : string) : option ascii :=
  match s with
  | EmptyString => None
  | String c EmptyString => Some c
  | String _ r => lastByte r
  end.

Definition HasSuffixByte (s : string) (c : ascii) : bool :=
  match lastByte s with
  | Some x => Ascii.eqb x c
  | None => false
  end.

Fixpoint dropLast (s : string) : string :=
  match s with
  | EmptyString => EmptyString
  | String _ EmptyString => EmptyString
  | String c r => String c (dropLast r)
  end.

Fixpoint Count (s : string) (c : ascii) : nat :=
  match s with
  | EmptyString => O
  | String x r => ((if Ascii.eqb x c then 1 else 0) + Count r c)%nat
  end.

Definition Contains (s : string) (c : ascii) : bool := char_in c s.

(** [strings.Cut(s, sep)]: the text before and after the first [sep]. *)
Fixpoint Cut (s : string) (sep : ascii) : string * string * bool :=
  match s with
  | EmptyString => (EmptyString, EmptyString, false)
  | String x r =>
      if Ascii.eqb x sep then (EmptyString, r, true)
      else let '(b, a, found) := Cut r sep in (String x b, a, found)
  end.

(** The text before and after the last [sep] ([strings.LastIndex] followed
    by the two slices [s[:i]] and [s[i+1:]]); [None] when the index is -1. *)
Fixpoint CutLast (s : string) (sep : ascii) : option (string * string) :=
  match s with
  | EmptyString => None
  | String x r =>
      match CutLast r sep with
      | Some (b, a) => Some (String x b, a)
      | None => if Ascii.eqb x sep then Some (EmptyString, r) else None
      end
  end.

(** [strings.TrimRight(s, cutset)] for a one-byte cut set. *)
Fixpoint TrimRight (s : string) (c : ascii) : string :=
  match s with
  | EmptyString => EmptyString
  | String x r =>
      match TrimRight r c with
      | EmptyString =>
          if Ascii.eqb x c then EmptyString else String x EmptyString
      | r' => String x r'
      end
  end.

Definition lowerByte (c : ascii) : ascii :=
  if byte_between "A" "Z" c then ascii_of_N (N_of_ascii c + 32) else c.

Fixpoint ToLower (s : string) : string :=
  match s with
  | EmptyString => EmptyString
  | String c r => String (lowerByte c) (ToLower r)
  end.

Definition asciiSpace (c : ascii) : bool :=
  match N_of_ascii c with
  | 9 | 10 | 11 | 12 | 13 | 32 => true
  | _ => false
  end%N.

Definition isByte (c : ascii) (n : N) : bool := (N_of_ascii c =? n)%N.

(** The two-byte and three-byte UTF-8 encodings of white space. *)
Definition isSpace2 (c d : ascii) : bool :=
  isByte c 194 && (isByte d 133 || isByte d 160).

Definition isSpace3 (c d e : ascii) : bool :=
  (isByte c 225 && isByte d 154 && isByte e 128)
  || (isByte c 226 && isByte d 128
      && (byte_between (ascii_of_N 128) (ascii_of_N 138) e
          || isByte e 168 || isByte e 169 || isByte e 175))
  || (isByte c 226 && isByte d 129 && isByte e 159)
  || (isByte c 227 && isByte d 128 && isByte e 128).

(** [strings.TrimSpace(s) == ""]: every rune of [s], decoded as UTF-8 from
    the left, is white space ([unicode.IsSpace]): the six ASCII ones,
    U+0085, U+00A0, U+1680, U+2000..U+200A, U+2028, U+2029, U+202F, U+205F
    and U+3000.  A byte that starts no such rune stops the trimming at both
    ends, so the trimmed string is empty exactly when this scan reaches the
    end. *)
Fixpoint TrimSpace_isEmpty (s : string) : bool :=
  match s with
  | EmptyString => true
  | String c r =>
      if asciiSpace c then TrimSpace_isEmpty r
      else
        match r with
        | String d r' =>
            if isSpace2 c d then TrimSpace_isEmpty r'
            else
              match r' with
              | String e r'' => isSpace3 c d e && TrimSpace_isEmpty r''
              | EmptyString => false
              end
        | EmptyString => false
        end
  end.

Fixpoint drop (n : nat) (s : string) : string :=
  match n, s with
  | O, _ => s
  | S n', String _ r => drop n' r
  | S _, EmptyString => EmptyString
  end.

Fixpoint take (n : nat) (s : string) : string :=
  match n, s with
  | S n', String c r => String c (take n' r)
  | _, _ => EmptyString
  end.

End gostrings.

(** ** Go's [net/url]: the part of [Parse], [ResolveReference] and [String]
    that [normalizeURL] and [SetDomain] go through (Go 1.23).  An error is
    [None]; its text is never inspected by the package. *)
Module url.

Record Userinfo := mkUserinfo {
  username : string;
  password : string;
  passwordSet : bool
}.

Record URL := mkURL {
  Scheme : string;
  Opaque : string;
  User : option Userinfo;
  Host : string;
  Path : string;
  RawPath : string;
  OmitHost : bool;
  ForceQuery : bool;
  RawQuery : string;
  Fragment : string;
  RawFragment : string
}.

Definition empty : URL :=
  mkURL "" "" None "" "" "" false false "" "" "".

Definition with_Path (u : URL) (p raw : string) : URL :=
  mkURL (Scheme u) (Opaque u) (User u) (Host u) p raw (OmitHost u)
        (ForceQuery u) (RawQuery u) (Fragment u) (RawFragment u).

Definition with_Fragment (u : URL) (f raw : string) : URL :=
  mkURL (Scheme u) (Opaque u) (User u) (Host u) (Path u) (RawPath u)
        (OmitHost u) (ForceQuery u) (RawQuery u) f raw.

(** The assignment [u.Fragment = f] (RawFragment is left as it is). *)
Definition set_Fragment (u : URL) (f : string) : URL :=
  with_Fragment u f (RawFragment u).

Inductive encoding :=
| encodePath | encodePathSegment | encodeHost | encodeZone
| encodeUserPassword | encodeQueryComponent | encodeFragment.

Definition isHostMode (m : encoding) : bool :=
  match m with encodeHost | encodeZone => true | _ => false end.

Definition shouldEscape (c : ascii) (mode : encoding) : bool :=
  if isLetter c || isDigit c then false
  else if isHostMode mode
          && (char_in c "!$&'()*+,;=:[]<>" || Ascii.eqb c dquote)
  then false
  else if char_in c "-_.~" then false
  else if char_in c "$&+,/:;=?@"
          && match mode with
             | encodePath | encodePathSegment | encodeUserPassword
             | encodeQueryComponent | encodeFragment => true
             | _ => false
             end
  then
    match mode with
    | encodePath => Ascii.eqb c "?"
    | encodePathSegment => char_in c "/;,?"
    | encodeUserPassword => char_in c "@/?:"
    | encodeQueryComponent => true
    | _ => false
    end
  else if match mode with encodeFragment => char_in c "!()*" | _ => false end
  then false
  else true.

Definition ishex (c : ascii) : bool :=
  isDigit c || byte_between "a" "f" c || byte_between "A" "F" c.

Definition unhex (c : ascii) : N :=
  (if isDigit c then N_of_ascii c - 48
   else if byte_between "a" "f" c then N_of_ascii c - 97 + 10
   else if byte_between "A" "F" c then N_of_ascii c - 65 + 10
   else 0)%N.

Definition upperhex (n : N) : ascii :=
  match String.get (N.to_nat n) "0123456789ABCDEF" with
  | Some c => c
  | None => "0"%char
  end.

(** [unescape]: [None] on a malformed [%] escape, and in host and zone
    mode on a byte that a host may not hold. *)
Fixpoint unescape (s : string) (mode : encoding) : option string :=
  match s with
  | EmptyString => Some EmptyString
  | String c rest =>
      if Ascii.eqb c "%" then
        match rest with
        | String h1 (String h2 rest') =>
            if negb (ishex h1 && ishex h2) then None
            else
              let v := ascii_of_N (unhex h1 * 16 + unhex h2) in
              let is25 := Ascii.eqb h1 "2" && Ascii.eqb h2 "5" in
              if match mode with
                 | encodeHost => (unhex h1 <? 8)%N && negb is25
                 | encodeZone =>
                     negb is25 && negb (Ascii.eqb v " ")
                     && shouldEscape v encodeHost
                 | _ => false
                 end
              then None
              else option_map (String v) (unescape rest' mode)
        | _ => None
        end
      else if Ascii.eqb c "+" then
        option_map
          (String (match mode with
                   | encodeQueryComponent => " "
                   | _ => "+"
                   end)%char)
          (unescape rest mode)
      else if isHostMode mode && (N_of_ascii c <? 128)%N && shouldEscape c mode
      then None
      else option_map (String c) (unescape rest mode)
  end.

Fixpoint escape (s : string) (mode : encoding) : string :=
  match s with
  | EmptyString => EmptyString
  | String c rest =>
      if shouldEscape c mode then
        if Ascii.eqb c " "
           && match mode with encodeQueryComponent => true | _ => false end
        then String "+" (escape rest mode)
        else String "%" (String (upperhex (N_of_ascii c / 16))
               (String (upperhex (N_of_ascii c mod 16)) (escape rest mode)))
      else String c (escape rest mode)
  end.

Fixpoint validEncoded (s : string) (mode : encoding) : bool :=
  match s with
  | EmptyString => true
  | String c rest =>
      (char_in c "!$&'()*+,;=:@[]%" || negb (shouldEscape c mode))
      && validEncoded rest mode
  end.

Definition setPath (u : URL) (p : string) : option URL :=
  match unescape p encodePath with
  | None => None
  | Some path =>
      Some (with_Path u path
              (if String.eqb p (escape path encodePath) then "" else p))
  end.

Definition setFragment (u : URL) (f : string) : option URL :=
  match unescape f encodeFragment with
  | None => None
  | Some frag =>
      Some (with_Fragment u frag
              (if String.eqb f (escape frag encodeFragment) then "" else f))
  end.

Definition EscapedPath (u : URL) : string :=
  if negb (String.eqb (RawPath u) "") && validEncoded (RawPath u) encodePath
     && match unescape (RawPath u) encodePath with
        | Some p => String.eqb p (Path u)
        | None => false
        end
  then RawPath u
  else if String.eqb (Path u) "*" then "*"
  else escape (Path u) encodePath.

Definition EscapedFragment (u : URL) : string :=
  if negb (String.eqb (RawFragment u) "")
     && validEncoded (RawFragment u) encodeFragment
     && match unescape (RawFragment u) encodeFragment with
        | Some f => String.eqb f (Fragment u)
        | None => false
        end
  then RawFragment u
  else escape (Fragment u) encodeFragment.

Definition stringContainsCTLByte (s : string) : bool :=
  let fix go (s : string) : bool :=
    match s with
    | EmptyString => false
    | String c r =>
        (N_of_ascii c <? 32)%N || (N_of_ascii c =? 127)%N || go r
    end in
  go s.

Inductive schemeScan :=
| SchemeMissing
| SchemeNone
| SchemeAt (scheme rest : string).

(** The loop of [getScheme]; [atStart] is [i == 0]. *)
Fixpoint scanScheme (atStart : bool) (s : string) : schemeScan :=
  match s with
  | EmptyString => SchemeNone
  | String c r =>
      let continue :=
        match scanScheme false r with
        | SchemeAt p q => SchemeAt (String c p) q
        | other => other
        end in
      if isLetter c then continue
      else if isDigit c || char_in c "+-." then
        if atStart then SchemeNone else continue
      else if Ascii.eqb c ":" then
        if atStart then SchemeMissing else SchemeAt EmptyString r
      else SchemeNone
  end.

Definition getScheme (rawURL : string) : option (string * string) :=
  match scanScheme true rawURL with
  | SchemeMissing => None
  | SchemeNone => Some (EmptyString, rawURL)
  | SchemeAt p q => Some (p, q)
  end.

Definition validOptionalPort (port : string) : bool :=
  match port with
  | EmptyString => true
  | String c digits =>
      Ascii.eqb c ":"
      && (fix all (s : string) : bool :=
            match s with
            | EmptyString => true
            | String d r => isDigit d && all r
            end) digits
  end.

Fixpoint validUserinfo (s : string) : bool :=
  match s with
  | EmptyString => true
  | String c r =>
      (isLetter c || isDigit c || char_in c "-._:~!$&'()*+,;=%@")
      && validUserinfo r
  end.

Definition parseHost (host : string) : option string :=
  if gostrings.HasPrefix host "[" then
    match gostrings.CutLast host "]" with
    | None => None
    | Some (inside, colonPort) =>
        if negb (validOptionalPort colonPort) then None
        else
          match String.index 0 "%25" inside with
          | Some zone =>
              match unescape (gostrings.take zone inside) encodeHost,
                    unescape (gostrings.drop zone inside) encodeZone,
                    unescape (String "]" colonPort) encodeHost with
              | Some host1, Some host2, Some host3 =>
                  Some (host1 +:+ host2 +:+ host3)
              | _, _, _ => None
              end
          | None => unescape host encodeHost
          end
    end
  else
    match gostrings.CutLast host ":" with
    | Some (_, port) =>
        if negb (validOptionalPort (String ":" port)) then None
        else unescape host encodeHost
    | None => unescape host encodeHost
    end.

Definition parseAuthority (authority : string)
  : option (option Userinfo * string) :=
  match gostrings.CutLast authority "@" with
  | None =>
      match parseHost authority with
      | Some host => Some (None, host)
      | None => None
      end
  | Some (userinfo, hostpart) =>
      match parseHost hostpart with
      | None => None
      | Some host =>
          if negb (validUserinfo userinfo) then None
          else if negb (gostrings.Contains userinfo ":") then
            match unescape userinfo encodeUserPassword with
            | Some name => Some (Some (mkUserinfo name "" false), host)
            | None => None
            end
          else
            let '(name, pass, _) := gostrings.Cut userinfo ":" in
            match unescape name encodeUserPassword,
                  unescape pass encodeUserPassword with
            | Some name', Some pass' =>
                Some (Some (mkUserinfo name' pass' true), host)
            | _, _ => None
            end
      end
  end.

(** [parse(rawURL, viaRequest = false)]: everything before the fragment. *)
Definition parse (rawURL : string) : option URL :=
  if stringContainsCTLByte rawURL then None
  else if String.eqb rawURL "*" then Some (with_Path empty "*" "")
  else
    match getScheme rawURL with
    | None => None
    | Some (scheme, rest) =>
        let scheme := gostrings.ToLower scheme in
        let '(rest, forceQuery, rawQuery) :=
          if gostrings.HasSuffixByte rest "?"
             && Nat.eqb (gostrings.Count rest "?") 1
          then (gostrings.dropLast rest, true, EmptyString)
          else let '(b, a, _) := gostrings.Cut rest "?" in (b, false, a) in
        if negb (gostrings.HasPrefix rest "/") && negb (String.eqb scheme "")
        then
          Some (mkURL scheme rest None "" "" "" false forceQuery rawQuery
                  "" "")
        else if negb (gostrings.HasPrefix rest "/")
                && gostrings.Contains (gostrings.Cut rest "/").1.1 ":"
        then None
        else if (negb (String.eqb scheme "")
                 || negb (gostrings.HasPrefix rest "///"))
                && gostrings.HasPrefix rest "//"
        then
          let '(authority, tail, found) :=
            gostrings.Cut (gostrings.drop 2 rest) "/" in
          let rest := if found then String "/" tail else EmptyString in
          match parseAuthority authority with
          | None => None
          | Some (user, host) =>
              setPath (mkURL scheme "" user host "" "" false forceQuery
                             rawQuery "" "") rest
          end
        else
          setPath (mkURL scheme "" None "" "" ""
                         (negb (String.eqb scheme "")
                          && gostrings.HasPrefix rest "/")
                         forceQuery rawQuery "" "") rest
    end.

Definition Parse (rawURL : string) : option URL :=
  let '(u, frag, _) := gostrings.Cut rawURL "#" in
  match parse u with
  | None => None
  | Some url =>
      if String.eqb frag "" then Some url else setFragment url frag
  end.

Definition IsAbs (u : URL) : bool := negb (String.eqb (Scheme u) "").

Definition Hostname (u : URL) : string :=
  let host :=
    match gostrings.CutLast (Host u) ":" with
    | Some (h, port) =>
        if validOptionalPort (String ":" port) then h else Host u
    | None => Host u
    end in
  if gostrings.HasPrefix host "[" && gostrings.HasSuffixByte host "]"
  then gostrings.dropLast (gostrings.drop 1 host)
  else host.

Definition UserinfoString (ui : Userinfo) : string :=
  escape (username ui) encodeUserPassword
  +:+ (if passwordSet ui
       then ":" +:+ escape (password ui) encodeUserPassword
       else "").

Definition isSome {A} (o : option A) : bool :=
  match o with Some _ => true | None => false end.

Fixpoint splitSlash (s acc : string) : list string :=
  match s with
  | EmptyString => [acc]
  | String c r =>
      if Ascii.eqb c "/" then acc :: splitSlash r EmptyString
      else splitSlash r (acc +:+ String c EmptyString)
  end.

(** One round of the loop of [resolvePath] on the element [elem]; the
    state is the text of [dst] and the flag [first]. *)
Definition resolveElem (st : string * bool) (elem : string) : string * bool :=
  let '(dst, first) := st in
  if String.eqb elem "." then (dst, false)
  else if String.eqb elem ".." then
    match gostrings.CutLast (gostrings.drop 1 dst) "/" with
    | None => ("/", true)
    | Some (before, _) => ("/" +:+ before, first)
    end
  else ((if first then dst else dst +:+ "/") +:+ elem, false).

Definition resolvePath (base ref : string) : string :=
  let full :=
    match ref with
    | EmptyString => base
    | String c _ =>
        if Ascii.eqb c "/" then ref
        else
          match gostrings.CutLast base "/" with
          | Some (dir, _) => dir +:+ "/" +:+ ref
          | None => ref
          end
    end in
  if String.eqb full "" then ""
  else
    let elems := splitSlash full EmptyString in
    let '(dst, _) := fold_left resolveElem elems ("/", true) in
    let elem := List.last elems EmptyString in
    let r := if String.eqb elem "." || String.eqb elem ".."
             then dst +:+ "/" else dst in
    match r with
    | String _ (String c _) => if Ascii.eqb c "/" then gostrings.drop 1 r else r
    | _ => r
    end.

(** [setPath] whose error the caller ignores. *)
Definition setPath_ignore (u : URL) (p : string) : URL :=
  match setPath u p with
  | Some u' => u'
  | None => u
  end.

Definition ResolveReference (u ref : URL) : URL :=
  let url :=
    if String.eqb (Scheme ref) ""
    then mkURL (Scheme u) (Opaque ref) (User ref) (Host ref) (Path ref)
               (RawPath ref) (OmitHost ref) (ForceQuery ref) (RawQuery ref)
               (Fragment ref) (RawFragment ref)
    else ref in
  if negb (String.eqb (Scheme ref) "") || negb (String.eqb (Host ref) "")
     || isSome (User ref)
  then setPath_ignore url (resolvePath (EscapedPath ref) "")
  else if negb (String.eqb (Opaque ref) "") then
    mkURL (Scheme url) (Opaque url) None "" "" (RawPath url) (OmitHost url)
          (ForceQuery url) (RawQuery url) (Fragment url) (RawFragment url)
  else
    let url :=
      if String.eqb (Path ref) "" && negb (ForceQuery ref)
         && String.eqb (RawQuery ref) ""
      then
        let '(f, rf) :=
          if String.eqb (Fragment ref) ""
          then (Fragment u, RawFragment u)
          else (Fragment url, RawFragment url) in
        mkURL (Scheme url) (Opaque url) (User url) (Host url) (Path url)
              (RawPath url) (OmitHost url) (ForceQuery url) (RawQuery u) f rf
      else url in
    if String.eqb (Path ref) "" && negb (String.eqb (Opaque u) "") then
      mkURL (Scheme url) (Opaque u) None "" "" (RawPath url) (OmitHost url)
            (ForceQuery url) (RawQuery url) (Fragment url) (RawFragment url)
    else
      setPath_ignore
        (mkURL (Scheme url) (Opaque url) (User u) (Host u) (Path url)
               (RawPath url) (OmitHost url) (ForceQuery url) (RawQuery url)
               (Fragment url) (RawFragment url))
        (resolvePath (EscapedPath u) (EscapedPath ref)).

Definition String (u : URL) : string :=
  let head := if String.eqb (Scheme u) "" then "" else Scheme u +:+ ":" in
  let body :=
    if negb (String.eqb (Opaque u) "") then head +:+ Opaque u
    else
      let buf :=
        if negb (String.eqb (Scheme u) "") || negb (String.eqb (Host u) "")
           || isSome (User u)
        then
          if OmitHost u && String.eqb (Host u) "" && negb (isSome (User u))
          then head
          else
            head
            +:+ (if negb (String.eqb (Host u) "")
                    || negb (String.eqb (Path u) "") || isSome (User u)
                 then "//" else "")
            +:+ match User u with
                | Some ui => UserinfoString ui +:+ "@"
                | None => ""
                end
            +:+ (if String.eqb (Host u) "" then ""
                 else escape (Host u) encodeHost)
        else head in
      let path := EscapedPath u in
      let buf :=
        match path with
        | String c _ =>
            if negb (Ascii.eqb c "/") && negb (String.eqb (Host u) "")
            then buf +:+ "/" else buf
        | EmptyString => buf
        end in
      let buf :=
        if String.eqb buf ""
           && gostrings.Contains (gostrings.Cut path "/").1.1 ":"
        then buf +:+ "./" else buf in
      buf +:+ path in
  body
  +:+ (if ForceQuery u || negb (String.eqb (RawQuery u) "")
       then "?" +:+ RawQuery u else "")
  +:+ (if String.eqb (Fragment u) "" then ""
       else "#" +:+ EscapedFragment u).

End url.

(** ** The other libraries, as an interface

    [time.Time] is an instant on the environment's clock. *)
Definition Time := Z.

(** A token of [golang.org/x/net/html]. *)
Inductive TokenType :=
| ErrorToken | TextToken | StartTagToken | EndTagToken
| SelfClosingTagToken | CommentToken | DoctypeToken.

Record Attribute := mkAttribute { Key : string; Val : string }.

Record Token := mkToken {
  Type_ : TokenType;
  Data : string;
  Attr : list Attribute
}.

Class Libraries := {
  (** [hex.EncodeToString] of the SHA-256 sum of the bytes written. *)
  sha256_hex : string -> string;
  (** The tokens that [html.NewTokenizer] yields over a document, up to the
      first [ErrorToken]; [Next] keeps answering [ErrorToken] afterwards. *)
  html_tokens : string -> list Token;
  (** [t.Format("2006-01-02")]. *)
  time_Format_date : Time -> string;
  (** [regexp.Compile] ([None]: the pattern is rejected) and [MatchString]. *)
  Regexp : Type;
  regexp_Compile : string -> option Regexp;
  MatchString : Regexp -> string -> bool;
  (** The escaping of character data by [encoding/xml]. *)
  xml_EscapeText : string -> string
}.

(** ** The environment of a crawl *)

(** What [client.Get] and [io.ReadAll] give for one request. *)
Inductive Response :=
| GetFailed (err : string)
| GetResponse (StatusCode : Z) (body : option string).

(** The site and the clock: the answer to the [n]-th request of the process
    and the reading of [time.Now] while that answer is handled. *)
Record World := mkWorld {
  http_Get : nat -> string -> Response;
  time_Now : nat -> Time
}.

(** The calls of [infoLogger] and [errorLogger], one constructor per call
    site of [crawl]. *)
Inductive LogEntry :=
| InfoCrawling (currentURL : string)
| ErrorFetching (currentURL err : string)
| ErrorStatus (currentURL : string) (StatusCode : Z)
| ErrorReadingBody.

(** The effects of the crawler outside its own fields: the requests issued
    so far with their answers, oldest first, and the log. *)
Record Env := mkEnv {
  requests : list (string * Response);
  log : list LogEntry
}.

Definition tick (e : Env) : nat := length (requests e).

(** The request led to a page: status 200 and a body that could be read. *)
Definition fetched_ok (r : Response) : bool :=
  match r with
  | GetResponse StatusCode (Some _) => StatusCode =? 200
  | _ => false
  end.

(** ** crawler.go *)
Module Crawler.

Record crawlerURL := mkCrawlerURL {
  link : string;
  checksum : string;
  lastChanged : Time
}.

(** The mutex is left out (the model is sequential); the two loggers are
    the [log] of the environment. *)
Record crawler := mkCrawler {
  domain : string;
  linkAttributes : list string;
  visited : gmap string crawlerURL;
  links : gmap string crawlerURL
}.

Definition newCrawler (domain : string) (linkAttributes : list string)
  : crawler :=
  mkCrawler domain linkAttributes ∅ ∅.

Definition set_visited (c : crawler) (v : gmap string crawlerURL) : crawler :=
  mkCrawler (domain c) (linkAttributes c) v (links c).

Definition set_links (c : crawler) (l : gmap string crawlerURL) : crawler :=
  mkCrawler (domain c) (linkAttributes c) (visited c) l.

Definition normalizeURL (c : crawler) (href : string) : string * bool :=
  if gostrings.TrimSpace_isEmpty href then ("", false)
  else
    match url.Parse href with
    | None => ("", false)
    | Some parsedURL =>
        if String.eqb (url.Scheme parsedURL) "javascript" then ("", false)
        else
          let resolved :=
            if negb (url.IsAbs parsedURL) then
              match url.Parse (domain c) with
              | None => None
              | Some baseURL => Some (url.ResolveReference baseURL parsedURL)
              end
            else Some parsedURL in
          match resolved with
          | None => ("", false)
          | Some parsedURL =>
              let parsedURL := url.set_Fragment parsedURL "" in
              let normalized :=
                gostrings.TrimRight (url.String parsedURL) "/" in
              if gostrings.HasPrefix normalized (domain c)
              then (normalized, true)
              else ("", false)
          end
    end.

Definition slices_Contains (l : list string) (x : string) : bool :=
  existsb (String.eqb x) l.

(** The inner [for _, attr := range token.Attr] loops of [extractLinks]:
    [wanted] is the test on the attribute key. *)
Fixpoint scanAttrs (c : crawler) (wanted : string -> bool)
    (attrs : list Attribute) (links : list string) : list string :=
  match attrs with
  | [] => links
  | attr :: rest =>
      let links :=
        if wanted (Key attr) then
          match normalizeURL c (Val attr) with
          | (normalized, true) => links ++ [normalized]
          | (_, false) => links
          end
        else links in
      scanAttrs c wanted rest links
  end.

(** The token loop of [extractLinks] over the rest of the token stream;
    the end of the stream is an [ErrorToken]. *)
Fixpoint extractLoop (c : crawler) (stream : list Token)
    (links : list string) : list string :=
  match stream with
  | [] => links
  | token :: rest =>
      match Type_ token with
      | StartTagToken | SelfClosingTagToken =>
          if String.eqb (Data token) "a" then
            extractLoop c rest
              (scanAttrs c (fun k => String.eqb k "href") (Attr token) links)
          else
            extractLoop c rest
              (scanAttrs c (slices_Contains (linkAttributes c))
                 (Attr token) links)
      | ErrorToken => links
      | _ => extractLoop c rest links
      end
  end.

Definition extractLinks (c : crawler) (stream : list Token) : list string :=
  extractLoop c stream [].

Record LoopState := mkLoopState {
  queue : list string;
  cr : crawler;
  env : Env
}.

Definition logging (e : Env) (entry : LogEntry) : Env :=
  mkEnv (requests e) (log e ++ [entry]).

Definition requesting (e : Env) (u : string) (r : Response) : Env :=
  mkEnv (requests e ++ [(u, r)]) (log e).

(** [for _, link := range links]: enqueue what is not in [visited]. *)
Definition enqueue (c : crawler) (queue links : list string) : list string :=
  fold_left
    (fun queue link =>
       match visited c !! link with
       | None => queue ++ [link]
       | Some _ => queue
       end)
    links queue.

Section WithLibraries.
Context {L : Libraries}.

(** The body of the [for len(queue) > 0] loop, on a queue whose head is
    [currentURL] and whose tail is [queue]. *)
Definition iteration (w : World) (currentURL : string)
    (queue : list string) (c : crawler) (e : Env) : LoopState :=
  match visited c !! currentURL with
  | Some _ => mkLoopState queue c e
  | None =>
      let now := time_Now w (tick e) in
      let resp := http_Get w (tick e) currentURL in
      let e := requesting e currentURL resp in
      match resp with
      | GetFailed err =>
          mkLoopState queue c (logging e (ErrorFetching currentURL err))
      | GetResponse StatusCode body =>
          if negb (StatusCode =? 200) then
            mkLoopState queue c
              (logging e (ErrorStatus currentURL StatusCode))
          else
            match body with
            | None => mkLoopState queue c (logging e ErrorReadingBody)
            | Some bodyBytes =>
                let e := logging e (InfoCrawling currentURL) in
                let links := extractLinks c (html_tokens bodyBytes) in
                let queue := enqueue c queue links in
                let url :=
                  mkCrawlerURL currentURL (sha256_hex bodyBytes) now in
                mkLoopState queue
                  (set_visited c (<[currentURL := url]> (visited c))) e
            end
      end
  end.

Definition loop_step (w : World) (st : LoopState) : LoopState :=
  match queue st with
  | [] => st
  | currentURL :: rest => iteration w currentURL rest (cr st) (env st)
  end.

(** The loop, cut off after [fuel] rounds: [None] when the queue is still
    not empty then. *)
Fixpoint run_loop (fuel : nat) (w : World) (st : LoopState)
  : option LoopState :=
  match queue st with
  | [] => Some st
  | _ :: _ =>
      match fuel with
      | O => None
      | S fuel => run_loop fuel w (loop_step w st)
      end
  end.

(** "Update the list of known links": the map built from [visited]. *)
Definition newLinks (visited links : gmap string crawlerURL)
  : gmap string crawlerURL :=
  map_fold
    (fun linkVisited urlVisited newLinks =>
       match links !! linkVisited with
       | Some oldUrl =>
           if negb (String.eqb (checksum urlVisited) (checksum oldUrl))
           then <[linkVisited := urlVisited]> newLinks
           else <[linkVisited := oldUrl]> newLinks
       | None => <[linkVisited := urlVisited]> newLinks
       end)
    ∅ visited.

Definition crawl (fuel : nat) (w : World) (url : string)
    (c : crawler) (e : Env) : option (crawler * Env) :=
  let c := set_visited c ∅ in
  match normalizeURL c url with
  | (_, false) => Some (c, e)
  | (normalizedURL, true) =>
      match run_loop fuel w (mkLoopState [normalizedURL] c e) with
      | None => None
      | Some st =>
          Some (set_links (cr st) (newLinks (visited (cr st)) (links (cr st))),
                env st)
      end
  end.

End WithLibraries.

(** The values of [links], in the order in which the map is ranged over
    (unspecified in Go; here that of [map_to_list]). *)
Definition getLinks (c : crawler) : list crawlerURL :=
  (map_to_list (links c)).*2.

(** [parsedURL.Path += "/"] leaves [RawPath] as it is. *)
Definition ensureTrailingSlash (urlStr : string) : string :=
  match url.Parse urlStr with
  | None => urlStr
  | Some parsedURL =>
      let parsedURL :=
        if String.eqb (url.Path parsedURL) ""
           || negb (gostrings.HasSuffixByte (url.Path parsedURL) "/")
        then
          if negb (gostrings.Contains (url.Path parsedURL) ".")
          then url.with_Path parsedURL (url.Path parsedURL +:+ "/")
                 (url.RawPath parsedURL)
          else parsedURL
        else parsedURL in
      url.String parsedURL
  end.

End Crawler.

(** ** options.go *)
Module Options.

(** [time.Duration] is a count of nanoseconds.  The fields [infoLogger],
    [errorLogger] and [callbackFunc] hold functions called for their
    effect; their calls are the [log] of the environment and the
    [CallbackCalled] events of the scheduler. *)
Record SiteMapperOptions := mkOptions {
  domain : string;
  durationBeforeFirstCrawl : Z;
  crawlInterval : Z;
  startingURL : string;
  linkAttributes : list string
}.

Definition Second : Z := 1000000000.
Definition Hour : Z := 3600 * Second.

Definition DefaultOptions : SiteMapperOptions :=
  mkOptions "http://localhost:8080" (Second * 3) (Hour * 24 * 7) "/" [].

(** A setter returns the options after the call and its [error] ([None]
    is [nil]). *)
Definition SetDomain (domain_ : string) (options : SiteMapperOptions)
  : SiteMapperOptions * option string :=
  match url.Parse domain_ with
  | None => (options, Some "invalid domain: must be a valid URL")
  | Some parsedURL =>
      if negb (String.eqb (url.Scheme parsedURL) "http")
         && negb (String.eqb (url.Scheme parsedURL) "https")
      then (options, Some "invalid domain: scheme must be 'http' or 'https'")
      else if negb (String.eqb (url.Path parsedURL) "")
              && negb (String.eqb (url.Path parsedURL) "/")
      then (options, Some "invalid domain: must not include a relative path")
      else if String.eqb (url.Hostname parsedURL) ""
      then (options, Some "invalid domain: must include a host")
      else
        (mkOptions (gostrings.TrimRight domain_ "/")
           (durationBeforeFirstCrawl options) (crawlInterval options)
           (startingURL options) (linkAttributes options),
         None)
  end.

Definition SetDurationBeforeFirstCrawl (duration : Z)
    (options : SiteMapperOptions) : SiteMapperOptions * option string :=
  if duration <? 0
  then (options, Some "invalid duration: cannot be negative")
  else
    (mkOptions (domain options) duration (crawlInterval options)
       (startingURL options) (linkAttributes options),
     None).

Definition SetCrawlInterval (interval : Z) (options : SiteMapperOptions)
  : SiteMapperOptions * option string :=
  if interval <? 0
  then (options, Some "invalid interval: cannot be negative")
  else
    (mkOptions (domain options) (durationBeforeFirstCrawl options) interval
       (startingURL options) (linkAttributes options),
     None).

Definition SetStartingURL (urlPath : string) (options : SiteMapperOptions)
  : SiteMapperOptions * option string :=
  let invalid :=
    match url.Parse urlPath with
    | None => true
    | Some parsedURL =>
        url.IsAbs parsedURL || negb (gostrings.HasPrefix urlPath "/")
    end in
  if invalid
  then (options, Some "invalid starting URL: must be a valid relative path")
  else
    (mkOptions (domain options) (durationBeforeFirstCrawl options)
       (crawlInterval options) urlPath (linkAttributes options),
     None).

Definition SetLinkAttributes (attributes : list string)
    (options : SiteMapperOptions) : SiteMapperOptions * option string :=
  if Nat.eqb (length attributes) 0
  then (options,
        Some "invalid link attributes: must provide at least one attribute")
  else
    (mkOptions (domain options) (durationBeforeFirstCrawl options)
       (crawlInterval options) (startingURL options) attributes,
     None).

End Options.

(** ** sitemapper.go and sitemap.go *)
Module Mapper.

(** [recrawlSignal] is the channel; what is sent on it reaches the
    goroutine as a [RecrawlSignal]. *)
Record SiteMapper := mkSiteMapper {
  spider : Crawler.crawler;
  domain : string
}.

Definition newMapper (options : Options.SiteMapperOptions) : SiteMapper :=
  mkSiteMapper
    (Crawler.newCrawler (Options.domain options)
       (Options.linkAttributes options))
    (Options.domain options).

(** What wakes the [select] of the goroutine. *)
Inductive Signal := TickerFired | RecrawlSignal.

(** What the goroutine does, in order. *)
Inductive Event :=
| Slept (duration : Z)
| Crawled (url : string)
| CallbackCalled (mapper : SiteMapper)
| TickerPanicked.

Record Process := mkProcess {
  mapper : SiteMapper;
  penv : Env;
  events : list Event
}.

Definition call_callbackFunc (p : Process) : Process :=
  mkProcess (mapper p) (penv p) (events p ++ [CallbackCalled (mapper p)]).

Section WithLibraries.
Context {L : Libraries}.

(** [mapper.spider.crawl(options.startingURL)] *)
Definition call_crawl (fuel : nat) (w : World)
    (options : Options.SiteMapperOptions) (p : Process) : option Process :=
  match Crawler.crawl fuel w (Options.startingURL options)
          (spider (mapper p)) (penv p) with
  | None => None
  | Some (c, e) =>
      Some (mkProcess (mkSiteMapper c (domain (mapper p))) e
              (events p ++ [Crawled (Options.startingURL options)]))
  end.

(** The [for { select { ... } }] loop over the signals that arrive. *)
Fixpoint serve (fuel : nat) (w : World)
    (options : Options.SiteMapperOptions) (signals : list Signal)
    (p : Process) : option Process :=
  match signals with
  | [] => Some p
  | TickerFired :: rest =>
      match call_crawl fuel w options p with
      | None => None
      | Some p => serve fuel w options rest (call_callbackFunc p)
      end
  | RecrawlSignal :: rest =>
      match call_crawl fuel w options p with
      | None => None
      | Some p => serve fuel w options rest (call_callbackFunc p)
      end
  end.

(** [NewSiteMapper]: the mapper it returns and the run of the goroutine
    it starts, up to the moment the last of [signals] is served. *)
Definition NewSiteMapper (fuel : nat) (w : World)
    (options : Options.SiteMapperOptions) (signals : list Signal)
  : option Process :=
  let p := mkProcess (newMapper options) (mkEnv [] []) [] in
  let p :=
    if 0 <? Options.durationBeforeFirstCrawl options
    then mkProcess (mapper p) (penv p)
           [Slept (Options.durationBeforeFirstCrawl options)]
    else p in
  match call_crawl fuel w options p with
  | None => None
  | Some p =>
      (* [time.NewTicker] panics on an interval that is not positive *)
      if Options.crawlInterval options <=? 0
      then Some (mkProcess (mapper p) (penv p)
                   (events p ++ [TickerPanicked]))
      else serve fuel w options signals p
  end.

Record sitemapURL := mkSitemapURL {
  Location : string;
  LastModified : string
}.

Record sitemapURLSet := mkSitemapURLSet {
  Xmlns : string;
  XmlnsXsi : string;
  XsiSchemaLoc : string;
  URLS : list sitemapURL
}.

Definition nl : string := String (ascii_of_nat 10) EmptyString.
Definition tab : string := String (ascii_of_nat 9) EmptyString.
Definition quoted (s : string) : string :=
  String dquote EmptyString +:+ s +:+ String dquote EmptyString.

(** [xml.MarshalIndent(urlSet, "", "\t")] through the struct tags of
    [sitemapURLSet] and [sitemapURL]; strings always marshal. *)
Definition marshalURL (u : sitemapURL) : string :=
  nl +:+ tab +:+ "<url>"
  +:+ nl +:+ tab +:+ tab +:+ "<loc>" +:+ xml_EscapeText (Location u)
  +:+ "</loc>"
  +:+ (if String.eqb (LastModified u) "" then ""
       else nl +:+ tab +:+ tab +:+ "<lastmod>"
            +:+ xml_EscapeText (LastModified u) +:+ "</lastmod>")
  +:+ nl +:+ tab +:+ "</url>".

Definition xml_MarshalIndent (urlSet : sitemapURLSet) : option string :=
  Some ("<urlset xmlns=" +:+ quoted (xml_EscapeText (Xmlns urlSet))
        +:+ " xmlns:xsi=" +:+ quoted (xml_EscapeText (XmlnsXsi urlSet))
        +:+ " xsi:schemaLocation="
        +:+ quoted (xml_EscapeText (XsiSchemaLoc urlSet)) +:+ ">"
        +:+ match URLS urlSet with
            | [] => ""
            | urls => foldr (fun u s => marshalURL u +:+ s) nl urls
            end
        +:+ "</urlset>").

Definition EmptySitemapXML (baseDomain : string) (now : Time) : string :=
  "<?xml version='1.0' encoding='UTF-8'?>" +:+ nl
  +:+ tab +:+ tab +:+ "<urlset xmlns:xsi="
  +:+ quoted "http://www.w3.org/2001/XMLSchema-instance"
  +:+ " xsi:schemaLocation="
  +:+ quoted "http://www.sitemaps.org/schemas/sitemap/0.9 http://www.sitemaps.org/schemas/sitemap/0.9/sitemap.xsd"
  +:+ " xmlns=" +:+ quoted "http://www.sitemaps.org/schemas/sitemap/0.9"
  +:+ ">" +:+ nl
  +:+ tab +:+ tab +:+ tab +:+ "<url>" +:+ nl
  +:+ tab +:+ tab +:+ tab +:+ tab +:+ "<loc>" +:+ baseDomain +:+ "/</loc>"
  +:+ nl
  +:+ tab +:+ tab +:+ tab +:+ tab +:+ "<lastmod>" +:+ time_Format_date now
  +:+ "</lastmod>" +:+ nl
  +:+ tab +:+ tab +:+ tab +:+ "</url>" +:+ nl
  +:+ tab +:+ tab +:+ "</urlset>" +:+ nl
  +:+ tab +:+ tab.

(** [strings.Replace(link, oldDomain, newDomain, 1)] on a [link] that
    starts with [oldDomain] replaces that leading occurrence. *)
Definition replaceDomain (link oldDomain newDomain : string) : string :=
  if gostrings.HasPrefix link oldDomain
  then newDomain +:+ gostrings.drop (String.length oldDomain) link
  else link.

(** The [for _, link := range links] loop of [GenerateSitemap]. *)
Fixpoint sitemapURLs (m : SiteMapper) (baseDomain : string)
    (filter : Regexp) (links : list Crawler.crawlerURL)
    (urls : list sitemapURL) : list sitemapURL :=
  match links with
  | [] => urls
  | link :: rest =>
      if MatchString filter (Crawler.link link)
      then sitemapURLs m baseDomain filter rest urls
      else
        sitemapURLs m baseDomain filter rest
          (urls ++ [mkSitemapURL
                      (replaceDomain (Crawler.link link) (domain m)
                         baseDomain)
                      (time_Format_date (Crawler.lastChanged link))])
  end.

Definition xmlHeader : string :=
  "<?xml version=" +:+ quoted "1.0" +:+ " encoding=" +:+ quoted "UTF-8"
  +:+ "?>" +:+ nl.

Definition emptyURLSet : sitemapURLSet :=
  mkSitemapURLSet "http://www.sitemaps.org/schemas/sitemap/0.9"
    "http://www.w3.org/2001/XMLSchema-instance"
    "http://www.sitemaps.org/schemas/sitemap/0.9 http://www.sitemaps.org/schemas/sitemap/0.9/sitemap.xsd"
    [].

(** The document and the [error] ([None] is [nil]; the text of an error
    wraps the library's own and is kept to its prefix). [now] is the
    reading of [time.Now] in [EmptySitemapXML]. *)
Definition GenerateSitemap (m : SiteMapper) (now : Time)
    (baseDomain filterPattern : string) : string * option string :=
  let urlSet := emptyURLSet in
  let links := Crawler.getLinks (spider m) in
  match regexp_Compile filterPattern with
  | None =>
      (EmptySitemapXML baseDomain now,
       Some "invalid filter pattern provided")
  | Some filter =>
      let urls := sitemapURLs m baseDomain filter links [] in
      let urlSet :=
        mkSitemapURLSet (Xmlns urlSet) (XmlnsXsi urlSet)
          (XsiSchemaLoc urlSet) urls in
      match xml_MarshalIndent urlSet with
      | None =>
          (EmptySitemapXML baseDomain now, Some "failed to generate xml")
      | Some xmlBytes => (xmlHeader +:+ xmlBytes, None)
      end
  end.

End WithLibraries.

End Mapper.

(** ** A small instance of the libraries, to run the model on sample sites

    The tokenizer covers text, end tags, and start or self-closing tags whose
    attribute values are bare or quoted; the digest is the document itself;
    a pattern is a literal (no metacharacter) searched anywhere in the text. *)
Module Sample.

Inductive Mode :=
| InText
| InName (closing : bool) (name : string)
| InAttrs (name : string) (attrs : list Attribute) (slash : bool)
| InKey (name : string) (attrs : list Attribute) (key : string)
| InValue (name : string) (attrs : list Attribute) (key : string)
    (quote : option ascii) (started : bool) (val : string).

Definition isBlank (c : ascii) : bool := gostrings.asciiSpace c.

Definition snoc (s : string) (c : ascii) : string :=
  s +:+ String c EmptyString.

Definition tagToken (closing slash : bool) (name : string)
    (attrs : list Attribute) : Token :=
  mkToken (if closing then EndTagToken
           else if slash then SelfClosingTagToken else StartTagToken)
    (gostrings.ToLower name) (if closing then [] else attrs).

Definition lexStep (st : Mode * list Token) (c : ascii) : Mode * list Token :=
  let '(mode, out) := st in
  match mode with
  | InText =>
      if Ascii.eqb c "<" then (InName false "", out) else (InText, out)
  | InName closing name =>
      if Ascii.eqb c "/" && String.eqb name "" then (InName true "", out)
      else if Ascii.eqb c ">" then
        (InText, out ++ [tagToken closing false name []])
      else if isBlank c then
        if closing then (InName closing name, out)
        else (InAttrs name [] false, out)
      else if Ascii.eqb c "/" then (InAttrs name [] true, out)
      else (InName closing (snoc name c), out)
  | InAttrs name attrs slash =>
      if Ascii.eqb c ">" then
        (InText, out ++ [tagToken false slash name attrs])
      else if isBlank c then (InAttrs name attrs false, out)
      else if Ascii.eqb c "/" then (InAttrs name attrs true, out)
      else (InKey name attrs (String c EmptyString), out)
  | InKey name attrs key =>
      let key' := gostrings.ToLower key in
      if Ascii.eqb c "=" then (InValue name attrs key' None false "", out)
      else if Ascii.eqb c ">" then
        (InText,
         out ++ [tagToken false false name (attrs ++ [mkAttribute key' ""])])
      else if isBlank c then
        (InAttrs name (attrs ++ [mkAttribute key' ""]) false, out)
      else (InKey name attrs (snoc key c), out)
  | InValue name attrs key quote started val =>
      match quote with
      | Some q =>
          if Ascii.eqb c q
          then (InAttrs name (attrs ++ [mkAttribute key val]) false, out)
          else (InValue name attrs key quote true (snoc val c), out)
      | None =>
          if negb started && (Ascii.eqb c "'" || Ascii.eqb c dquote)
          then (InValue name attrs key (Some c) true "", out)
          else if Ascii.eqb c ">" then
            (InText,
             out ++ [tagToken false false name
                       (attrs ++ [mkAttribute key val])])
          else if isBlank c then
            (InAttrs name (attrs ++ [mkAttribute key val]) false, out)
          else (InValue name attrs key None true (snoc val c), out)
      end
  end.

Fixpoint lex (s : string) (st : Mode * list Token) : list Token :=
  match s with
  | EmptyString => st.2
  | String c r => lex r (lexStep st c)
  end.

Definition tokens (document : string) : list Token :=
  lex document (InText, []).

Definition isLiteral (pattern : string) : bool :=
  (fix go (s : string) : bool :=
     match s with
     | EmptyString => true
     | String c r => negb (char_in c "\.+*?()|[]{}^$") && go r
     end) pattern.

Definition escapeByte (c : ascii) : string :=
  if Ascii.eqb c "&" then "&amp;"
  else if Ascii.eqb c "<" then "&lt;"
  else if Ascii.eqb c ">" then "&gt;"
  else if Ascii.eqb c "'" then "&#39;"
  else if Ascii.eqb c dquote then "&#34;"
  else String c EmptyString.

Fixpoint escapeText (s : string) : string :=
  match s with
  | EmptyString => EmptyString
  | String c r => escapeByte c +:+ escapeText r
  end.

Definition libraries : Libraries := {|
  sha256_hex := fun body => body;
  html_tokens := tokens;
  time_Format_date := fun _ => "2006-01-02";
  Regexp := string;
  regexp_Compile :=
    fun pattern => if isLiteral pattern then Some pattern else None;
  MatchString :=
    fun pattern s =>
      match String.index 0 pattern s with Some _ => true | None => false end;
  xml_EscapeText := escapeText
|}.

(** A site given by its pages: every request for a listed URL is answered
    200 with the page, every other one 404 with an empty body. *)
Definition site (pages : list (string * string)) (t0 : Time) : World :=
  mkWorld
    (fun _ u =>
       match List.find (fun p => String.eqb p.1 u) pages with
       | Some p => GetResponse 200 (Some p.2)
       | None => GetResponse 404 (Some "")
       end)
    (fun n => t0 + Z.of_nat n).

End Sample.

(** ** Sample inputs *)

Definition exampleCrawler : Crawler.crawler :=
  Crawler.newCrawler "http://example.com" ["hx-get"].

(** A home page that links twice to [/page1] and twice to [/missing]. *)
Definition homePage : string :=
  "<a href='/page1'>1</a><a href='/page1'>1</a>"
  +:+ "<a href='/missing'>m</a><a href='/missing'>m</a>".

(** A site of two pages: the home page and [/page1], which links back to
    it; the site does not serve [/missing]. *)
Definition sampleSite : World :=
  Sample.site
    [("http://example.com", homePage);
     ("http://example.com/page1", "<a href='/'>home</a>")]
    1000.

(** A crawler that knows, from an earlier cycle, the home page with the
    content it still has and a page [/old] that is no longer linked. *)
Definition seasonedCrawler : Crawler.crawler :=
  Crawler.mkCrawler "http://example.com" ["hx-get"] ∅
    (list_to_map
       [("http://example.com",
         Crawler.mkCrawlerURL "http://example.com" homePage 7);
        ("http://example.com/old",
         Crawler.mkCrawlerURL "http://example.com/old" "old" 7)]).

Definition freshEnv : Env := mkEnv [] [].

(** A mapper around [seasonedCrawler]. *)
Definition seasonedMapper : Mapper.SiteMapper :=
  Mapper.mkSiteMapper seasonedCrawler "http://example.com".

(** The options of the tests: no delay, a crawl every ten minutes. *)
Definition sampleOptions : Options.SiteMapperOptions :=
  Options.mkOptions "http://example.com" 0 (600 * Options.Second) "/"
    ["hx-get"].

(** The URLs that the pages of [sampleSite] link to. *)
Definition sampleURLs : gset string :=
  {[ "http://example.com"; "http://example.com/page1";
     "http://example.com/missing" ]}.

(** ** The vocabulary of the statements *)

(** The origin of a parsed URL, for the statements about site boundaries. *)
Definition origin (u : url.URL) : string :=
  url.Scheme u +:+ "://" +:+ url.Host u.

(** The configured domain is a bare origin in printed form: it parses to a
    host without path, query or fragment, prints back as itself and has no
    trailing slash. *)
Definition bareOrigin (d : string) : bool :=
  match url.Parse d with
  | None => false
  | Some base =>
      negb (String.eqb (url.Host base) "")
      && String.eqb (url.Opaque base) "" && String.eqb (url.Path base) ""
      && String.eqb (url.RawPath base) "" && negb (url.ForceQuery base)
      && String.eqb (url.RawQuery base) ""
      && String.eqb (url.Fragment base) ""
      && String.eqb (url.String base) d
      && String.eqb (gostrings.TrimRight d "/") d
  end.

(** Two URLs that differ at most in their fragment. *)
Definition sameButFragment (p q : url.URL) : Prop :=
  url.with_Fragment p "" "" = url.with_Fragment q "" "".

(** The reference [/] as [url.Parse] gives it. *)
Definition rootReference : url.URL :=
  url.mkURL "" "" None "" "/" "" false false "" "" "".

(** A domain that does not parse, or has a scheme other than http and https,
    a path other than the root, or no host name. *)
Definition malformedDomain (d : string) : bool :=
  match url.Parse d with
  | None => true
  | Some p =>
      negb (bool_decide (url.Scheme p ∈ ["http"; "https"]))
      || negb (bool_decide (url.Path p ∈ [""; "/"]))
      || bool_decide (url.Hostname p = "")
  end.

(** The raw values that a token contributes, in the words of the
    specification: the [href] values of an anchor tag, and of any other start
    or self-closing tag the values of the configured attributes. *)
Definition collected (linkAttributes : list string) (token : Token)
  : list string :=
  match Type_ token with
  | StartTagToken | SelfClosingTagToken =>
      if String.eqb (Data token) "a"
      then Val <$> filter (λ attr, Key attr = "href") (Attr token)
      else Val <$> filter (λ attr, Key attr ∈ linkAttributes) (Attr token)
  | _ => []
  end.

(** The tokens in front of the first [ErrorToken]. *)
Fixpoint beforeError (stream : list Token) : list Token :=
  match stream with
  | [] => []
  | token :: rest =>
      match Type_ token with
      | ErrorToken => []
      | _ => token :: beforeError rest
      end
  end.

(** The normalized form of a raw value that the normalizer accepts. *)
Definition accepted (c : Crawler.crawler) (raw : string) : option string :=
  match Crawler.normalizeURL c raw with
  | (normalized, true) => Some normalized
  | (_, false) => None
  end.

(** [u] was fetched with success among the requests [t]. *)
Definition fetched (u : string) (t : list (string * Response)) : Prop :=
  ∃ r, (u, r) ∈ t ∧ fetched_ok r = true.

(** No URL is requested again after a request for it that succeeded. *)
Fixpoint fetched_once (t : list (string * Response)) : Prop :=
  match t with
  | [] => True
  | (u, r) :: rest =>
      (fetched_ok r = true → ∀ r', (u, r') ∉ rest) ∧ fetched_once rest
  end.

(** The number of successful requests for [u] among [t]. *)
Definition successes (u : string) (t : list (string * Response)) : nat :=
  length (filter (λ p, p.1 = u ∧ fetched_ok p.2 = true) t).

(** The durable record of [k] after a cycle whose record of it is [fresh]. *)
Definition reconciled (old : gmap string Crawler.crawlerURL) (k : string)
    (fresh : Crawler.crawlerURL) : Crawler.crawlerURL :=
  match old !! k with
  | Some oldUrl =>
      if String.eqb (Crawler.checksum fresh) (Crawler.checksum oldUrl)
      then oldUrl else fresh
  | None => fresh
  end.

(** Every record of the durable map is filed under its own link. *)
Definition links_wf (c : Crawler.crawler) : bool :=
  forallb (λ kv, String.eqb (Crawler.link kv.2) kv.1)
    (map_to_list (Crawler.links c)).

(** What holds of the state of the loop throughout a cycle that started
    with the requests of [e0] behind it. *)
Record cycle_inv {L : Libraries} (w : World)
    (links0 : gmap string Crawler.crawlerURL) (domain0 : string)
    (attrs0 : list string) (e0 : Env) (st : Crawler.LoopState) : Prop := {
  inv_domain : Crawler.domain (Crawler.cr st) = domain0;
  inv_attrs : Crawler.linkAttributes (Crawler.cr st) = attrs0;
  inv_links : Crawler.links (Crawler.cr st) = links0;
  inv_requests :
    ∃ cyc, requests (Crawler.env st) = requests e0 ++ cyc
           ∧ fetched_once cyc
           ∧ ∀ u, is_Some (Crawler.visited (Crawler.cr st) !! u)
                  ↔ fetched u cyc;
  inv_visited :
    ∀ u v, Crawler.visited (Crawler.cr st) !! u = Some v →
      ∃ i body,
        requests (Crawler.env st) !! i = Some (u, GetResponse 200 (Some body))
        ∧ (length (requests e0) ≤ i)%nat
        ∧ v = Crawler.mkCrawlerURL u (sha256_hex body) (time_Now w i)
}.

(** The loop stays within a site: every URL in the queue or in [visited]
    is one of the URLs of [site]. *)
Definition within_site (domain0 : string) (attrs0 : list string)
    (site : gset string) (st : Crawler.LoopState) : Prop :=
  Crawler.domain (Crawler.cr st) = domain0
  ∧ Crawler.linkAttributes (Crawler.cr st) = attrs0
  ∧ (∀ u, u ∈ Crawler.queue st → u ∈ site)
  ∧ dom (Crawler.visited (Crawler.cr st)) ⊆ site.

(** What is left to do: the queue, and [K] entries for every URL of the site
    not yet visited. *)
Definition potential (site : gset string) (K : nat) (st : Crawler.LoopState)
  : nat :=
  (length (Crawler.queue st)
   + K * (size site - size (Crawler.visited (Crawler.cr st))))%nat.

(** The kind of an event of the scheduler. *)
Inductive EventKind := KSlept | KCrawled | KCallback | KPanicked.

Definition kind (ev : Mapper.Event) : EventKind :=
  match ev with
  | Mapper.Slept _ => KSlept
  | Mapper.Crawled _ => KCrawled
  | Mapper.CallbackCalled _ => KCallback
  | Mapper.TickerPanicked => KPanicked
  end.

(** [u] is a result of the normalizer of [c]. *)
Definition normalized (c : Crawler.crawler) (u : string) : Prop :=
  ∃ href, Crawler.normalizeURL c href = (u, true).

(** The call of a logger that [crawl] makes for a request and its answer. *)
Definition logged (p : string * Response) : LogEntry :=
  match p.2 with
  | GetFailed err => ErrorFetching p.1 err
  | GetResponse StatusCode None =>
      if StatusCode =? 200 then ErrorReadingBody
      else ErrorStatus p.1 StatusCode
  | GetResponse StatusCode (Some _) =>
      if StatusCode =? 200 then InfoCrawling p.1
      else ErrorStatus p.1 StatusCode
  end.

(** What holds of the log throughout a cycle that started in [e0]: one
    entry for every request of the cycle. *)
Definition log_inv (e0 : Env) (st : Crawler.LoopState) : Prop :=
  ∃ cyc, requests (Crawler.env st) = requests e0 ++ cyc
         ∧ log (Crawler.env st) = log e0 ++ (logged <$> cyc).

(** What holds of the URLs throughout a cycle of the crawler [c0] that
    started in [e0]: the queue, [visited] and the requests hold results of
    the normalizer only. *)
Definition confined_inv (c0 : Crawler.crawler) (e0 : Env)
    (st : Crawler.LoopState) : Prop :=
  Crawler.domain (Crawler.cr st) = Crawler.domain c0
  ∧ (∀ u, u ∈ Crawler.queue st → normalized c0 u)
  ∧ (∀ u, is_Some (Crawler.visited (Crawler.cr st) !! u) → normalized c0 u)
  ∧ ∃ cyc, requests (Crawler.env st) = requests e0 ++ cyc
           ∧ ∀ u r, (u, r) ∈ cyc → normalized c0 u.

(** The URLs that a cycle can reach from [seed] over the pages fetched with
    success among the requests [t]: the seed, and every link that
    [extractLinks] finds on a page fetched from a URL reached. *)
Inductive reachable {L : Libraries} (c : Crawler.crawler) (seed : string)
    (t : list (string * Response)) : string → Prop :=
| reach_seed : reachable c seed t seed
| reach_link v body l :
    reachable c seed t v →
    (v, GetResponse 200 (Some body)) ∈ t →
    l ∈ Crawler.extractLinks c (html_tokens body) →
    reachable c seed t l.

(** [l] is in the queue or was requested. *)
Definition settled (queue : list string) (t : list (string * Response))
    (l : string) : Prop :=
  l ∈ queue ∨ ∃ r, (l, r) ∈ t.

(** The state of the loop with respect to the links of the site: what is
    queued or requested can be reached, and the seed and every link of a
    page fetched are queued or requested. *)
Definition reach_inv {L : Libraries} (c0 : Crawler.crawler) (seed : string)
    (e0 : Env) (st : Crawler.LoopState) : Prop :=
  Crawler.domain (Crawler.cr st) = Crawler.domain c0
  ∧ Crawler.linkAttributes (Crawler.cr st) = Crawler.linkAttributes c0
  ∧ ∃ cyc,
      requests (Crawler.env st) = requests e0 ++ cyc
      ∧ (∀ u, is_Some (Crawler.visited (Crawler.cr st) !! u) →
              ∃ r, (u, r) ∈ cyc)
      ∧ (∀ u, u ∈ Crawler.queue st → reachable c0 seed cyc u)
      ∧ (∀ u r, (u, r) ∈ cyc → reachable c0 seed cyc u)
      ∧ settled (Crawler.queue st) cyc seed
      ∧ ∀ v body l,
          (v, GetResponse 200 (Some body)) ∈ cyc →
          l ∈ Crawler.extractLinks c0 (html_tokens body) →
          settled (Crawler.queue st) cyc l.

(** The answers of the site do not change over time. *)
Definition stable (w : World) : Prop :=
  ∀ i j u, http_Get w i u = http_Get w j u.

(** Two states of the loop that agree on the queue, the configuration and,
    for every URL, on whether it was visited and with which checksum. *)
Definition similar (st st' : Crawler.LoopState) : Prop :=
  Crawler.queue st = Crawler.queue st'
  ∧ Crawler.domain (Crawler.cr st) = Crawler.domain (Crawler.cr st')
  ∧ Crawler.linkAttributes (Crawler.cr st)
    = Crawler.linkAttributes (Crawler.cr st')
  ∧ ∀ u, Crawler.checksum <$> Crawler.visited (Crawler.cr st) !! u
         = Crawler.checksum <$> Crawler.visited (Crawler.cr st') !! u.

(** Every byte of [s] is a letter. *)
Definition letters (s : string) : Prop :=
  ∀ c, char_in c s = true → isLetter c = true.

(** The mapper that [NewSiteMapper] made from [options], at any later time:
    its domain and the configuration of its crawler are those of the
    options, and every record of the durable map is filed under its own
    link, a result of the normalizer. *)
Definition mapper_inv (options : Options.SiteMapperOptions)
    (m : Mapper.SiteMapper) : Prop :=
  Mapper.domain m = Options.domain options
  ∧ Crawler.domain (Mapper.spider m) = Options.domain options
  ∧ Crawler.linkAttributes (Mapper.spider m) = Options.linkAttributes options
  ∧ ∀ k v, Crawler.links (Mapper.spider m) !! k = Some v →
           Crawler.link v = k ∧ normalized (Mapper.spider m) k.

(** The entry of the sitemap for a record of the snapshot, in the words of
    the loop of [GenerateSitemap]. *)
Definition sitemapEntry {L : Libraries} (m : Mapper.SiteMapper)
    (baseDomain : string) (link : Crawler.crawlerURL) : Mapper.sitemapURL :=
  Mapper.mkSitemapURL
    (Mapper.replaceDomain (Crawler.link link) (Mapper.domain m) baseDomain)
    (time_Format_date (Crawler.lastChanged link)).

(** The number of requests among [t] that led to a page. *)
Definition pages (t : list (string * Response)) : nat :=
  length (filter (λ p, fetched_ok p.2 = true) t).

(** What holds of the number of requests throughout a cycle over pages of
    at most [K] links: every request made and every URL queued is paid for
    by the seed or by a link of a page fetched. *)
Definition budget_inv (c0 : Crawler.crawler) (K : nat) (e0 : Env)
    (st : Crawler.LoopState) : Prop :=
  Crawler.domain (Crawler.cr st) = Crawler.domain c0
  ∧ Crawler.linkAttributes (Crawler.cr st) = Crawler.linkAttributes c0
  ∧ ∃ cyc, requests (Crawler.env st) = requests e0 ++ cyc
           ∧ (length cyc + length (Crawler.queue st) ≤ 1 + K * pages cyc)%nat.

(** * Properties *)

(** ** Strings *)
Section StringFacts.

Implicit Types s t : string.

Lemma app_cons c s t : String c s +:+ t = String c (s +:+ t).
Proof. reflexivity. Qed.

Lemma app_empty_r s : s +:+ "" = s.
Proof. induction s as [|c s IH]; [done|]. by rewrite app_cons, IH. Qed.

Lemma app_assoc' s t r : (s +:+ t) +:+ r = s +:+ (t +:+ r).
Proof. induction s as [|c s IH]; [done|]. by rewrite !app_cons, IH. Qed.

Lemma eqb_true s t : String.eqb s t = true ↔ s = t.
Proof. apply String.eqb_eq. Qed.

Lemma eqb_false s t : String.eqb s t = false ↔ s ≠ t.
Proof. apply String.eqb_neq. Qed.

Lemma prefix_refl s : gostrings.HasPrefix s s = true.
Proof.
  unfold gostrings.HasPrefix.
  induction s as [|c s IH]; simpl; [done|].
  destruct (ascii_dec c c); [done | congruence].
Qed.

Lemma TrimRight_no_suffix s c :
  gostrings.lastByte (gostrings.TrimRight s c) ≠ Some c.
Proof.
  induction s as [|x s IH]; simpl; [done|].
  destruct (gostrings.TrimRight s c) as [|y r] eqn:E.
  - destruct (Ascii.eqb x c) eqn:Ex; simpl; [done|].
    apply Ascii.eqb_neq in Ex. congruence.
  - exact IH.
Qed.

Lemma TrimRight_snoc s c :
  gostrings.TrimRight (s +:+ String c "") c = gostrings.TrimRight s c.
Proof.
  induction s as [|x s IH].
  - simpl. by rewrite Ascii.eqb_refl.
  - rewrite app_cons. simpl. by rewrite IH.
Qed.

Lemma Cut_app s sep t :
  gostrings.Cut (s +:+ String sep t) sep
  = match gostrings.Cut s sep with
    | (b, a, true) => (b, a +:+ String sep t, true)
    | (b, _, false) => (s, t, true)
    end.
Proof.
  induction s as [|x s IH].
  - simpl. by rewrite Ascii.eqb_refl.
  - rewrite app_cons. simpl. destruct (Ascii.eqb x sep); [done|].
    rewrite IH. by destruct (gostrings.Cut s sep) as [[b a] []].
Qed.

Lemma Cut_not_found s sep b a :
  gostrings.Cut s sep = (b, a, false) → b = s ∧ a = "".
Proof.
  revert b a. induction s as [|x s IH]; intros b a; simpl.
  - by intros [= <- <-].
  - destruct (Ascii.eqb x sep); [done|].
    destruct (gostrings.Cut s sep) as [[b' a'] f] eqn:E.
    intros [= <- <- ->]. by destruct (IH _ _ eq_refl) as [-> ->].
Qed.

End StringFacts.

(** ** The URL library: appending a fragment *)
Section FragmentFacts.

Import gostrings.

Lemma TrimSpace_isEmpty_cons c r :
  TrimSpace_isEmpty (String c r)
  = if asciiSpace c then TrimSpace_isEmpty r
    else match r with
         | String d r' =>
             if isSpace2 c d then TrimSpace_isEmpty r'
             else match r' with
                  | String e r'' => isSpace3 c d e && TrimSpace_isEmpty r''
                  | EmptyString => false
                  end
         | EmptyString => false
         end.
Proof. reflexivity. Qed.

Lemma isSpace2_hash c : isSpace2 c "#" = false.
Proof. unfold isSpace2. by destruct (isByte c 194). Qed.

Lemma isSpace3_hash_mid c e : isSpace3 c "#" e = false.
Proof.
  unfold isSpace3.
  by destruct (isByte c 225), (isByte c 226), (isByte c 227).
Qed.

Lemma isSpace3_hash_last c d : isSpace3 c d "#" = false.
Proof.
  unfold isSpace3.
  destruct (isByte c 225), (isByte c 226), (isByte c 227),
    (isByte d 154), (isByte d 128), (isByte d 129); reflexivity.
Qed.

Lemma TrimSpace_hash t : TrimSpace_isEmpty (String "#" t) = false.
Proof.
  rewrite TrimSpace_isEmpty_cons. simpl.
  destruct t as [|d [|e r]]; reflexivity.
Qed.

(** A string that is not blank stays so when a fragment is appended. *)
Lemma TrimSpace_nonempty_app s t :
  TrimSpace_isEmpty s = false →
  TrimSpace_isEmpty (s +:+ String "#" t) = false.
Proof.
  remember (String.length s) as n eqn:Hn. revert s Hn.
  induction n as [n IH] using lt_wf_ind. intros s -> H.
  destruct s as [|c s]; [done|].
  rewrite app_cons, TrimSpace_isEmpty_cons.
  rewrite TrimSpace_isEmpty_cons in H.
  destruct (asciiSpace c).
  { apply (IH (String.length s)); simpl; auto with lia. }
  destruct s as [|d s].
  { simpl. rewrite isSpace2_hash.
    destruct t as [|e t]; [done|]. by rewrite isSpace3_hash_mid. }
  rewrite app_cons. destruct (isSpace2 c d).
  { apply (IH (String.length s)); simpl; auto with lia. }
  destruct s as [|e s].
  { simpl. by rewrite isSpace3_hash_last. }
  rewrite app_cons. destruct (isSpace3 c d e); [|done].
  simpl in *. apply (IH (String.length s)); simpl; auto with lia.
Qed.

Lemma unescape_cons c rest mode :
  url.unescape (String c rest) mode
  = if Ascii.eqb c "%" then
      match rest with
      | String h1 (String h2 rest') =>
          if negb (url.ishex h1 && url.ishex h2) then None
          else
            let v := ascii_of_N (url.unhex h1 * 16 + url.unhex h2) in
            let is25 := Ascii.eqb h1 "2" && Ascii.eqb h2 "5" in
            if match mode with
               | url.encodeHost => (url.unhex h1 <? 8)%N && negb is25
               | url.encodeZone =>
                   negb is25 && negb (Ascii.eqb v " ")
                   && url.shouldEscape v url.encodeHost
               | _ => false
               end
            then None
            else option_map (String v) (url.unescape rest' mode)
      | _ => None
      end
    else if Ascii.eqb c "+" then
      option_map
        (String (match mode with
                 | url.encodeQueryComponent => " "
                 | _ => "+"
                 end)%char)
        (url.unescape rest mode)
    else if url.isHostMode mode && (N_of_ascii c <? 128)%N
            && url.shouldEscape c mode
    then None
    else option_map (String c) (url.unescape rest mode).
Proof. reflexivity. Qed.

(** Well-formed escapes stay well-formed when a second fragment text is
    appended after a [#]. *)
Lemma unescape_fragment_app a f :
  is_Some (url.unescape a url.encodeFragment) →
  is_Some (url.unescape f url.encodeFragment) →
  is_Some (url.unescape (a +:+ String "#" f) url.encodeFragment).
Proof.
  intros Ha Hf.
  remember (String.length a) as n eqn:Hn. revert a Hn Ha.
  induction n as [n IH] using lt_wf_ind. intros a -> Ha.
  destruct a as [|c a].
  { change ("" +:+ String "#" f) with (String "#" f).
    rewrite unescape_cons. simpl.
    destruct Hf as [f' ->]. by eexists. }
  rewrite app_cons, unescape_cons. rewrite unescape_cons in Ha.
  destruct (Ascii.eqb c "%").
  - destruct a as [|h1 [|h2 a]]; try by destruct Ha.
    rewrite !app_cons.
    destruct (negb (url.ishex h1 && url.ishex h2)); [by destruct Ha|].
    simpl in *.
    destruct (url.unescape a url.encodeFragment) as [a'|] eqn:Ea;
      [|by destruct Ha].
    destruct (IH (String.length a) ltac:(simpl; lia) a eq_refl) as [x ->];
      [by rewrite Ea|]. by eexists.
  - assert (is_Some (url.unescape (a +:+ String "#" f) url.encodeFragment))
      as [x Hx].
    { apply (IH (String.length a)); simpl; auto with lia.
      destruct (Ascii.eqb c "+"); simpl in Ha;
        destruct (url.unescape a url.encodeFragment); by try destruct Ha. }
    rewrite Hx. destruct (Ascii.eqb c "+"); simpl; by eexists.
Qed.

End FragmentFacts.

(** ** The URL library: what does not depend on the fragment *)
Section SameButFragment.

Lemma sameButFragment_refl p : sameButFragment p p.
Proof. reflexivity. Qed.

Lemma sameButFragment_with p f r g r' :
  sameButFragment (url.with_Fragment p f r) (url.with_Fragment p g r').
Proof. reflexivity. Qed.

Lemma setFragment_same p f q :
  url.setFragment p f = Some q → sameButFragment p q.
Proof.
  unfold url.setFragment. destruct (url.unescape f url.encodeFragment); [|done].
  by intros [= <-].
Qed.

Lemma setFragment_is_Some p f :
  is_Some (url.unescape f url.encodeFragment) → is_Some (url.setFragment p f).
Proof. unfold url.setFragment. by intros [x ->]. Qed.

Lemma eqb_app_hash a f : String.eqb (a +:+ String "#" f) "" = false.
Proof. by destruct a. Qed.

Lemma Parse_fragment_app u f p :
  url.Parse u = Some p →
  is_Some (url.unescape f url.encodeFragment) →
  ∃ q, url.Parse (u +:+ String "#" f) = Some q ∧ sameButFragment p q.
Proof.
  unfold url.Parse. intros Hp Hf. rewrite Cut_app.
  destruct (gostrings.Cut u "#") as [[b a] found] eqn:Hcut.
  destruct found.
  - destruct (url.parse b) as [base|]; [|done].
    rewrite eqb_app_hash.
    assert (is_Some (url.unescape a url.encodeFragment)
            ∧ sameButFragment p base) as [Ha Hsame].
    { destruct (String.eqb a "") eqn:Ea.
      - apply eqb_true in Ea as ->. injection Hp as <-.
        split; [by eexists|done].
      - split.
        + unfold url.setFragment in Hp.
          destruct (url.unescape a url.encodeFragment); [by eexists|done].
        + apply setFragment_same in Hp. by symmetry. }
    destruct (setFragment_is_Some base (a +:+ String "#" f)) as [q Hq].
    { by apply unescape_fragment_app. }
    exists q. split; [done|].
    apply setFragment_same in Hq. exact (eq_trans Hsame Hq).
  - apply Cut_not_found in Hcut as [-> ->].
    destruct (url.parse u) as [base|]; [|done].
    simpl in Hp. injection Hp as ->.
    destruct (String.eqb f "").
    + by exists p.
    + destruct (setFragment_is_Some p f Hf) as [q Hq].
      exists q. split; [done|]. by apply setFragment_same in Hq.
Qed.

Lemma ResolveReference_same base p q :
  sameButFragment p q →
  sameButFragment (url.ResolveReference base p) (url.ResolveReference base q).
Proof.
  destruct p as [s o us h pa rp oh fq rq f rf],
    q as [s' o' us' h' pa' rp' oh' fq' rq' f' rf'].
  unfold sameButFragment, url.with_Fragment. simpl.
  intros [= -> -> -> -> -> -> -> -> ->].
  unfold url.ResolveReference, url.setPath_ignore, url.setPath, url.with_Path,
    url.EscapedPath.
  cbn [url.Scheme url.Opaque url.User url.Host url.Path url.RawPath
       url.OmitHost url.ForceQuery url.RawQuery url.Fragment url.RawFragment].
  repeat (case_match;
    cbn [url.Scheme url.Opaque url.User url.Host url.Path url.RawPath
         url.OmitHost url.ForceQuery url.RawQuery url.Fragment
         url.RawFragment negb orb andb] in *;
    simplify_eq; try reflexivity).
Qed.

Lemma String_without_fragment p q :
  sameButFragment p q →
  url.String (url.set_Fragment p "") = url.String (url.set_Fragment q "").
Proof.
  destruct p as [s o us h pa rp oh fq rq f rf],
    q as [s' o' us' h' pa' rp' oh' fq' rq' f' rf'].
  unfold sameButFragment, url.with_Fragment. simpl.
  intros [= -> -> -> -> -> -> -> -> ->]. reflexivity.
Qed.

Lemma sameButFragment_Scheme p q :
  sameButFragment p q → url.Scheme p = url.Scheme q.
Proof.
  unfold sameButFragment, url.with_Fragment. destruct p, q. simpl. congruence.
Qed.

End SameButFragment.

(** ** normalizeURL *)
Section Normalizer.

Import Crawler.

(** What [normalizeURL] returns when it accepts. *)
Lemma normalizeURL_accepts c href n :
  normalizeURL c href = (n, true) →
  gostrings.TrimSpace_isEmpty href = false
  ∧ ∃ parsed resolved,
      url.Parse href = Some parsed
      ∧ String.eqb (url.Scheme parsed) "javascript" = false
      ∧ (if negb (url.IsAbs parsed)
         then ∃ base, url.Parse (domain c) = Some base
                      ∧ resolved = url.ResolveReference base parsed
         else resolved = parsed)
      ∧ n = gostrings.TrimRight
              (url.String (url.set_Fragment resolved "")) "/"
      ∧ gostrings.HasPrefix n (domain c) = true.
Proof.
  unfold normalizeURL.
  destruct (gostrings.TrimSpace_isEmpty href); [done|].
  destruct (url.Parse href) as [parsed|].
  2:{ intros H. discriminate H. }
  destruct (String.eqb (url.Scheme parsed) "javascript") eqn:Hjs; [done|].
  destruct (negb (url.IsAbs parsed)) eqn:Habs.
  - destruct (url.Parse (domain c)) as [base|]; [|done].
    destruct (gostrings.HasPrefix _ (domain c)) eqn:Hp; [|done].
    intros [= <-]. split; [done|].
    exists parsed, (url.ResolveReference base parsed).
    rewrite Habs.
    split; [reflexivity|]. split; [exact Hjs|].
    split; [exists base; split; reflexivity|].
    split; [reflexivity | exact Hp].
  - destruct (gostrings.HasPrefix _ (domain c)) eqn:Hp; [|done].
    intros [= <-]. split; [done|].
    exists parsed, parsed. rewrite Habs.
    split; [reflexivity|]. split; [exact Hjs|]. split; [reflexivity|].
    split; [reflexivity | exact Hp].
Qed.

Lemma normalizeURL_fragment c u f n :
  is_Some (url.unescape f url.encodeFragment) →
  normalizeURL c u = (n, true) →
  normalizeURL c (u +:+ String "#" f) = (n, true).
Proof.
  intros Hf Hn.
  destruct (normalizeURL_accepts _ _ _ Hn)
    as (Hblank & parsed & resolved & Hparse & Hjs & Hres & -> & Hpre).
  destruct (Parse_fragment_app _ _ _ Hparse Hf) as (q & Hq & Hsame).
  unfold normalizeURL.
  rewrite (TrimSpace_nonempty_app _ _ Hblank), Hq.
  rewrite <- (sameButFragment_Scheme _ _ Hsame), Hjs.
  unfold url.IsAbs in *. rewrite <- (sameButFragment_Scheme _ _ Hsame).
  destruct (negb (negb (String.eqb (url.Scheme parsed) ""))).
  - destruct Hres as (base & -> & ->).
    rewrite <- (String_without_fragment _ _
                  (ResolveReference_same base _ _ Hsame)).
    by rewrite Hpre.
  - subst resolved.
    rewrite <- (String_without_fragment _ _ Hsame). by rewrite Hpre.
Qed.

Lemma normalizeURL_no_trailing_slash c u n :
  normalizeURL c u = (n, true) → gostrings.HasSuffixByte n "/" = false.
Proof.
  intros Hn.
  destruct (normalizeURL_accepts _ _ _ Hn)
    as (_ & parsed & resolved & _ & _ & _ & -> & _).
  unfold gostrings.HasSuffixByte.
  pose proof (TrimRight_no_suffix
                (url.String (url.set_Fragment resolved "")) "/") as Hne.
  destruct (gostrings.lastByte _) as [x|]; [|done].
  apply Ascii.eqb_neq. congruence.
Qed.

Lemma ResolveReference_root base :
  url.ResolveReference base rootReference
  = url.mkURL (url.Scheme base) "" (url.User base) (url.Host base) "/" ""
      false false "" "" "".
Proof. reflexivity. Qed.

Lemma String_root base :
  url.Host base ≠ "" → url.Opaque base = "" → url.Path base = "" →
  url.RawPath base = "" → url.ForceQuery base = false →
  url.RawQuery base = "" → url.Fragment base = "" →
  url.String
    (url.mkURL (url.Scheme base) "" (url.User base) (url.Host base) "/" ""
       false false "" "" "")
  = url.String base +:+ "/".
Proof.
  destruct base as [s o us h pa rp oh fq rq f rf]. simpl.
  intros Hh -> -> -> -> -> ->.
  apply eqb_false in Hh.
  unfold url.String, url.EscapedPath.
  cbn [url.Scheme url.Opaque url.User url.Host url.Path url.RawPath
       url.OmitHost url.ForceQuery url.RawQuery url.Fragment url.RawFragment].
  rewrite Hh.
  change (String.eqb "" "") with true.
  change (String.eqb "/" "") with false.
  change (String.eqb "/" "*") with false.
  change (String.eqb "" "*") with false.
  change (url.escape "/" url.encodePath) with "/".
  change (url.escape "" url.encodePath) with "".
  cbn [negb orb andb].
  rewrite !orb_true_r, (andb_false_r oh). cbn [negb orb andb].
  change (Ascii.eqb "/" "/") with true. cbn [negb andb].
  change (gostrings.Contains (gostrings.Cut "/" "/").1.1 ":") with false.
  change (gostrings.Contains (gostrings.Cut "" "/").1.1 ":") with false.
  rewrite !andb_false_r.
  by rewrite !app_empty_r.
Qed.

Lemma normalizeURL_root c :
  bareOrigin (domain c) = true → normalizeURL c "/" = (domain c, true).
Proof.
  unfold bareOrigin.
  destruct (url.Parse (domain c)) as [base|] eqn:Hbase; [|done].
  rewrite !andb_true_iff, !negb_true_iff, !eqb_true, eqb_false.
  intros ((((((((Hh & Ho) & Hp) & Hrp) & Hfq) & Hrq) & Hf) & Hs) & Ht).
  unfold normalizeURL.
  change (gostrings.TrimSpace_isEmpty "/") with false.
  change (url.Parse "/") with (Some rootReference).
  cbn iota.
  change (String.eqb (url.Scheme rootReference) "javascript") with false.
  change (negb (url.IsAbs rootReference)) with true.
  cbn iota. rewrite Hbase, ResolveReference_root.
  change (url.set_Fragment ?u "") with u.
  rewrite String_root by done.
  rewrite Hs, (TrimRight_snoc (domain c) "/"), Ht, prefix_refl.
  reflexivity.
Qed.

End Normalizer.

(** ** Claims about the normalizer *)

(** C1 (a defect of the code). The claim: an input whose resolved URL has an
    origin other than that of the configured domain is rejected.  Under the
    domain [http://example.com] the input [http://example.com.evil.com/x]
    has the origin [http://example.com.evil.com], and [normalizeURL] accepts
    it: the last test compares the printed URL with the domain as a string
    prefix, which a longer host name passes. *)
Theorem C1_normalizeURL_accepts_other_origin :
  let c := Crawler.newCrawler "http://example.com" [] in
  let href := "http://example.com.evil.com/x" in
  origin <$> url.Parse (Crawler.domain c) = Some "http://example.com"
  ∧ origin <$> url.Parse href = Some "http://example.com.evil.com"
  ∧ Crawler.normalizeURL c href = (href, true).
Proof. vm_compute. auto. Qed.

(** C9, as stated, fails: [/p] is accepted, and [/p] followed by the fragment
    [#%zz] is rejected, because [url.Parse] refuses a fragment whose percent
    escape is malformed.  And under the domain [http://example.com?x], which
    [SetDomain] stores as it is, the root [/] does not collapse to the domain
    string: it is rejected. *)
Lemma C9_malformed_fragment_rejected :
  (Crawler.normalizeURL exampleCrawler "/p" = ("http://example.com/p", true)
   ∧ Crawler.normalizeURL exampleCrawler ("/p" +:+ "#" +:+ "%zz")
     = ("", false))
  ∧ (Options.domain
       (Options.SetDomain "http://example.com?x" Options.DefaultOptions).1
     = "http://example.com?x"
     ∧ Crawler.normalizeURL (Crawler.newCrawler "http://example.com?x" []) "/"
       = ("", false)).
Proof. vm_compute. auto. Qed.

(** C9 (amended). When [normalizeURL] accepts [u] with result [n]: [n] is the
    printed form, without fragment and with the trailing slashes trimmed, of
    [u] parsed and, when it is relative, resolved against the parsed domain;
    [u] followed by [#] and any fragment whose percent escapes are well
    formed is accepted with the same result; [n] does not end in a slash;
    and under a domain that is a bare origin the root [/] gives the domain
    string itself. *)
Theorem C9_normalizeURL_canonical (c : Crawler.crawler) (u f n : string) :
  Crawler.normalizeURL c u = (n, true) →
  (∃ parsed resolved,
     url.Parse u = Some parsed
     ∧ (if negb (url.IsAbs parsed)
        then ∃ base, url.Parse (Crawler.domain c) = Some base
                     ∧ resolved = url.ResolveReference base parsed
        else resolved = parsed)
     ∧ n = gostrings.TrimRight
             (url.String (url.set_Fragment resolved "")) "/")
  ∧ (is_Some (url.unescape f url.encodeFragment) →
     Crawler.normalizeURL c (u +:+ "#" +:+ f) = (n, true))
  ∧ gostrings.HasSuffixByte n "/" = false
  ∧ (bareOrigin (Crawler.domain c) = true →
     Crawler.normalizeURL c "/" = (Crawler.domain c, true)).
Proof.
  intros Hn. split; [|split; [|split]].
  - destruct (normalizeURL_accepts _ _ _ Hn)
      as (_ & parsed & resolved & Hp & _ & Hr & Hs & _).
    by exists parsed, resolved.
  - intros Hf. exact (normalizeURL_fragment c u f n Hf Hn).
  - exact (normalizeURL_no_trailing_slash c u n Hn).
  - apply normalizeURL_root.
Qed.

Lemma C9_normalizeURL_canonical_witness :
  Crawler.normalizeURL exampleCrawler "/page/"
  = ("http://example.com/page", true)
  ∧ is_Some (url.unescape "frag%20ment" url.encodeFragment)
  ∧ bareOrigin (Crawler.domain exampleCrawler) = true
  ∧ Crawler.normalizeURL exampleCrawler ("/page/" +:+ "#" +:+ "frag%20ment")
    = ("http://example.com/page", true)
  ∧ gostrings.HasSuffixByte "http://example.com/page" "/" = false
  ∧ Crawler.normalizeURL exampleCrawler "/" = ("http://example.com", true).
Proof.
  assert (Crawler.normalizeURL exampleCrawler "/page/"
          = ("http://example.com/page", true)) as Haccepted
    by (vm_compute; reflexivity).
  assert (is_Some (url.unescape "frag%20ment" url.encodeFragment)) as Hescapes
    by (vm_compute; by eexists).
  assert (bareOrigin (Crawler.domain exampleCrawler) = true) as Hbare
    by (vm_compute; reflexivity).
  destruct (C9_normalizeURL_canonical exampleCrawler "/page/" "frag%20ment"
              "http://example.com/page" Haccepted)
    as (_ & Hfrag & Hslash & Hroot).
  split; [exact Haccepted|]. split; [exact Hescapes|].
  split; [exact Hbare|]. split; [exact (Hfrag Hescapes)|].
  split; [exact Hslash | exact (Hroot Hbare)].
Defined.

(** ** The crawl cycle *)
Section CrawlCycle.

Import Crawler.
Context {L : Libraries}.

Lemma fetched_once_snoc t u r :
  fetched_once t →
  (∀ r0, (u, r0) ∈ t → fetched_ok r0 = false) →
  fetched_once (t ++ [(u, r)]).
Proof.
  induction t as [|[u0 r0] t IH]; simpl.
  - intros _ _. split; [|done]. intros _ r'. apply not_elem_of_nil.
  - intros [Hhead Htail] Hu. split.
    + intros Hok r' [Hin|Hin%list_elem_of_singleton]%elem_of_app.
      * by apply (Hhead Hok r').
      * injection Hin as -> ->.
        specialize (Hu r0 ltac:(left)). congruence.
    + apply IH; [done|]. intros r1 Hin. apply Hu. by right.
Qed.

Lemma successes_absent t u :
  (∀ r, (u, r) ∉ t) → successes u t = 0%nat.
Proof.
  unfold successes. induction t as [|[u0 r0] t IH]; intros Hno; [done|].
  rewrite filter_cons. case_decide as Hd; simpl in Hd.
  - destruct Hd as [-> _]. destruct (Hno r0). left.
  - apply IH. intros r Hin. apply (Hno r). by right.
Qed.

Lemma fetched_once_successes t u : fetched_once t → (successes u t ≤ 1)%nat.
Proof.
  induction t as [|[u0 r0] t IH]; simpl; [unfold successes; simpl; lia|].
  intros [Hhead Htail]. unfold successes. rewrite filter_cons.
  case_decide as Hd; simpl in Hd.
  - destruct Hd as [-> Hok]. simpl.
    fold (successes u t). rewrite successes_absent; [lia|]. by apply Hhead.
  - by apply IH.
Qed.

Lemma fetched_snoc t u r v :
  fetched v (t ++ [(u, r)]) ↔ fetched v t ∨ (v = u ∧ fetched_ok r = true).
Proof.
  unfold fetched. split.
  - intros (r0 & [Hin|Hin%list_elem_of_singleton]%elem_of_app & Hok).
    + left. eauto.
    + injection Hin as -> ->. by right.
  - intros [(r0 & Hin & Hok)|[-> Hok]].
    + exists r0. split; [|done]. apply elem_of_app. by left.
    + exists r. split; [|done]. apply elem_of_app. right. by left.
Qed.

Variable w : World.
Variable links0 : gmap string crawlerURL.
Variable domain0 : string.
Variable attrs0 : list string.
Variable e0 : Env.

Local Abbreviation inv := (cycle_inv w links0 domain0 attrs0 e0).

Lemma cycle_inv_start e q :
  requests e = requests e0 →
  inv (mkLoopState q (mkCrawler domain0 attrs0 ∅ links0) e).
Proof.
  intros He. split; simpl; try done.
  exists []. rewrite app_nil_r. split; [done|]. split; [done|].
  intros u. rewrite lookup_empty. split; [by intros []|].
  by intros (r & ?%not_elem_of_nil & _).
Qed.

(** A request that did not succeed leaves the invariant in place. *)
Lemma cycle_inv_failed q c e u r entry :
  inv (mkLoopState (u :: q) c e) →
  visited c !! u = None →
  fetched_ok r = false →
  inv (mkLoopState q c (logging (requesting e u r) entry)).
Proof.
  intros [Hd Ha Hl (cyc & Hreq & Honce & Hvis) Hv] Hnone Hbad.
  simpl in *. split; simpl; try done.
  - exists (cyc ++ [(u, r)]). split; [by rewrite Hreq, app_assoc|]. split.
    + apply fetched_once_snoc; [done|]. intros r0 Hin.
      destruct (fetched_ok r0) eqn:Hok; [|done].
      assert (is_Some (visited c !! u)) as [x Hx] by (apply Hvis; by exists r0).
      congruence.
    + intros v. rewrite fetched_snoc, Hvis. split; [by left|].
      intros [?|[_ ?]]; [done | congruence].
  - intros v x Hx. destruct (Hv v x Hx) as (i & body & Hi & Hle & ->).
    exists i, body. split; [|done]. by apply lookup_app_l_Some.
Qed.

Lemma cycle_inv_iteration currentURL q c e :
  inv (mkLoopState (currentURL :: q) c e) →
  inv (iteration w currentURL q c e).
Proof.
  intros Hinv. unfold iteration.
  destruct (visited c !! currentURL) as [x|] eqn:Hcur.
  { destruct Hinv as [? ? ? ? ?]. by split. }
  destruct (http_Get w (tick e) currentURL) as [err|StatusCode body] eqn:Hget.
  { by apply cycle_inv_failed. }
  destruct (StatusCode =? 200) eqn:Hstatus; simpl.
  2:{ apply cycle_inv_failed; [done..|]. simpl. rewrite Hstatus.
      by destruct body. }
  destruct body as [bodyBytes|]; [|by apply cycle_inv_failed].
  apply Z.eqb_eq in Hstatus as ->.
  destruct Hinv as [Hd Ha Hl (cyc & Hreq & Honce & Hvis) Hv].
  simpl in *. split; simpl; try done.
  - exists (cyc ++ [(currentURL, GetResponse 200 (Some bodyBytes))]).
    split; [by rewrite Hreq, app_assoc|]. split.
    + apply fetched_once_snoc; [done|]. intros r0 Hin.
      destruct (fetched_ok r0) eqn:Hok; [|done].
      assert (is_Some (visited c !! currentURL)) as [y Hy]
        by (apply Hvis; by exists r0).
      congruence.
    + intros v. rewrite fetched_snoc, <- Hvis, lookup_insert_is_Some.
      split.
      * intros [->|[_ ?]]; [by right | by left].
      * intros [?|[-> _]]; [|by left].
        destruct (decide (currentURL = v)); [by left | by right].
  - intros v y. rewrite lookup_insert. case_decide as Heq.
    + subst v. intros [= <-]. exists (tick e), bodyBytes.
      split; [|split; [|done]].
      * unfold tick. by rewrite lookup_app_r, Nat.sub_diag.
      * unfold tick. rewrite Hreq, length_app. lia.
    + intros Hy. destruct (Hv v y Hy) as (i & body & Hi & Hle & ->).
      exists i, body. split; [|done]. by apply lookup_app_l_Some.
Qed.

Lemma cycle_inv_step st : inv st → inv (loop_step w st).
Proof.
  unfold loop_step. destruct st as [[|u q] c e]; simpl; [done|].
  apply cycle_inv_iteration.
Qed.

Lemma cycle_inv_iter n st :
  inv st → inv (Nat.iter n (loop_step w) st).
Proof.
  intros Hst. induction n as [|n IH]; simpl; [done|]. by apply cycle_inv_step.
Qed.

Lemma run_loop_inv fuel st st' :
  inv st → run_loop fuel w st = Some st' →
  inv st' ∧ queue st' = [].
Proof.
  revert st. induction fuel as [|fuel IH]; intros st Hst; simpl.
  - destruct (queue st) eqn:Hq; [|done]. by intros [= <-].
  - destruct (queue st) eqn:Hq; [by intros [= <-]|].
    intros Hrun. apply (IH (loop_step w st)); [|done]. by apply cycle_inv_step.
Qed.

End CrawlCycle.

Section CrawlResult.

Import Crawler.
Context {L : Libraries}.

Lemma newLinks_lookup vis old k :
  newLinks vis old !! k = reconciled old k <$> vis !! k.
Proof.
  unfold newLinks.
  apply (map_fold_weak_ind (λ r m, r !! k = reconciled old k <$> m !! k)).
  - by rewrite !lookup_empty.
  - intros i x m r Hi IH. unfold reconciled.
    destruct (decide (i = k)) as [->|Hne].
    + rewrite (lookup_insert_eq m).
      destruct (old !! k) as [o|]; simpl;
        [destruct (String.eqb (checksum x) (checksum o)); simpl|];
        by rewrite lookup_insert_eq.
    + rewrite (lookup_insert_ne m) by done.
      destruct (old !! i) as [o|];
        [destruct (String.eqb (checksum x) (checksum o)); simpl|];
        by rewrite lookup_insert_ne.
Qed.

Lemma newLinks_dom vis old : dom (newLinks vis old) = dom vis.
Proof.
  apply set_eq. intros k. rewrite !elem_of_dom, newLinks_lookup.
  by rewrite fmap_is_Some.
Qed.

Lemma links_wf_spec c :
  links_wf c = true ↔ ∀ k v, links c !! k = Some v → link v = k.
Proof.
  unfold links_wf. rewrite forallb_forall. split.
  - intros H k v Hkv. apply eqb_true.
    apply (H (k, v)), list_elem_of_In. by apply elem_of_map_to_list.
  - intros H [k v] Hin%list_elem_of_In%elem_of_map_to_list.
    apply eqb_true. by apply H.
Qed.

Lemma links_wf_newCrawler d attrs : links_wf (newCrawler d attrs) = true.
Proof. apply links_wf_spec. intros k v. simpl. by rewrite lookup_empty. Qed.

Lemma crawl_rejected fuel w url c e :
  (normalizeURL c url).2 = false →
  crawl fuel w url c e = Some (set_visited c ∅, e).
Proof.
  unfold crawl.
  change (normalizeURL (set_visited c ∅) url) with (normalizeURL c url).
  destruct (normalizeURL c url) as [n []]; simpl; [done|]. by intros _.
Qed.

Lemma crawl_completed fuel w url c e c' e' :
  (normalizeURL c url).2 = true →
  crawl fuel w url c e = Some (c', e') →
  ∃ st,
    run_loop fuel w
      (mkLoopState [(normalizeURL c url).1] (set_visited c ∅) e) = Some st
    ∧ c' = set_links (cr st) (newLinks (visited (cr st)) (links (cr st)))
    ∧ e' = env st.
Proof.
  unfold crawl.
  change (normalizeURL (set_visited c ∅) url) with (normalizeURL c url).
  destruct (normalizeURL c url) as [n []]; simpl; [|done]. intros _.
  destruct (run_loop fuel w _) as [st|]; [|done].
  intros [= <- <-]. by exists st.
Qed.

Lemma crawl_inv fuel w url c e c' e' :
  (normalizeURL c url).2 = true →
  crawl fuel w url c e = Some (c', e') →
  ∃ st,
    cycle_inv w (links c) (domain c) (linkAttributes c) e st
    ∧ queue st = []
    ∧ c' = set_links (cr st) (newLinks (visited (cr st)) (links c))
    ∧ e' = env st.
Proof.
  intros Hok Hcrawl.
  destruct (crawl_completed _ _ _ _ _ _ _ Hok Hcrawl) as (st & Hrun & -> & ->).
  apply run_loop_inv
    with (links0 := links c) (domain0 := domain c)
         (attrs0 := linkAttributes c) (e0 := e) in Hrun as [Hinv Hq].
  - exists st. by rewrite (inv_links _ _ _ _ _ _ Hinv).
  - by apply cycle_inv_start.
Qed.

Lemma run_loop_more_fuel fuel k w st st' :
  run_loop fuel w st = Some st' → run_loop (fuel + k) w st = Some st'.
Proof.
  revert st. induction fuel as [|fuel IH]; intros st; simpl.
  - destruct (queue st) eqn:Hq; [|done]. intros [= <-].
    destruct k; simpl; by rewrite Hq.
  - destruct (queue st); [done|]. apply IH.
Qed.

(** The result of a cycle does not depend on the fuel that let it end. *)
Lemma crawl_more_fuel fuel k w url c e r :
  crawl fuel w url c e = Some r → crawl (fuel + k) w url c e = Some r.
Proof.
  unfold crawl. destruct (normalizeURL _ url) as [n []]; [|done].
  destruct (run_loop fuel w _) as [st|] eqn:Hrun; [|done].
  by rewrite (run_loop_more_fuel _ k _ _ _ Hrun).
Qed.

End CrawlResult.

Lemma isSome_inv {A} (o : option A) : url.isSome o = true → ∃ x, o = Some x.
Proof. destruct o as [x|]; [by exists x | done]. Qed.

(** ** Termination of a cycle on a bounded site *)
Section Termination.

Import Crawler.
Context {L : Libraries}.

Variable w : World.
Variable domain0 : string.
Variable attrs0 : list string.

(** Every page of the site carries at most [K] links, all of them among the
    URLs of [site]. *)
Variable site : gset string.
Variable K : nat.
Hypothesis site_bounded :
  ∀ c i u body,
    domain c = domain0 → linkAttributes c = attrs0 →
    http_Get w i u = GetResponse 200 (Some body) →
    (length (extractLinks c (html_tokens body)) ≤ K)%nat
    ∧ ∀ l, l ∈ extractLinks c (html_tokens body) → l ∈ site.

Local Abbreviation within_site := (within_site domain0 attrs0 site).
Local Abbreviation potential := (potential site K).

Lemma enqueue_length c q ls :
  (length (enqueue c q ls) ≤ length q + length ls)%nat.
Proof.
  unfold enqueue. revert q. induction ls as [|l ls IH]; intros q; simpl.
  - lia.
  - etrans; [apply IH|]. destruct (visited c !! l); rewrite ?length_app; simpl; lia.
Qed.

Lemma enqueue_elem c q ls u :
  u ∈ enqueue c q ls → u ∈ q ∨ u ∈ ls.
Proof.
  unfold enqueue. revert q. induction ls as [|l ls IH]; intros q; simpl.
  - by left.
  - intros [Hin|Hin]%IH; [|right; by right].
    destruct (visited c !! l); [by left|].
    apply elem_of_app in Hin as [?|Hl]; [by left|].
    apply list_elem_of_singleton in Hl as ->. right; by left.
Qed.

Lemma visited_size_bound st :
  within_site st → (size (visited (cr st)) ≤ size site)%nat.
Proof.
  intros (_ & _ & _ & Hsub). rewrite <- size_dom. by apply subseteq_size.
Qed.

Lemma within_site_iteration u q c e :
  within_site (mkLoopState (u :: q) c e) →
  within_site (iteration w u q c e)
  ∧ (potential (iteration w u q c e) < potential (mkLoopState (u :: q) c e))%nat.
Proof.
  intros Hin. pose proof (visited_size_bound _ Hin) as Hsize.
  destruct Hin as (Hd & Ha & Hq & Hv). simpl in *.
  assert (∀ e', within_site (mkLoopState q c e')
                ∧ (potential (mkLoopState q c e')
                   < potential (mkLoopState (u :: q) c e))%nat) as Hskip.
  { intros e'. split; [|unfold potential; simpl; lia].
    repeat split; simpl; try done. intros v Hvq. apply Hq. by right. }
  unfold iteration.
  destruct (visited c !! u) as [x|] eqn:Hu; [apply Hskip|].
  destruct (http_Get w (tick e) u) as [err|StatusCode body] eqn:Hget;
    [apply Hskip|].
  destruct (StatusCode =? 200) eqn:Hstatus; simpl; [|apply Hskip].
  destruct body as [bodyBytes|]; [|apply Hskip].
  apply Z.eqb_eq in Hstatus as ->.
  destruct (site_bounded c (tick e) u bodyBytes Hd Ha Hget) as [Hlen Hlinks].
  assert (u ∈ site) as Husite by (apply Hq; left).
  split.
  - repeat split; simpl; try done.
    + intros v [Hvq|Hvl]%enqueue_elem; [apply Hq; by right | by apply Hlinks].
    + intros v [y Hy]%elem_of_dom. rewrite lookup_insert in Hy.
      case_decide; [by subst|]. apply Hv, elem_of_dom. by exists y.
  - unfold potential. simpl.
    rewrite map_size_insert_None by done.
    pose proof (enqueue_length c q (extractLinks c (html_tokens bodyBytes))).
    assert (size (visited c) < size site)%nat.
    { rewrite <- size_dom.
      apply subset_size. split; [done|]. intros Hsub.
      specialize (Hsub u Husite). apply elem_of_dom in Hsub as [y Hy].
      congruence. }
    replace (size site - size (visited c))%nat
      with (S (size site - S (size (visited c))))%nat by lia.
    rewrite Nat.mul_succ_r.
    generalize (K * (size site - S (size (visited c))))%nat.
    lia.
Qed.

Lemma run_loop_terminates fuel st :
  within_site st → (potential st ≤ fuel)%nat →
  is_Some (run_loop fuel w st).
Proof.
  revert st. induction fuel as [|fuel IH]; intros [[|u q] c e] Hin Hfuel; simpl;
    try by eexists.
  - unfold potential in Hfuel. simpl in Hfuel.
    by apply Nat.nle_succ_0 in Hfuel.
  - unfold loop_step. simpl.
    destruct (within_site_iteration u q c e Hin) as [Hin' Hlt].
    apply IH; [done | lia].
Qed.

End Termination.

(** On a site whose pages carry at most [K] links, all within a finite set
    of URLs that holds the seed, a cycle comes to its end within
    [1 + K * size site] rounds. *)
Lemma crawl_terminates {L : Libraries} (w : World) (site : gset string)
    (K fuel : nat) (url : string) (c : Crawler.crawler) (e : Env) :
  (∀ c' i u body,
     Crawler.domain c' = Crawler.domain c →
     Crawler.linkAttributes c' = Crawler.linkAttributes c →
     http_Get w i u = GetResponse 200 (Some body) →
     (length (Crawler.extractLinks c' (html_tokens body)) ≤ K)%nat
     ∧ ∀ l, l ∈ Crawler.extractLinks c' (html_tokens body) → l ∈ site) →
  (Crawler.normalizeURL c url).1 ∈ site →
  (1 + K * size site ≤ fuel)%nat →
  is_Some (Crawler.crawl fuel w url c e).
Proof.
  intros Hsite Hseed Hfuel. unfold Crawler.crawl.
  change (Crawler.normalizeURL (Crawler.set_visited c ∅) url)
    with (Crawler.normalizeURL c url).
  destruct (Crawler.normalizeURL c url) as [n []]; [|by eexists].
  simpl in Hseed.
  destruct (run_loop_terminates w (Crawler.domain c) (Crawler.linkAttributes c)
              site K Hsite fuel
              (Crawler.mkLoopState [n] (Crawler.set_visited c ∅) e))
    as [st ->]; [| |by eexists].
  - split; [done|]. split; [done|]. split; simpl.
    + intros u Hu. by apply list_elem_of_singleton in Hu as ->.
    + intros v Hv. by apply elem_of_dom in Hv as [y Hy].
  - unfold potential. simpl. rewrite map_size_empty. lia.
Qed.

(** ** Claims about the crawl cycle *)
Section CycleClaims.
Import Crawler.

(** C2, as stated, fails: on [sampleSite] the cycle requests [/missing]
    twice.  A request that fails is not recorded in [visited], so the second
    copy of the link in the queue is requested again. *)
Lemma C2_failed_url_requested_twice :
  (λ r, (requests r.2).*1)
    <$> crawl (L := Sample.libraries) 10 sampleSite "/" exampleCrawler freshEnv
  = Some ["http://example.com"; "http://example.com/page1";
          "http://example.com/missing"; "http://example.com/missing"].
Proof. vm_compute. reflexivity. Qed.

(** C2 (amended). In every state that the loop of a cycle reaches, after any
    number [n] of rounds, and so in the state that [crawl] ends in: the
    requests of the cycle never repeat a URL after a request for it that
    succeeded, so no URL has more than one successful request; the URLs in
    [visited] are exactly those fetched with success in this cycle; and a
    round whose dequeued URL is in [visited] issues no request and changes
    nothing but the queue. *)
Theorem C2_no_request_after_success {L : Libraries} (w : World) (c : crawler)
    (e : Env) (seed : string) (n : nat) :
  let st :=
    Nat.iter n (loop_step w) (mkLoopState [seed] (set_visited c ∅) e) in
  (∃ cyc,
     requests (env st) = requests e ++ cyc
     ∧ fetched_once cyc
     ∧ (∀ u, (successes u cyc ≤ 1)%nat)
     ∧ (∀ u, is_Some (visited (cr st) !! u) ↔ fetched u cyc))
  ∧ (∀ u rest, queue st = u :: rest → is_Some (visited (cr st) !! u) →
       loop_step w st = mkLoopState rest (cr st) (env st))
  ∧ (∀ fuel url c' e',
       normalizeURL c url = (seed, true) →
       crawl fuel w url c e = Some (c', e') →
       ∃ cyc,
         requests e' = requests e ++ cyc
         ∧ fetched_once cyc
         ∧ (∀ u, (successes u cyc ≤ 1)%nat)
         ∧ (∀ u, is_Some (visited c' !! u) ↔ fetched u cyc)).
Proof.
  intros st. split; [|split].
  - assert (cycle_inv w (links c) (domain c) (linkAttributes c) e st) as Hinv.
    { apply cycle_inv_iter. by apply cycle_inv_start. }
    destruct (inv_requests _ _ _ _ _ _ Hinv) as (cyc & Hreq & Honce & Hvis).
    exists cyc. repeat split; try done.
    + intros u. by apply fetched_once_successes.
    + by apply Hvis.
    + by apply Hvis.
  - intros u rest Hq [x Hx]. unfold loop_step, iteration. by rewrite Hq, Hx.
  - intros fuel url c' e' Hseed Hcrawl.
    destruct (crawl_inv fuel w url c e c' e') as (st' & Hinv & _ & -> & ->);
      [by rewrite Hseed | done |].
    destruct (inv_requests _ _ _ _ _ _ Hinv) as (cyc & Hreq & Honce & Hvis).
    exists cyc. repeat split; try done.
    + intros u. by apply fetched_once_successes.
    + by apply Hvis.
    + by apply Hvis.
Qed.

Lemma C2_no_request_after_success_witness :
  let st :=
    Nat.iter 2 (loop_step (L := Sample.libraries) sampleSite)
      (mkLoopState ["http://example.com"] (set_visited exampleCrawler ∅)
         freshEnv) in
  (queue st
   = ["http://example.com/page1"; "http://example.com/missing";
      "http://example.com/missing"]
   ∧ is_Some (visited (cr st) !! "http://example.com/page1")
   ∧ normalizeURL exampleCrawler "/" = ("http://example.com", true))
  ∧ (∃ cyc,
       requests (env st) = requests freshEnv ++ cyc
       ∧ fetched_once cyc
       ∧ (∀ u, (successes u cyc ≤ 1)%nat)
       ∧ (∀ u, is_Some (visited (cr st) !! u) ↔ fetched u cyc))
  ∧ loop_step (L := Sample.libraries) sampleSite st
    = mkLoopState
        ["http://example.com/missing"; "http://example.com/missing"]
        (cr st) (env st)
  ∧ ∃ c' e' cyc,
      crawl (L := Sample.libraries) 10 sampleSite "/" exampleCrawler freshEnv
      = Some (c', e')
      ∧ requests e' = requests freshEnv ++ cyc
      ∧ fetched_once cyc
      ∧ (∀ u, (successes u cyc ≤ 1)%nat)
      ∧ (∀ u, is_Some (visited c' !! u) ↔ fetched u cyc).
Proof.
  intros st.
  assert (queue st
          = ["http://example.com/page1"; "http://example.com/missing";
             "http://example.com/missing"]) as Hqueue
    by (vm_compute; reflexivity).
  assert (is_Some (visited (cr st) !! "http://example.com/page1")) as Hvisited
    by (vm_compute; by eexists).
  assert (normalizeURL exampleCrawler "/" = ("http://example.com", true))
    as Hseed by (vm_compute; reflexivity).
  destruct (C2_no_request_after_success (L := Sample.libraries) sampleSite
              exampleCrawler freshEnv "http://example.com" 2)
    as (Hrequests & Hskip & Hcrawl).
  split; [by repeat split|]. split; [exact Hrequests|]. split.
  - exact (Hskip "http://example.com/page1" _ Hqueue Hvisited).
  - destruct (isSome_inv
                (crawl (L := Sample.libraries) 10 sampleSite "/"
                   exampleCrawler freshEnv))
      as [[c' e'] Hres]; [vm_compute; reflexivity|].
    destruct (Hcrawl 10%nat "/" c' e' Hseed Hres) as (cyc & Hcyc).
    exists c', e', cyc. split; [exact Hres | exact Hcyc].
Defined.

(** C3. After a cycle that was not aborted at the seed and whose loop came
    to its end, on a crawler whose durable map files every record under its
    own link: the durable map has exactly the keys of [visited]; the links
    of a snapshot are exactly these; they are exactly the URLs fetched with
    success in this cycle, so a URL of an earlier cycle that was not fetched
    now, or whose requests all failed, is gone; and the new durable map again
    files every record under its own link. *)
Theorem C3_links_are_the_visited {L : Libraries} (fuel : nat) (w : World)
    (url : string) (c c' : crawler) (e e' : Env) :
  links_wf c = true →
  (normalizeURL c url).2 = true →
  crawl fuel w url c e = Some (c', e') →
  dom (links c') = dom (visited c')
  ∧ (∀ u, u ∈ link <$> getLinks c' ↔ u ∈ dom (visited c'))
  ∧ (∃ cyc, requests e' = requests e ++ cyc
            ∧ ∀ u, u ∈ dom (links c') ↔ fetched u cyc)
  ∧ links_wf c' = true.
Proof.
  intros Hwf Hok Hcrawl.
  destruct (crawl_inv _ _ _ _ _ _ _ Hok Hcrawl) as (st & Hinv & _ & -> & ->).
  simpl.
  assert (Hwf' : ∀ k v,
             newLinks (visited (cr st)) (links c) !! k = Some v → link v = k).
  { intros k v. rewrite newLinks_lookup.
    destruct (visited (cr st) !! k) as [x|] eqn:Hx; [|done].
    simpl. intros [= <-].
    destruct (inv_visited _ _ _ _ _ _ Hinv k x Hx) as (i & body & _ & _ & ->).
    unfold reconciled. destruct (links c !! k) as [o|] eqn:Ho; [|done].
    simpl. destruct (String.eqb _ _); [|done].
    by apply (proj1 (links_wf_spec c) Hwf). }
  split; [apply newLinks_dom|]. split; [|split].
  - intros u. unfold getLinks. simpl.
    rewrite <- (newLinks_dom (visited (cr st)) (links c)), elem_of_dom.
    rewrite list_elem_of_fmap. split.
    + intros (v & -> & (kv & -> & Hin)%list_elem_of_fmap).
      destruct kv as [k v]. apply elem_of_map_to_list in Hin. simpl.
      rewrite (Hwf' _ _ Hin). by exists v.
    + intros [v Hv]. exists v. split; [by rewrite (Hwf' _ _ Hv)|].
      apply list_elem_of_fmap. exists (u, v). split; [done|].
      by apply elem_of_map_to_list.
  - destruct (inv_requests _ _ _ _ _ _ Hinv) as (cyc & Hreq & _ & Hvis).
    exists cyc. split; [done|]. intros u.
    by rewrite newLinks_dom, elem_of_dom, Hvis.
  - by apply links_wf_spec.
Qed.

Lemma C3_links_are_the_visited_witness :
  links_wf seasonedCrawler = true
  ∧ (normalizeURL seasonedCrawler "/").2 = true
  ∧ ∃ c' e',
      crawl (L := Sample.libraries) 10 sampleSite "/" seasonedCrawler freshEnv
      = Some (c', e')
      ∧ dom (links c') = dom (visited c')
      ∧ (∀ u, u ∈ link <$> getLinks c' ↔ u ∈ dom (visited c'))
      ∧ (∃ cyc, requests e' = requests freshEnv ++ cyc
                ∧ ∀ u, u ∈ dom (links c') ↔ fetched u cyc)
      ∧ links_wf c' = true.
Proof.
  assert (links_wf seasonedCrawler = true) as Hwf by (vm_compute; reflexivity).
  assert ((normalizeURL seasonedCrawler "/").2 = true) as Hseed
    by (vm_compute; reflexivity).
  split; [exact Hwf|]. split; [exact Hseed|].
  destruct (isSome_inv
              (crawl (L := Sample.libraries) 10 sampleSite "/" seasonedCrawler
                 freshEnv))
    as [[c' e'] Hcrawl]; [vm_compute; reflexivity|].
  exists c', e'. split; [exact Hcrawl|].
  exact (C3_links_are_the_visited (L := Sample.libraries) 10 sampleSite "/"
           seasonedCrawler c' freshEnv e' Hwf Hseed Hcrawl).
Defined.

(** C4. After a cycle that was not aborted and came to its end, every
    record [fresh] in [visited] was made from a page fetched in this cycle
    (its checksum is the digest of that body, its time the clock reading at
    that request), and the durable record of its URL is: the record of the
    previous cycle, untouched, when there was one with the same checksum;
    [fresh] otherwise.  The durable record of a URL depends on no other
    URL's records. *)
Theorem C4_change_detection {L : Libraries} (fuel : nat) (w : World)
    (url : string) (c c' : crawler) (e e' : Env) :
  (normalizeURL c url).2 = true →
  crawl fuel w url c e = Some (c', e') →
  (∀ u fresh, visited c' !! u = Some fresh →
     (∃ i body,
        requests e' !! i = Some (u, GetResponse 200 (Some body))
        ∧ (length (requests e) ≤ i)%nat
        ∧ fresh = mkCrawlerURL u (sha256_hex body) (time_Now w i))
     ∧ match links c !! u with
       | Some old =>
           if String.eqb (checksum fresh) (checksum old)
           then links c' !! u = Some old
           else links c' !! u = Some fresh
       | None => links c' !! u = Some fresh
       end)
  ∧ (∀ visited1 visited2 u,
       visited1 !! u = visited2 !! u →
       newLinks visited1 (links c) !! u = newLinks visited2 (links c) !! u).
Proof.
  intros Hok Hcrawl.
  destruct (crawl_inv _ _ _ _ _ _ _ Hok Hcrawl) as (st & Hinv & _ & -> & ->).
  simpl. split.
  - intros u fresh Hu. split; [by apply (inv_visited _ _ _ _ _ _ Hinv)|].
    rewrite newLinks_lookup, Hu. unfold reconciled. simpl.
    destruct (links c !! u) as [old|]; [|done].
    by destruct (String.eqb (checksum fresh) (checksum old)).
  - intros v1 v2 u Heq. by rewrite !newLinks_lookup, Heq.
Qed.

Lemma C4_change_detection_witness :
  (normalizeURL seasonedCrawler "/").2 = true
  ∧ ∃ c' e',
      crawl (L := Sample.libraries) 10 sampleSite "/" seasonedCrawler freshEnv
      = Some (c', e')
      ∧ (lastChanged <$> links c' !! "http://example.com" = Some 7)
      ∧ (lastChanged <$> links c' !! "http://example.com/page1" = Some 1001)
      ∧ (∀ u fresh, visited c' !! u = Some fresh →
           (∃ i body,
              requests e' !! i = Some (u, GetResponse 200 (Some body))
              ∧ (length (requests freshEnv) ≤ i)%nat
              ∧ fresh = mkCrawlerURL u
                          (sha256_hex (Libraries := Sample.libraries) body)
                          (time_Now sampleSite i))
           ∧ match links seasonedCrawler !! u with
             | Some old =>
                 if String.eqb (checksum fresh) (checksum old)
                 then links c' !! u = Some old
                 else links c' !! u = Some fresh
             | None => links c' !! u = Some fresh
             end).
Proof.
  assert ((normalizeURL seasonedCrawler "/").2 = true) as Hseed
    by (vm_compute; reflexivity).
  split; [exact Hseed|].
  pose (r := crawl (L := Sample.libraries) 10 sampleSite "/" seasonedCrawler
               freshEnv).
  assert (url.isSome r = true
          ∧ (r ≫= λ x, lastChanged <$> links x.1 !! "http://example.com")
            = Some 7
          ∧ (r ≫= λ x,
               lastChanged <$> links x.1 !! "http://example.com/page1")
            = Some 1001) as (Hsome & Hhome & Hpage).
  { vm_compute. auto. }
  destruct (isSome_inv r Hsome) as [[c' e'] Hcrawl].
  rewrite Hcrawl in Hhome, Hpage. simpl in Hhome, Hpage.
  exists c', e'. split; [exact Hcrawl|]. split; [exact Hhome|].
  split; [exact Hpage|].
  exact (proj1 (C4_change_detection (L := Sample.libraries) 10 sampleSite "/"
                  seasonedCrawler c' freshEnv e' Hseed Hcrawl)).
Defined.

(** C6, as stated, fails on the logging: with the seed [//other.example/]
    (accepted by [SetStartingURL], rejected by [normalizeURL]) the cycle
    returns with an empty log. *)
Lemma C6_rejected_seed_not_logged :
  (Options.SetStartingURL "//other.example/" Options.DefaultOptions).2 = None
  ∧ (normalizeURL exampleCrawler "//other.example/").2 = false
  ∧ (λ r, log r.2)
      <$> crawl (L := Sample.libraries) 10 sampleSite "//other.example/"
            exampleCrawler freshEnv
    = Some [].
Proof. vm_compute. auto. Qed.

(** C6 (amended). When [normalizeURL] rejects the seed, [crawl] returns at
    once, whatever the site: it issues no request and calls no logger (the
    environment is unchanged), it hands no error to the caller, it leaves
    the durable map and so the snapshot as they were, it leaves [visited]
    empty, and a later cycle runs from the state it leaves exactly as from
    the state before it. *)
Theorem C6_rejected_seed_cycle {L : Libraries} (fuel : nat) (w : World)
    (url : string) (c : crawler) (e : Env) :
  (normalizeURL c url).2 = false →
  crawl fuel w url c e = Some (set_visited c ∅, e)
  ∧ links (set_visited c ∅) = links c
  ∧ getLinks (set_visited c ∅) = getLinks c
  ∧ visited (set_visited c ∅) = ∅
  ∧ (∀ fuel' w' url' e',
       crawl fuel' w' url' (set_visited c ∅) e' = crawl fuel' w' url' c e').
Proof.
  intros Hbad. split; [by apply crawl_rejected|]. by repeat split.
Qed.

Lemma C6_rejected_seed_cycle_witness :
  (normalizeURL seasonedCrawler "//other.example/").2 = false
  ∧ crawl (L := Sample.libraries) 0 sampleSite "//other.example/"
      seasonedCrawler freshEnv
    = Some (set_visited seasonedCrawler ∅, freshEnv)
  ∧ links (set_visited seasonedCrawler ∅) = links seasonedCrawler
  ∧ getLinks (set_visited seasonedCrawler ∅) = getLinks seasonedCrawler
  ∧ visited (set_visited seasonedCrawler ∅) = ∅
  ∧ (∀ fuel' w' url' e',
       crawl (L := Sample.libraries) fuel' w' url'
         (set_visited seasonedCrawler ∅) e'
       = crawl (L := Sample.libraries) fuel' w' url' seasonedCrawler e').
Proof.
  assert ((normalizeURL seasonedCrawler "//other.example/").2 = false)
    as Hrejected by (vm_compute; reflexivity).
  split; [exact Hrejected|].
  exact (C6_rejected_seed_cycle (L := Sample.libraries) 0 sampleSite
           "//other.example/" seasonedCrawler freshEnv Hrejected).
Defined.

End CycleClaims.

(** ** The link extractor *)

Section Extractor.

Import Crawler.

Lemma scanAttrs_spec c wanted (P : Attribute → Prop)
    `{∀ attr, Decision (P attr)} attrs acc :
  (∀ attr, wanted (Key attr) = true ↔ P attr) →
  scanAttrs c wanted attrs acc
  = acc ++ omap (accepted c) (Val <$> filter P attrs).
Proof.
  intros Hw. revert acc.
  induction attrs as [|attr attrs IH]; intros acc; simpl.
  - by rewrite app_nil_r.
  - rewrite IH, filter_cons. destruct (wanted (Key attr)) eqn:Hk.
    + apply Hw in Hk. rewrite decide_True by done. simpl.
      unfold accepted at 2.
      destruct (normalizeURL c (Val attr)) as [n []]; [|done].
      by rewrite <- app_assoc.
    + rewrite decide_False; [done|]. intros HP%Hw. congruence.
Qed.

Lemma slices_Contains_spec l x : slices_Contains l x = true ↔ x ∈ l.
Proof.
  unfold slices_Contains. rewrite existsb_exists. split.
  - intros (y & Hin%list_elem_of_In & ->%eqb_true). done.
  - intros Hin. exists x. split; [by apply list_elem_of_In|].
    by apply eqb_true.
Qed.

Lemma extractLoop_spec c stream acc :
  extractLoop c stream acc
  = acc ++ omap (accepted c)
             (concat (collected (linkAttributes c) <$> beforeError stream)).
Proof.
  revert acc.
  induction stream as [|[ty data attrs] stream IH]; intros acc; simpl.
  - by rewrite app_nil_r.
  - unfold collected.
    destruct ty; simpl; rewrite ?app_nil_r; try done.
    all: destruct (String.eqb data "a"); rewrite IH, omap_app, app_assoc;
      f_equal.
    all: apply scanAttrs_spec; intros attr;
      first [apply eqb_true | apply slices_Contains_spec].
Qed.

End Extractor.

(** C7. [extractLinks] returns, in document order, the normalized form of
    every collected raw value that the normalizer accepts, and nothing else,
    where the values collected are: from an anchor tag the values of its
    [href] attributes only, from any other start or self-closing tag the
    values of the attributes whose name is configured; the tokens behind the
    first error of the tokenizer are not read. *)
Theorem C7_extractLinks_collects (c : Crawler.crawler) (stream : list Token) :
  Crawler.extractLinks c stream
  = omap (accepted c)
      (concat (collected (Crawler.linkAttributes c) <$> beforeError stream)).
Proof. unfold Crawler.extractLinks. by rewrite extractLoop_spec. Qed.

(** ** The options *)

(** C8. Each setter refuses the invalid input with an error and leaves the
    options as they were: [SetDomain] a malformed domain, the two duration
    setters a negative duration, [SetLinkAttributes] an empty list. *)
Theorem C8_invalid_input_rejected (options : Options.SiteMapperOptions)
    (d : string) (t : Z) :
  (malformedDomain d = true →
   (Options.SetDomain d options).1 = options
   ∧ is_Some (Options.SetDomain d options).2)
  ∧ (t < 0 →
     (Options.SetDurationBeforeFirstCrawl t options).1 = options
     ∧ is_Some (Options.SetDurationBeforeFirstCrawl t options).2
     ∧ (Options.SetCrawlInterval t options).1 = options
     ∧ is_Some (Options.SetCrawlInterval t options).2)
  ∧ (Options.SetLinkAttributes [] options).1 = options
  ∧ is_Some (Options.SetLinkAttributes [] options).2.
Proof.
  split; [|split; [|split]].
  - unfold malformedDomain, Options.SetDomain.
    destruct (url.Parse d) as [p|]; [|by intros _].
    rewrite !orb_true_iff, !negb_true_iff, !bool_decide_eq_false,
      bool_decide_eq_true.
    intros [[Hs|Hp]|Hh].
    + assert (String.eqb (url.Scheme p) "http" = false
              ∧ String.eqb (url.Scheme p) "https" = false) as [-> ->].
      { split; apply eqb_false; intros Heq; apply Hs; rewrite Heq;
          repeat constructor. }
      by simpl.
    + assert (String.eqb (url.Path p) "" = false
              ∧ String.eqb (url.Path p) "/" = false) as [-> ->].
      { split; apply eqb_false; intros Heq; apply Hp; rewrite Heq;
          repeat constructor. }
      simpl. by destruct (_ && _).
    + apply eqb_true in Hh. rewrite Hh.
      by repeat (destruct (_ && _); simpl; [done|]).
  - intros Ht. unfold Options.SetDurationBeforeFirstCrawl,
      Options.SetCrawlInterval.
    apply Z.ltb_lt in Ht. rewrite Ht. by simpl.
  - done.
  - done.
Qed.

Lemma C8_invalid_input_rejected_witness :
  (malformedDomain "ftp://invalid-scheme.com" = true
   ∧ -5 * Options.Second < 0)
  ∧ ((Options.SetDomain "ftp://invalid-scheme.com" Options.DefaultOptions).1
     = Options.DefaultOptions
     ∧ is_Some
         (Options.SetDomain "ftp://invalid-scheme.com"
            Options.DefaultOptions).2)
  ∧ ((Options.SetDurationBeforeFirstCrawl (-5 * Options.Second)
        Options.DefaultOptions).1 = Options.DefaultOptions
     ∧ is_Some (Options.SetDurationBeforeFirstCrawl (-5 * Options.Second)
                  Options.DefaultOptions).2
     ∧ (Options.SetCrawlInterval (-5 * Options.Second)
          Options.DefaultOptions).1 = Options.DefaultOptions
     ∧ is_Some (Options.SetCrawlInterval (-5 * Options.Second)
                  Options.DefaultOptions).2)
  ∧ (Options.SetLinkAttributes [] Options.DefaultOptions).1
    = Options.DefaultOptions
  ∧ is_Some (Options.SetLinkAttributes [] Options.DefaultOptions).2.
Proof.
  assert (malformedDomain "ftp://invalid-scheme.com" = true) as Hdomain
    by (vm_compute; reflexivity).
  assert (-5 * Options.Second < 0) as Hnegative by (vm_compute; reflexivity).
  destruct (C8_invalid_input_rejected Options.DefaultOptions
              "ftp://invalid-scheme.com" (-5 * Options.Second))
    as (Hrejected & Hduration & Hattrs).
  split; [by split|]. split; [exact (Hrejected Hdomain)|].
  split; [exact (Hduration Hnegative) | exact Hattrs].
Defined.

(** The rows of the table of [TestSetDomain]. *)
Example SetDomain_test_table :
  (λ d, (Options.SetDomain d Options.DefaultOptions).2)
    <$> ["http://example.com"; "https://valid-domain.org";
         "http://localhost:8080"; "ftp://invalid-scheme.com";
         "http://example.com/home"; "/home"; "http://:8080"; "invalid-url"; ""]
  = [None; None; None;
     Some "invalid domain: scheme must be 'http' or 'https'";
     Some "invalid domain: must not include a relative path";
     Some "invalid domain: scheme must be 'http' or 'https'";
     Some "invalid domain: must include a host";
     Some "invalid domain: scheme must be 'http' or 'https'";
     Some "invalid domain: scheme must be 'http' or 'https'"].
Proof. vm_compute. reflexivity. Qed.

(** The rows of the tables of [TestNormalizeURL] and [TestSetStartingURL]. *)
Example normalizeURL_test_table :
  Crawler.normalizeURL (Crawler.newCrawler "http://example.com" [])
    <$> ["http://example.com/page"; "/page"; "javascript:void(0)";
         "http://otherdomain.com"; "http://example.com/page#fragment"; ""]
  = [("http://example.com/page", true); ("http://example.com/page", true);
     ("", false); ("", false); ("http://example.com/page", true); ("", false)].
Proof. vm_compute. reflexivity. Qed.

Example SetStartingURL_test_table :
  (λ p, url.isSome (Options.SetStartingURL p Options.DefaultOptions).2)
    <$> ["/"; "/path/to/start"; "/path/to/start/"; "path/to/start";
         "invalid path"; "http://example.com"; ""]
  = [false; false; false; true; true; true; true].
Proof. vm_compute. reflexivity. Qed.

(** ** The scheduler *)

Section Scheduler.

Import Mapper.
Context {L : Libraries}.

Lemma call_crawl_events fuel w options p p' :
  call_crawl fuel w options p = Some p' →
  events p' = events p ++ [Crawled (Options.startingURL options)].
Proof.
  unfold call_crawl.
  destruct (Crawler.crawl _ _ _ _ _) as [[c e]|]; [|done]. by intros [= <-].
Qed.

Lemma serve_events fuel w options signals p p' :
  serve fuel w options signals p = Some p' →
  kind <$> events p'
  = (kind <$> events p) ++ (signals ≫= λ _, [KCrawled; KCallback]).
Proof.
  revert p. induction signals as [|s signals IH]; intros p; simpl.
  - intros [= <-]. by rewrite app_nil_r.
  - assert (∀ q, call_crawl fuel w options p = Some q →
              serve fuel w options signals (call_callbackFunc q) = Some p' →
              kind <$> events p'
              = (kind <$> events p)
                ++ [KCrawled; KCallback]
                ++ (signals ≫= λ _, [KCrawled; KCallback])) as Hround.
    { intros q Hq Hserve. rewrite (IH _ Hserve). simpl.
      rewrite (call_crawl_events _ _ _ _ _ Hq), !fmap_app, <- !app_assoc.
      done. }
    destruct s; destruct (call_crawl fuel w options p) as [q|] eqn:Hq;
      try done; intros Hserve; by apply (Hround q).
Qed.

(** The run of the goroutine: one crawl at startup, then a crawl followed by
    the callback for every signal served. *)
Lemma NewSiteMapper_events fuel w options signals p :
  0 < Options.crawlInterval options →
  NewSiteMapper fuel w options signals = Some p →
  kind <$> events p
  = (if 0 <? Options.durationBeforeFirstCrawl options then [KSlept] else [])
    ++ [KCrawled] ++ (signals ≫= λ _, [KCrawled; KCallback]).
Proof.
  intros Hinterval. unfold NewSiteMapper.
  destruct (call_crawl fuel w options _) as [q|] eqn:Hq; [|done].
  destruct (Options.crawlInterval options <=? 0) eqn:Hle; [lia|].
  intros Hserve. rewrite (serve_events _ _ _ _ _ _ Hserve).
  rewrite (call_crawl_events _ _ _ _ _ Hq), fmap_app, <- app_assoc.
  by destruct (0 <? Options.durationBeforeFirstCrawl options).
Qed.

End Scheduler.

(** C5 (a defect of the code). The claim: the callback is invoked after
    every cycle, the one of the startup path included.  [NewSiteMapper]
    started on [sampleSite] with no signal arriving crawls once and calls no
    callback; with a manual trigger and a tick arriving it crawls three
    times and calls the callback twice: the crawl of the startup path is the
    one that no callback follows. *)
Theorem C5_startup_crawl_without_callback :
  (λ p, kind <$> Mapper.events p)
    <$> Mapper.NewSiteMapper (L := Sample.libraries) 10 sampleSite
          sampleOptions []
  = Some [KCrawled]
  ∧ (λ p, kind <$> Mapper.events p)
      <$> Mapper.NewSiteMapper (L := Sample.libraries) 10 sampleSite
            sampleOptions [Mapper.RecrawlSignal; Mapper.TickerFired]
    = Some [KCrawled; KCrawled; KCallback; KCrawled; KCallback].
Proof. vm_compute. auto. Qed.

(** ** The sitemap *)

(** C10. When the library compiles the empty pattern to an expression that
    matches every string, [GenerateSitemap] with the empty pattern returns
    no error and the header followed by a [urlset] element with its three
    attributes and no [url] child, whatever the discovered links: the loop
    over the links keeps none. *)
Theorem C10_empty_pattern_excludes_all {L : Libraries} (m : Mapper.SiteMapper)
    (now : Time) (baseDomain : string) (filter : Regexp) :
  regexp_Compile "" = Some filter →
  (∀ s, MatchString filter s = true) →
  Mapper.sitemapURLs m baseDomain filter (Crawler.getLinks (Mapper.spider m)) []
  = []
  ∧ Mapper.GenerateSitemap m now baseDomain ""
    = (Mapper.xmlHeader
       +:+ "<urlset xmlns="
       +:+ Mapper.quoted
             (xml_EscapeText "http://www.sitemaps.org/schemas/sitemap/0.9")
       +:+ " xmlns:xsi="
       +:+ Mapper.quoted
             (xml_EscapeText "http://www.w3.org/2001/XMLSchema-instance")
       +:+ " xsi:schemaLocation="
       +:+ Mapper.quoted
             (xml_EscapeText
                "http://www.sitemaps.org/schemas/sitemap/0.9 http://www.sitemaps.org/schemas/sitemap/0.9/sitemap.xsd")
       +:+ ">" +:+ "" +:+ "</urlset>",
       None).
Proof.
  intros Hcompile Hmatch.
  assert (∀ links, Mapper.sitemapURLs m baseDomain filter links [] = [])
    as Hnone.
  { induction links as [|link links IH]; simpl; [done|]. by rewrite Hmatch. }
  split; [apply Hnone|].
  unfold Mapper.GenerateSitemap. rewrite Hcompile, Hnone. reflexivity.
Qed.

Lemma C10_empty_pattern_excludes_all_witness :
  (regexp_Compile (Libraries := Sample.libraries) "" = Some ""
   ∧ ∀ s, MatchString (Libraries := Sample.libraries) "" s = true)
  ∧ length (Crawler.getLinks (Mapper.spider seasonedMapper)) = 2%nat
  ∧ Mapper.sitemapURLs (L := Sample.libraries) seasonedMapper
      "https://www.example.com" ""
      (Crawler.getLinks (Mapper.spider seasonedMapper)) []
    = []
  ∧ (Mapper.GenerateSitemap (L := Sample.libraries) seasonedMapper 0
       "https://www.example.com" "").2 = None.
Proof.
  assert (regexp_Compile (Libraries := Sample.libraries) "" = Some "")
    as Hcompile by reflexivity.
  assert (∀ s, MatchString (Libraries := Sample.libraries) "" s = true)
    as Hmatch by (intros s; by destruct s).
  destruct (C10_empty_pattern_excludes_all (L := Sample.libraries)
              seasonedMapper 0 "https://www.example.com" "" Hcompile Hmatch)
    as [Hurls Hdoc].
  split; [by split|]. split; [vm_compute; reflexivity|].
  split; [exact Hurls|]. by rewrite Hdoc.
Defined.

(** * Further properties of the code *)

(** ** Strings: prefixes and last bytes *)
Section MoreStrings.

Implicit Types s t p : string.

Lemma HasPrefix_app p s : gostrings.HasPrefix (p +:+ s) p = true.
Proof.
  unfold gostrings.HasPrefix. induction p as [|c p IH]; simpl.
  - by destruct s.
  - destruct (ascii_dec c c); [done | congruence].
Qed.

Lemma string_drop_app p s : gostrings.drop (String.length p) (p +:+ s) = s.
Proof. induction p as [|c p IH]; [by destruct s | exact IH]. Qed.

Lemma HasPrefix_split s p :
  gostrings.HasPrefix s p = true →
  s = p +:+ gostrings.drop (String.length p) s.
Proof.
  unfold gostrings.HasPrefix. revert s.
  induction p as [|c p IH]; intros s; simpl; [by destruct s|].
  destruct s as [|x s]; simpl; [done|].
  destruct (ascii_dec c x) as [->|]; [|done].
  intros H. rewrite app_cons. f_equal. by apply IH.
Qed.

Lemma app_inv_head' p s t : p +:+ s = p +:+ t → s = t.
Proof.
  induction p as [|c p IH]; simpl; [done|]. intros [= H]. by apply IH.
Qed.

Lemma append_snoc_ne s c : s ≠ s +:+ String c "".
Proof.
  induction s as [|x s IH]; simpl; [done|]. intros [= H]. by apply IH.
Qed.

Lemma lastByte_snoc s c : gostrings.lastByte (s +:+ String c "") = Some c.
Proof.
  induction s as [|x s IH]; simpl; [done|].
  destruct (s +:+ String c "") eqn:E; [|done]. by destruct s.
Qed.

Lemma HasSuffixByte_snoc s c :
  gostrings.HasSuffixByte (s +:+ String c "") c = true.
Proof.
  unfold gostrings.HasSuffixByte. rewrite lastByte_snoc. apply Ascii.eqb_refl.
Qed.

Lemma snoc_slash_not_star s : String.eqb (s +:+ "/") "*" = false.
Proof.
  apply eqb_false. intros H. destruct s as [|c s]; simpl in H; [done|].
  injection H as _ H. by destruct s.
Qed.

Lemma char_in_app x s t :
  char_in x (s +:+ t) = char_in x s || char_in x t.
Proof.
  induction s as [|c s IH]; [done|].
  rewrite app_cons. simpl. by rewrite IH, orb_assoc.
Qed.

Lemma Cut_prefix pre s sep :
  char_in sep pre = false →
  gostrings.Cut (pre +:+ s) sep
  = let '(b, a, found) := gostrings.Cut s sep in (pre +:+ b, a, found).
Proof.
  induction pre as [|c pre IH]; simpl.
  - intros _. change ("" +:+ s) with s.
    by destruct (gostrings.Cut s sep) as [[b a] f].
  - intros [Hc Hpre]%orb_false_iff. rewrite Ascii.eqb_sym in Hc.
    rewrite Hc, (IH Hpre). by destruct (gostrings.Cut s sep) as [[b a] f].
Qed.

Lemma letters_cons c s :
  letters (String c s) ↔ isLetter c = true ∧ letters s.
Proof.
  unfold letters. simpl. split.
  - intros H. split; [apply H; by rewrite Ascii.eqb_refl|].
    intros x Hx. apply H. by rewrite Hx, orb_true_r.
  - intros [Hc Hs] x [Hx|Hx]%orb_true_iff; [|by apply Hs].
    by apply Ascii.eqb_eq in Hx as ->.
Qed.

Lemma lowerByte_letter c :
  isLetter (gostrings.lowerByte c) = true → isLetter c = true.
Proof. destruct c as [[] [] [] [] [] [] [] []]; vm_compute; done. Qed.

Lemma ToLower_letters s : letters (gostrings.ToLower s) → letters s.
Proof.
  induction s as [|c s IH]; simpl; [done|].
  rewrite !letters_cons. intros [Hc Hs]. split; [|by apply IH].
  by apply lowerByte_letter.
Qed.

Lemma letters_no_hash s : letters s → char_in "#" s = false.
Proof.
  intros H. destruct (char_in "#" s) eqn:E; [|done]. by apply H in E.
Qed.

End MoreStrings.

(** ** The URL library: the path and the scheme of a parsed URL *)
Section ParseFacts.

Lemma escape_app s t mode :
  url.escape (s +:+ t) mode = url.escape s mode +:+ url.escape t mode.
Proof.
  induction s as [|c s IH]; simpl; [done|].
  destruct (url.shouldEscape c mode); [|by rewrite IH].
  destruct (_ && _); simpl; by rewrite IH.
Qed.

Lemma setPath_RawPath u p u' :
  url.setPath u p = Some u' →
  url.RawPath u' = ""
  ∨ url.unescape (url.RawPath u') url.encodePath = Some (url.Path u').
Proof.
  unfold url.setPath.
  destruct (url.unescape p url.encodePath) as [path|] eqn:Hp; [|done].
  intros [= <-]. simpl.
  destruct (String.eqb p (url.escape path url.encodePath));
    [by left | by right].
Qed.

Lemma setPath_Scheme u p u' :
  url.setPath u p = Some u' → url.Scheme u' = url.Scheme u.
Proof.
  unfold url.setPath.
  destruct (url.unescape p url.encodePath) as [path|]; [|done].
  by intros [= <-].
Qed.

Lemma parse_RawPath raw u :
  url.parse raw = Some u →
  url.RawPath u = ""
  ∨ url.unescape (url.RawPath u) url.encodePath = Some (url.Path u).
Proof.
  unfold url.parse. intros H.
  repeat case_match; simplify_eq; try (by left);
    by eapply setPath_RawPath.
Qed.

(** The raw path of a parsed URL, when there is one, stands for its path. *)
Lemma Parse_RawPath raw u :
  url.Parse raw = Some u →
  url.RawPath u = ""
  ∨ url.unescape (url.RawPath u) url.encodePath = Some (url.Path u).
Proof.
  unfold url.Parse.
  destruct (gostrings.Cut raw "#") as [[b a] f].
  destruct (url.parse b) as [p|] eqn:Hp; [|done].
  apply parse_RawPath in Hp.
  destruct (String.eqb a ""); [by intros [= <-]|].
  unfold url.setFragment.
  destruct (url.unescape a url.encodeFragment); [|done].
  by intros [= <-].
Qed.

Lemma EscapedPath_slash u :
  url.RawPath u = ""
  ∨ url.unescape (url.RawPath u) url.encodePath = Some (url.Path u) →
  url.EscapedPath (url.with_Path u (url.Path u +:+ "/") (url.RawPath u))
  = url.escape (url.Path u) url.encodePath +:+ "/".
Proof.
  intros Hraw. unfold url.EscapedPath. simpl.
  rewrite snoc_slash_not_star, escape_app.
  destruct Hraw as [->| ->]; simpl.
  - done.
  - rewrite (proj2 (eqb_false _ _) (append_snoc_ne (url.Path u) "/")).
    by rewrite !andb_false_r.
Qed.

Lemma scanScheme_letter atStart c r :
  isLetter c = true →
  url.scanScheme atStart (String c r)
  = match url.scanScheme false r with
    | url.SchemeAt p q => url.SchemeAt (String c p) q
    | other => other
    end.
Proof. intros Hc. simpl. by rewrite Hc. Qed.

Lemma scanScheme_letters atStart c scheme rest :
  isLetter c = true → letters scheme →
  url.scanScheme atStart (String c scheme +:+ String ":" rest)
  = url.SchemeAt (String c scheme) rest.
Proof.
  revert atStart c. induction scheme as [|x scheme IH];
    intros atStart c Hc Hletters; rewrite app_cons, scanScheme_letter by done.
  - reflexivity.
  - apply letters_cons in Hletters as [Hx Hletters].
    by rewrite (IH false x Hx Hletters).
Qed.

Lemma parse_Scheme c scheme rest u :
  isLetter c = true → letters scheme →
  url.parse (String c scheme +:+ String ":" rest) = Some u →
  url.Scheme u = gostrings.ToLower (String c scheme).
Proof.
  intros Hc Hletters. unfold url.parse, url.getScheme.
  rewrite (scanScheme_letters true c scheme rest Hc Hletters).
  intros H.
  repeat case_match; simplify_eq; try done;
    try match goal with H : url.setPath _ _ = Some _ |- _ =>
      by apply setPath_Scheme in H end.
  match goal with H : String.eqb _ "*" = true |- _ =>
    apply eqb_true in H; rewrite app_cons in H; injection H as -> _ end.
  done.
Qed.

(** The scheme of a URL parsed from letters followed by a colon is these
    letters in lower case. *)
Lemma Parse_Scheme c scheme rest u :
  isLetter c = true → letters scheme →
  url.Parse (String c scheme +:+ String ":" rest) = Some u →
  url.Scheme u = gostrings.ToLower (String c scheme).
Proof.
  intros Hc Hletters. unfold url.Parse.
  replace (String c scheme +:+ String ":" rest)
    with ((String c scheme +:+ ":") +:+ rest) by (by rewrite app_assoc').
  rewrite Cut_prefix.
  2:{ rewrite char_in_app, (letters_no_hash (String c scheme)); [done|].
      by apply letters_cons. }
  destruct (gostrings.Cut rest "#") as [[b a] f].
  rewrite app_assoc'.
  destruct (url.parse _) as [p|] eqn:Hp; [|done].
  apply parse_Scheme in Hp; [|done..].
  destruct (String.eqb a ""); [by intros [= <-]|].
  unfold url.setFragment.
  destruct (url.unescape a url.encodeFragment); [|done].
  by intros [= <-].
Qed.

End ParseFacts.

(** ** normalizeURL and ensureTrailingSlash *)

(** X1. A reference whose scheme is javascript, in whatever letter case, is
    rejected by the normalizer, whatever follows the colon. *)
Theorem X1_normalizeURL_rejects_javascript (c : Crawler.crawler)
    (scheme rest : string) :
  gostrings.ToLower scheme = "javascript" →
  Crawler.normalizeURL c (scheme +:+ ":" +:+ rest) = ("", false).
Proof.
  intros Hlower.
  assert (letters scheme) as Hletters.
  { apply ToLower_letters. rewrite Hlower.
    repeat (apply letters_cons; split; [reflexivity|]). by intros x. }
  destruct scheme as [|x scheme]; [done|].
  apply letters_cons in Hletters as [Hx Hletters].
  unfold Crawler.normalizeURL.
  destruct (gostrings.TrimSpace_isEmpty _); [done|].
  destruct (url.Parse _) as [u|] eqn:Hparse; [|done].
  apply (Parse_Scheme x scheme rest u Hx Hletters) in Hparse.
  by rewrite Hparse, Hlower.
Qed.

Lemma X1_normalizeURL_rejects_javascript_witness :
  gostrings.ToLower "JavaScript" = "javascript"
  ∧ Crawler.normalizeURL exampleCrawler ("JavaScript" +:+ ":" +:+ "void(0)")
    = ("", false).
Proof.
  assert (gostrings.ToLower "JavaScript" = "javascript") as Hlower
    by (vm_compute; reflexivity).
  split; [exact Hlower|].
  exact (X1_normalizeURL_rejects_javascript exampleCrawler "JavaScript"
           "void(0)" Hlower).
Defined.

(** The rows of the table of [TestEnsureTrailingSlash]. *)
Example ensureTrailingSlash_test_table :
  Crawler.ensureTrailingSlash
    <$> ["http://example.com"; "http://example.com/page";
         "http://example.com/page/"; "http://example.com/image.jpg";
         "http://example.com/folder"]
  = ["http://example.com/"; "http://example.com/page/";
     "http://example.com/page/"; "http://example.com/image.jpg";
     "http://example.com/folder/"].
Proof. vm_compute. reflexivity. Qed.

(** X2. [ensureTrailingSlash] on a URL that parses, has no opaque part and
    whose path holds no dot and does not end in a slash: the result is the
    URL printed with a slash behind its escaped path, in front of the query
    and the fragment; it ends in a slash when there is neither. *)
Theorem X2_ensureTrailingSlash_appends (urlStr : string) (u : url.URL) :
  url.Parse urlStr = Some u →
  url.Opaque u = "" →
  gostrings.Contains (url.Path u) "." = false →
  gostrings.HasSuffixByte (url.Path u) "/" = false →
  (∃ pre,
     Crawler.ensureTrailingSlash urlStr
     = pre +:+ url.escape (url.Path u) url.encodePath +:+ "/"
       +:+ (if url.ForceQuery u || negb (String.eqb (url.RawQuery u) "")
            then "?" +:+ url.RawQuery u else "")
       +:+ (if String.eqb (url.Fragment u) "" then ""
            else "#" +:+ url.EscapedFragment u))
  ∧ (url.ForceQuery u = false → url.RawQuery u = "" → url.Fragment u = "" →
     gostrings.HasSuffixByte (Crawler.ensureTrailingSlash urlStr) "/" = true).
Proof.
  intros Hparse Hopaque Hdot Hslash.
  pose proof (EscapedPath_slash u (Parse_RawPath _ _ Hparse)) as Hpath.
  assert (∃ pre,
            Crawler.ensureTrailingSlash urlStr
            = (pre +:+ (url.escape (url.Path u) url.encodePath +:+ "/"))
              +:+ (if url.ForceQuery u
                      || negb (String.eqb (url.RawQuery u) "")
                   then "?" +:+ url.RawQuery u else "")
              +:+ (if String.eqb (url.Fragment u) "" then ""
                   else "#" +:+ url.EscapedFragment u)) as [pre Hpre].
  { unfold Crawler.ensureTrailingSlash.
    rewrite Hparse, Hdot, Hslash, orb_true_r.
    simpl. unfold url.String. rewrite Hpath. simpl. rewrite Hopaque. simpl.
    eexists. reflexivity. }
  split.
  - exists pre. by rewrite Hpre, !app_assoc'.
  - intros Hforce Hquery Hfragment.
    rewrite Hpre, Hforce, Hquery, Hfragment. simpl. rewrite !app_empty_r.
    rewrite <- app_assoc'. apply HasSuffixByte_snoc.
Qed.

Lemma X2_ensureTrailingSlash_appends_witness :
  ∃ u, url.Parse "http://example.com/page" = Some u
       ∧ url.Opaque u = ""
       ∧ gostrings.Contains (url.Path u) "." = false
       ∧ gostrings.HasSuffixByte (url.Path u) "/" = false
       ∧ url.ForceQuery u = false ∧ url.RawQuery u = ""
       ∧ url.Fragment u = ""
       ∧ gostrings.HasSuffixByte
           (Crawler.ensureTrailingSlash "http://example.com/page") "/"
         = true.
Proof.
  exists (url.mkURL "http" "" None "example.com" "/page" "" false false
            "" "" "").
  assert (url.Parse "http://example.com/page"
          = Some (url.mkURL "http" "" None "example.com" "/page" "" false
                    false "" "" "")) as Hu by (vm_compute; reflexivity).
  split; [exact Hu|]. repeat (split; [reflexivity|]).
  exact (proj2 (X2_ensureTrailingSlash_appends "http://example.com/page" _ Hu
                  eq_refl eq_refl eq_refl) eq_refl eq_refl eq_refl).
Defined.

(** ** The loop of crawl, continued *)
Section CrawlLoop.

Import Crawler.
Context {L : Libraries}.

(** What every round of the loop keeps holds when the loop has ended. *)
Lemma run_loop_ind (P : LoopState → Prop) w :
  (∀ u q c e, P (mkLoopState (u :: q) c e) → P (iteration w u q c e)) →
  ∀ fuel st st', P st → run_loop fuel w st = Some st' → P st'.
Proof.
  intros Hstep. induction fuel as [|fuel IH]; intros [[|u q] c e] st' Hst;
    simpl; try done; try by intros [= <-].
  apply IH. by apply Hstep.
Qed.

Lemma normalizeURL_domain c c' href :
  domain c = domain c' → normalizeURL c href = normalizeURL c' href.
Proof. unfold normalizeURL. by intros ->. Qed.

Lemma scanAttrs_config c c' wanted attrs acc :
  domain c = domain c' →
  scanAttrs c wanted attrs acc = scanAttrs c' wanted attrs acc.
Proof.
  intros Hd. revert acc. induction attrs as [|attr attrs IH]; intros acc;
    simpl; [done|].
  by rewrite (normalizeURL_domain c c' _ Hd), IH.
Qed.

(** The links found depend on the crawler through its configuration only. *)
Lemma extractLinks_config c c' stream :
  domain c = domain c' → linkAttributes c = linkAttributes c' →
  extractLinks c stream = extractLinks c' stream.
Proof.
  intros Hd Ha. unfold extractLinks. generalize (@nil string).
  induction stream as [|token stream IH]; intros acc; simpl; [done|].
  destruct (Type_ token); try done; rewrite Ha;
    destruct (String.eqb (Data token) "a");
    by rewrite (scanAttrs_config c c' _ _ _ Hd), IH.
Qed.

Lemma extractLinks_normalized c stream l :
  l ∈ extractLinks c stream → normalized c l.
Proof.
  unfold extractLinks. rewrite extractLoop_spec. simpl.
  intros (raw & _ & Hacc)%list_elem_of_omap. exists raw.
  unfold accepted in Hacc.
  destruct (normalizeURL c raw) as [n []]; [|done]. by injection Hacc as ->.
Qed.

Lemma normalized_in_domain c u :
  normalized c u →
  gostrings.HasPrefix u (domain c) = true
  ∧ gostrings.HasSuffixByte u "/" = false.
Proof.
  intros [href Hn]. split.
  - by destruct (normalizeURL_accepts _ _ _ Hn)
      as (_ & ? & ? & _ & _ & _ & _ & ?).
  - by apply (normalizeURL_no_trailing_slash c href).
Qed.

Lemma enqueue_old c q ls u : u ∈ q → u ∈ enqueue c q ls.
Proof.
  unfold enqueue. revert q. induction ls as [|l ls IH]; intros q Hu; simpl;
    [done|].
  apply IH. destruct (visited c !! l); [done|]. apply elem_of_app. by left.
Qed.

Lemma enqueue_new c q ls l :
  l ∈ ls → visited c !! l = None → l ∈ enqueue c q ls.
Proof.
  unfold enqueue. revert q. induction ls as [|x ls IH]; intros q Hl Hnone;
    simpl.
  - by apply not_elem_of_nil in Hl.
  - apply elem_of_cons in Hl as [<-|Hl]; [|by apply IH].
    rewrite Hnone. apply (enqueue_old c). apply elem_of_app. right. by left.
Qed.

Lemma log_inv_iteration w e0 u q c e :
  log_inv e0 (mkLoopState (u :: q) c e) → log_inv e0 (iteration w u q c e).
Proof.
  intros (cyc & Hreq & Hlog). simpl in *. unfold iteration.
  destruct (visited c !! u); [by exists cyc|].
  exists (cyc ++ [(u, http_Get w (tick e) u)]).
  rewrite fmap_app, !app_assoc, <- Hreq, <- Hlog.
  destruct (http_Get w (tick e) u) as [err|StatusCode [body|]]; simpl;
    unfold logged; simpl; try done;
    by destruct (StatusCode =? 200).
Qed.

Lemma confined_inv_iteration w c0 e0 u q c e :
  confined_inv c0 e0 (mkLoopState (u :: q) c e) →
  confined_inv c0 e0 (iteration w u q c e).
Proof.
  intros (Hd & Hq & Hv & cyc & Hreq & Hcyc). simpl in *.
  assert (normalized c0 u) as Hu by (apply Hq; left).
  assert (∀ v, v ∈ q → normalized c0 v) as Hq'
    by (intros v ?; apply Hq; by right).
  assert (∀ r, ∃ cyc', requests e ++ [(u, r)] = requests e0 ++ cyc'
                       ∧ ∀ v r', (v, r') ∈ cyc' → normalized c0 v) as Hsnoc.
  { intros r. exists (cyc ++ [(u, r)]). rewrite Hreq, app_assoc.
    split; [done|].
    intros v r' [Hin|Hin]%elem_of_app; [by eapply Hcyc|].
    apply list_elem_of_singleton in Hin. by injection Hin as -> _. }
  unfold iteration.
  destruct (visited c !! u) eqn:Hcur.
  { repeat split; simpl; try done. by exists cyc. }
  destruct (http_Get w (tick e) u) as [err|StatusCode body];
    [by repeat split; simpl|].
  destruct (StatusCode =? 200); simpl; [|by repeat split; simpl].
  destruct body as [bodyBytes|]; [|by repeat split; simpl].
  repeat split; simpl; try done.
  - intros v [Hin|Hin]%enqueue_elem; [by apply Hq'|].
    apply extractLinks_normalized in Hin as [href Hn]. exists href.
    by rewrite <- (normalizeURL_domain c c0).
  - intros v. rewrite lookup_insert_is_Some.
    intros [<-|[_ Hin]]; [done | by apply Hv].
Qed.

Lemma reachable_mono c0 seed t t' u :
  (∀ x, x ∈ t → x ∈ t') → reachable c0 seed t u → reachable c0 seed t' u.
Proof.
  intros Hsub. induction 1 as [|v body l _ IH Hin Hl]; [constructor|].
  eapply reach_link; [exact IH | by apply Hsub | done].
Qed.

Lemma reach_inv_iteration w c0 seed e0 u q c e :
  reach_inv c0 seed e0 (mkLoopState (u :: q) c e) →
  reach_inv c0 seed e0 (iteration w u q c e).
Proof.
  intros (Hd & Ha & cyc & Hreq & Hvis & Hq & Hcyc & Hseed & Hlinks).
  simpl in *.
  assert (reachable c0 seed cyc u) as Hu by (apply Hq; left).
  (* what is settled stays settled when [u] leaves the queue for the
     requests *)
  assert (∀ cyc' q',
            (∀ x, x ∈ cyc → x ∈ cyc') →
            (∀ x, x ∈ q → x ∈ q') →
            (∃ r, (u, r) ∈ cyc') →
            ∀ l, settled (u :: q) cyc l → settled q' cyc' l) as Hsettled.
  { intros cyc' q' Hsub Hqsub Hur l [[->|Hin]%elem_of_cons|[r Hr]].
    - by right.
    - left. by apply Hqsub.
    - right. exists r. by apply Hsub. }
  unfold iteration.
  destruct (visited c !! u) as [x|] eqn:Hcur.
  { split; [done|]. split; [done|]. exists cyc. simpl.
    assert (∃ r, (u, r) ∈ cyc) as Hur by (apply Hvis; by eexists).
    split; [done|]. split; [done|].
    split; [intros v Hv; apply Hq; by right|]. split; [done|].
    split; [by apply (Hsettled cyc q)|].
    intros v body l Hv Hl. apply (Hsettled cyc q); try done.
    by eapply Hlinks. }
  set (resp := http_Get w (tick e) u).
  assert (∀ x, x ∈ cyc → x ∈ cyc ++ [(u, resp)]) as Hsub
    by (intros x Hx; apply elem_of_app; by left).
  assert (∃ r, (u, r) ∈ cyc ++ [(u, resp)]) as Hur.
  { exists resp. apply elem_of_app. right. by left. }
  assert (∀ v, reachable c0 seed cyc v →
               reachable c0 seed (cyc ++ [(u, resp)]) v) as Hmono
    by (intros v; by apply reachable_mono).
  assert (∀ v r, (v, r) ∈ cyc ++ [(u, resp)] →
                 reachable c0 seed (cyc ++ [(u, resp)]) v) as Hcyc'.
  { intros v r [Hin|Hin]%elem_of_app; [by eapply Hmono, Hcyc|].
    apply list_elem_of_singleton in Hin. injection Hin as -> _.
    by apply Hmono. }
  (* a request that did not succeed *)
  assert (fetched_ok resp = false →
          ∀ e', requests e' = requests e ++ [(u, resp)] →
                reach_inv c0 seed e0 (mkLoopState q c e')) as Hfailed.
  { intros Hbad e' He'. split; [done|]. split; [done|].
    exists (cyc ++ [(u, resp)]). simpl.
    split; [by rewrite He', Hreq, app_assoc|].
    split; [intros v Hv; destruct (Hvis v Hv) as [r Hr]; exists r;
            by apply Hsub|].
    split; [intros v Hv; apply Hmono, Hq; by right|]. split; [done|].
    split; [by apply (Hsettled _ q)|].
    intros v body l [Hv|Hv]%elem_of_app Hl.
    - apply (Hsettled _ q); try done. by eapply Hlinks.
    - apply list_elem_of_singleton in Hv. injection Hv as -> Hresp.
      rewrite <- Hresp in Hbad. done. }
  destruct resp as [err|StatusCode body] eqn:Hresp; [by apply Hfailed|].
  destruct (StatusCode =? 200) eqn:Hstatus; simpl.
  2:{ apply Hfailed; [|done]. simpl. rewrite Hstatus. by destruct body. }
  destruct body as [bodyBytes|]; [|by apply Hfailed].
  apply Z.eqb_eq in Hstatus as ->.
  rewrite (extractLinks_config c c0) by done.
  split; [done|]. split; [done|].
  exists (cyc ++ [(u, GetResponse 200 (Some bodyBytes))]). simpl.
  split; [by rewrite Hreq, app_assoc|].
  split.
  { intros v. rewrite lookup_insert_is_Some.
    intros [<-|[_ Hv]]; [done|]. destruct (Hvis v Hv) as [r Hr].
    exists r. by apply Hsub. }
  split.
  { intros v [Hv|Hv]%enqueue_elem; [apply Hmono, Hq; by right|].
    eapply reach_link; [by apply Hmono | | exact Hv].
    apply elem_of_app. right. by left. }
  split; [done|].
  assert (∀ l, settled (u :: q) cyc l →
               settled (enqueue c q (extractLinks c0 (html_tokens bodyBytes)))
                 (cyc ++ [(u, GetResponse 200 (Some bodyBytes))]) l)
    as Hold.
  { apply Hsettled; [done | | done]. intros x. apply enqueue_old. }
  split; [by apply Hold|].
  intros v body l [Hv|Hv]%elem_of_app Hl.
  - apply Hold. by eapply Hlinks.
  - apply list_elem_of_singleton in Hv. injection Hv as -> <-.
    destruct (visited c !! l) as [y|] eqn:Hvl.
    + right. destruct (Hvis l) as [r Hr]; [by eexists|].
      exists r. by apply Hsub.
    + left. by apply enqueue_new.
Qed.

Lemma enqueue_similar c c' q ls :
  (∀ u, checksum <$> visited c !! u = checksum <$> visited c' !! u) →
  enqueue c q ls = enqueue c' q ls.
Proof.
  intros Hv. unfold enqueue. revert q.
  induction ls as [|l ls IH]; intros q; simpl; [done|].
  specialize (Hv l).
  destruct (visited c !! l), (visited c' !! l); try done; apply IH.
Qed.

Lemma similar_iteration w u q c e c' e' :
  stable w →
  similar (mkLoopState (u :: q) c e) (mkLoopState (u :: q) c' e') →
  similar (iteration w u q c e) (iteration w u q c' e').
Proof.
  intros w_stable (_ & Hd & Ha & Hv). simpl in *. unfold iteration.
  pose proof (Hv u) as Hu.
  destruct (visited c !! u) eqn:Hcu, (visited c' !! u) eqn:Hcu'; try done.
  rewrite (w_stable (tick e') (tick e) u).
  destruct (http_Get w (tick e) u) as [err|StatusCode body]; [done|].
  destruct (StatusCode =? 200); simpl; [|done].
  destruct body as [bodyBytes|]; [|done].
  split; simpl; [|split; [done|split; [done|]]].
  - rewrite (extractLinks_config c c') by done. by apply enqueue_similar.
  - intros v. destruct (decide (u = v)) as [->|Hne].
    + by rewrite !lookup_insert_eq.
    + by rewrite !lookup_insert_ne.
Qed.

(** Over a stable site, the loop started in a similar state ends with the
    same fuel in a similar state. *)
Lemma similar_run_loop w fuel st1 st2 r1 :
  stable w →
  similar st1 st2 →
  run_loop fuel w st1 = Some r1 →
  ∃ r2, run_loop fuel w st2 = Some r2 ∧ similar r1 r2.
Proof.
  intros w_stable. revert st1 st2. induction fuel as [|fuel IH];
    intros [q1 c1 e1] [q2 c2 e2] Hsim; pose proof Hsim as (Hq & _);
    simpl in Hq; subst q2; destruct q1 as [|u q]; simpl; try done.
  - intros [= <-]. by eexists.
  - intros [= <-]. by eexists.
  - apply IH. by apply similar_iteration.
Qed.

Lemma reconciled_checksum old k fresh :
  checksum (reconciled old k fresh) = checksum fresh.
Proof.
  unfold reconciled. destruct (old !! k) as [o|]; [|done].
  destruct (String.eqb (checksum fresh) (checksum o)) eqn:Heq; [|done].
  by apply eqb_true in Heq.
Qed.

Lemma getLinks_keys c :
  links_wf c = true →
  link <$> getLinks c = (map_to_list (links c)).*1.
Proof.
  intros Hwf. unfold getLinks.
  rewrite <- list_fmap_compose. apply list_fmap_ext.
  intros i [k v] Hkv%list_elem_of_lookup_2%elem_of_map_to_list. simpl.
  by apply (proj1 (links_wf_spec c) Hwf).
Qed.

(** What a cycle that was not aborted leaves: the configuration as it was,
    requests for results of the normalizer only, and a durable map whose
    keys are results of the normalizer, each filed with a record that
    carries it as its link. *)
Lemma crawl_confined fuel w url c e c' e' :
  (∀ k v, links c !! k = Some v → link v = k) →
  (normalizeURL c url).2 = true →
  crawl fuel w url c e = Some (c', e') →
  domain c' = domain c
  ∧ linkAttributes c' = linkAttributes c
  ∧ (∃ cyc, requests e' = requests e ++ cyc
            ∧ ∀ u r, (u, r) ∈ cyc → normalized c u)
  ∧ ∀ k v, links c' !! k = Some v → link v = k ∧ normalized c k.
Proof.
  intros Hwf Hok Hcrawl.
  destruct (crawl_completed _ _ _ _ _ _ _ Hok Hcrawl) as (st & Hrun & -> & ->).
  pose proof Hrun as Hconf.
  apply (run_loop_ind (confined_inv c e) w (confined_inv_iteration w c e))
    in Hconf as (_ & _ & Hvis & cyc & Hreq & Hcyc).
  2:{ split; [reflexivity|]. split; [|split].
      - intros u ->%list_elem_of_singleton.
        exists url. by destruct (normalizeURL c url) as [n []].
      - intros u. simpl. rewrite lookup_empty. by intros [].
      - exists []. simpl. rewrite app_nil_r. split; [done|].
        by intros u r ?%not_elem_of_nil. }
  apply run_loop_inv
    with (links0 := links c) (domain0 := domain c)
         (attrs0 := linkAttributes c) (e0 := e) in Hrun as [Hinv _];
    [|by apply cycle_inv_start].
  split; [apply (inv_domain _ _ _ _ _ _ Hinv)|].
  split; [apply (inv_attrs _ _ _ _ _ _ Hinv)|].
  split; [by exists cyc|].
  intros k v. simpl. rewrite newLinks_lookup.
  destruct (visited (cr st) !! k) as [x|] eqn:Hx; [|done].
  simpl. intros [= <-]. split; [|apply Hvis; by eexists].
  destruct (inv_visited _ _ _ _ _ _ Hinv k x Hx) as (i & body & _ & _ & ->).
  unfold reconciled. rewrite (inv_links _ _ _ _ _ _ Hinv).
  destruct (links c !! k) as [o|] eqn:Ho; [|done].
  simpl. destruct (String.eqb _ _); [|done]. by apply Hwf.
Qed.

End CrawlLoop.

Lemma sampleSite_stable : stable sampleSite.
Proof. intros i j u. reflexivity. Qed.

Lemma sampleURLs_spec u :
  u ∈ sampleURLs
  ↔ u = "http://example.com" ∨ u = "http://example.com/page1"
    ∨ u = "http://example.com/missing".
Proof.
  unfold sampleURLs. rewrite !elem_of_union, !elem_of_singleton. tauto.
Qed.

(** The pages of [sampleSite] carry at most four links, all of them among
    [sampleURLs]. *)
Lemma sampleSite_bounded c' i u body :
  Crawler.domain c' = Crawler.domain exampleCrawler →
  Crawler.linkAttributes c' = Crawler.linkAttributes exampleCrawler →
  http_Get sampleSite i u = GetResponse 200 (Some body) →
  (length
     (Crawler.extractLinks c'
        (html_tokens (Libraries := Sample.libraries) body))
   ≤ 4)%nat
  ∧ ∀ l, l ∈ Crawler.extractLinks c'
               (html_tokens (Libraries := Sample.libraries) body) →
         l ∈ sampleURLs.
Proof.
  intros Hd Ha Hget.
  rewrite (extractLinks_config c' exampleCrawler) by done.
  unfold sampleSite, Sample.site in Hget.
  cbn [http_Get List.find fst snd] in Hget.
  assert (body = homePage ∨ body = "<a href='/'>home</a>") as [->| ->].
  { destruct (String.eqb "http://example.com" u);
      [|destruct (String.eqb "http://example.com/page1" u)];
      [left|right|discriminate Hget]; injection Hget as <-; reflexivity. }
  - split; [vm_compute; lia|]. intros l.
    replace (Crawler.extractLinks exampleCrawler
               (html_tokens (Libraries := Sample.libraries) homePage))
      with ["http://example.com/page1"; "http://example.com/page1";
            "http://example.com/missing"; "http://example.com/missing"]
      by (vm_compute; reflexivity).
    rewrite sampleURLs_spec, !elem_of_cons, elem_of_nil. tauto.
  - split; [vm_compute; lia|]. intros l.
    replace (Crawler.extractLinks exampleCrawler
               (html_tokens (Libraries := Sample.libraries)
                  "<a href='/'>home</a>"))
      with ["http://example.com"] by (vm_compute; reflexivity).
    rewrite sampleURLs_spec, !elem_of_cons, elem_of_nil. tauto.
Qed.

(** ** The link extractor and the crawl cycle, continued *)
Section CrawlExtras.
Import Crawler.

(** X3. Every link that [extractLinks] returns is a result of the
    normalizer: it starts with the configured domain and has no trailing
    slash; and the links of a token stream are those of its parts, in
    order, as long as the first part holds no error token. *)
Theorem X3_extractLinks_in_domain (c : crawler) (stream rest : list Token) :
  (∀ l, l ∈ extractLinks c stream →
        normalized c l
        ∧ gostrings.HasPrefix l (domain c) = true
        ∧ gostrings.HasSuffixByte l "/" = false)
  ∧ (Forall (λ token, Type_ token ≠ ErrorToken) stream →
     extractLinks c (stream ++ rest)
     = extractLinks c stream ++ extractLinks c rest).
Proof.
  split.
  - intros l Hl%extractLinks_normalized. split; [done|].
    by apply normalized_in_domain.
  - intros Hnone. unfold extractLinks. rewrite !extractLoop_spec. simpl.
    rewrite <- omap_app, <- concat_app, <- fmap_app. do 3 f_equal.
    induction Hnone as [|token stream Htoken _ IH]; simpl; [done|].
    rewrite IH. by destruct (Type_ token).
Qed.

Lemma X3_extractLinks_in_domain_witness :
  ("http://example.com/page1"
   ∈ extractLinks exampleCrawler
       [mkToken StartTagToken "a" [mkAttribute "href" "/page1/#top"]]
   ∧ Forall (λ token, Type_ token ≠ ErrorToken)
       [mkToken StartTagToken "a" [mkAttribute "href" "/page1/#top"]])
  ∧ (normalized exampleCrawler "http://example.com/page1"
     ∧ gostrings.HasPrefix "http://example.com/page1"
         (domain exampleCrawler) = true
     ∧ gostrings.HasSuffixByte "http://example.com/page1" "/" = false)
  ∧ extractLinks exampleCrawler
      ([mkToken StartTagToken "a" [mkAttribute "href" "/page1/#top"]]
       ++ [mkToken SelfClosingTagToken "div" [mkAttribute "hx-get" "/x"]])
    = extractLinks exampleCrawler
        [mkToken StartTagToken "a" [mkAttribute "href" "/page1/#top"]]
      ++ extractLinks exampleCrawler
           [mkToken SelfClosingTagToken "div" [mkAttribute "hx-get" "/x"]].
Proof.
  assert ("http://example.com/page1"
          ∈ extractLinks exampleCrawler
              [mkToken StartTagToken "a" [mkAttribute "href" "/page1/#top"]])
    as Hin.
  { replace (extractLinks exampleCrawler _)
      with ["http://example.com/page1"] by (vm_compute; reflexivity).
    by left. }
  assert (Forall (λ token, Type_ token ≠ ErrorToken)
            [mkToken StartTagToken "a" [mkAttribute "href" "/page1/#top"]])
    as Hnone by (by repeat constructor).
  destruct (X3_extractLinks_in_domain exampleCrawler
              [mkToken StartTagToken "a" [mkAttribute "href" "/page1/#top"]]
              [mkToken SelfClosingTagToken "div" [mkAttribute "hx-get" "/x"]])
    as [Hlinks Happ].
  split; [by split|]. split; [exact (Hlinks _ Hin) | exact (Happ Hnone)].
Defined.

(** X4. The log of a cycle: one call of a logger for every request of the
    cycle, in the order of the requests: the info logger for a page that
    was crawled, the error logger for a request that failed, for a status
    other than 200 and for a body that could not be read.  Nothing else is
    logged. *)
Theorem X4_crawl_logs_every_request {L : Libraries} (fuel : nat) (w : World)
    (url : string) (c c' : crawler) (e e' : Env) :
  crawl fuel w url c e = Some (c', e') →
  ∃ cyc, requests e' = requests e ++ cyc
         ∧ log e' = log e ++ (logged <$> cyc).
Proof.
  intros Hcrawl.
  destruct (normalizeURL c url).2 eqn:Hok.
  - destruct (crawl_completed _ _ _ _ _ _ _ Hok Hcrawl) as (st & Hrun & _ & ->).
    apply (run_loop_ind (log_inv e) w (log_inv_iteration w e) _ _ _) in Hrun;
      [done|].
    exists []. simpl. by rewrite !app_nil_r.
  - rewrite (crawl_rejected _ _ _ _ _ Hok) in Hcrawl.
    injection Hcrawl as _ <-. exists []. simpl. by rewrite !app_nil_r.
Qed.

Lemma X4_crawl_logs_every_request_witness :
  ∃ c' e' cyc,
    crawl (L := Sample.libraries) 10 sampleSite "/" exampleCrawler freshEnv
    = Some (c', e')
    ∧ requests e' = requests freshEnv ++ cyc
    ∧ log e' = log freshEnv ++ (logged <$> cyc).
Proof.
  destruct (isSome_inv
              (crawl (L := Sample.libraries) 10 sampleSite "/" exampleCrawler
                 freshEnv))
    as [[c' e'] Hcrawl]; [vm_compute; reflexivity|].
  destruct (X4_crawl_logs_every_request (L := Sample.libraries) 10 sampleSite
              "/" exampleCrawler c' freshEnv e' Hcrawl) as (cyc & Hcyc).
  exists c', e', cyc. split; [exact Hcrawl | exact Hcyc].
Defined.

(** X5. A cycle stays on the normalizer's side of the site boundary: every
    URL it requests, and every link of the snapshot taken after it, is a
    result of [normalizeURL]: it starts with the configured domain and has
    no trailing slash. *)
Theorem X5_crawl_requests_normalized {L : Libraries} (fuel : nat) (w : World)
    (url : string) (c c' : crawler) (e e' : Env) :
  links_wf c = true →
  (normalizeURL c url).2 = true →
  crawl fuel w url c e = Some (c', e') →
  ∃ cyc,
    requests e' = requests e ++ cyc
    ∧ (∀ u r, (u, r) ∈ cyc →
         normalized c u
         ∧ gostrings.HasPrefix u (domain c) = true
         ∧ gostrings.HasSuffixByte u "/" = false)
    ∧ (∀ l, l ∈ getLinks c' →
         normalized c (link l)
         ∧ gostrings.HasPrefix (link l) (domain c) = true
         ∧ gostrings.HasSuffixByte (link l) "/" = false).
Proof.
  intros Hwf Hok Hcrawl.
  destruct (crawl_confined _ _ _ _ _ _ _ (proj1 (links_wf_spec c) Hwf)
              Hok Hcrawl) as (_ & _ & (cyc & Hreq & Hcyc) & Hlinks).
  exists cyc. split; [done|]. split.
  - intros u r Hin. split; [by eapply Hcyc|].
    apply normalized_in_domain. by eapply Hcyc.
  - intros l. unfold getLinks.
    intros ([k v] & -> & Hkv%elem_of_map_to_list)%list_elem_of_fmap.
    simpl. destruct (Hlinks k v Hkv) as [-> Hk].
    split; [done|]. by apply normalized_in_domain.
Qed.

Lemma X5_crawl_requests_normalized_witness :
  links_wf seasonedCrawler = true
  ∧ (normalizeURL seasonedCrawler "/").2 = true
  ∧ ∃ c' e' cyc,
      crawl (L := Sample.libraries) 10 sampleSite "/" seasonedCrawler freshEnv
      = Some (c', e')
      ∧ requests e' = requests freshEnv ++ cyc
      ∧ (∀ u r, (u, r) ∈ cyc →
           normalized seasonedCrawler u
           ∧ gostrings.HasPrefix u (domain seasonedCrawler) = true
           ∧ gostrings.HasSuffixByte u "/" = false)
      ∧ (∀ l, l ∈ getLinks c' →
           normalized seasonedCrawler (link l)
           ∧ gostrings.HasPrefix (link l) (domain seasonedCrawler) = true
           ∧ gostrings.HasSuffixByte (link l) "/" = false).
Proof.
  assert (links_wf seasonedCrawler = true) as Hwf by (vm_compute; reflexivity).
  assert ((normalizeURL seasonedCrawler "/").2 = true) as Hseed
    by (vm_compute; reflexivity).
  split; [exact Hwf|]. split; [exact Hseed|].
  destruct (isSome_inv
              (crawl (L := Sample.libraries) 10 sampleSite "/" seasonedCrawler
                 freshEnv))
    as [[c' e'] Hcrawl]; [vm_compute; reflexivity|].
  destruct (X5_crawl_requests_normalized (L := Sample.libraries) 10 sampleSite
              "/" seasonedCrawler c' freshEnv e' Hwf Hseed Hcrawl)
    as (cyc & Hcyc).
  exists c', e', cyc. split; [exact Hcrawl | exact Hcyc].
Defined.

(** X6. The URLs that a cycle requests are exactly those it can reach from
    the seed: the normalized seed, and every link that [extractLinks] gives
    on a page fetched with success in the cycle from a URL reached.  No URL
    is requested that no page fetched links to, and no link of a page
    fetched is left without a request. *)
Theorem X6_crawl_requests_reachable {L : Libraries} (fuel : nat) (w : World)
    (url seed : string) (c c' : crawler) (e e' : Env) :
  normalizeURL c url = (seed, true) →
  crawl fuel w url c e = Some (c', e') →
  ∃ cyc,
    requests e' = requests e ++ cyc
    ∧ ∀ u, (∃ r, (u, r) ∈ cyc) ↔ reachable c seed cyc u.
Proof.
  intros Hseed Hcrawl.
  assert ((normalizeURL c url).2 = true) as Hok by (by rewrite Hseed).
  destruct (crawl_completed _ _ _ _ _ _ _ Hok Hcrawl) as (st & Hrun & _ & ->).
  rewrite Hseed in Hrun. simpl in Hrun.
  pose proof Hrun as Hreach.
  apply (run_loop_ind (reach_inv c seed e) w (reach_inv_iteration w c seed e))
    in Hreach as (_ & _ & cyc & Hreq & _ & _ & Hcyc & Hs & Hlinks).
  2:{ split; [done|]. split; [done|]. exists []. simpl.
      rewrite app_nil_r. split; [done|].
      split; [intros u; rewrite lookup_empty; by intros []|].
      split; [intros u ->%list_elem_of_singleton; constructor|].
      split; [by intros u r ?%not_elem_of_nil|].
      split; [left; by left|]. by intros v body l ?%not_elem_of_nil. }
  apply run_loop_inv
    with (links0 := links c) (domain0 := domain c)
         (attrs0 := linkAttributes c) (e0 := e) in Hrun as [_ Hempty];
    [|by apply cycle_inv_start].
  rewrite Hempty in Hs, Hlinks.
  assert (∀ l, settled [] cyc l → ∃ r, (l, r) ∈ cyc) as Hdone.
  { by intros l [?%not_elem_of_nil|?]. }
  exists cyc. split; [done|]. intros u. split.
  - intros [r Hr]. by eapply Hcyc.
  - induction 1 as [|v body l _ _ Hv Hl]; [by apply Hdone|].
    apply Hdone. by eapply Hlinks.
Qed.

Lemma X6_crawl_requests_reachable_witness :
  normalizeURL exampleCrawler "/" = ("http://example.com", true)
  ∧ ∃ c' e' cyc,
      crawl (L := Sample.libraries) 10 sampleSite "/" exampleCrawler freshEnv
      = Some (c', e')
      ∧ requests e' = requests freshEnv ++ cyc
      ∧ ∀ u, (∃ r, (u, r) ∈ cyc)
             ↔ reachable (L := Sample.libraries) exampleCrawler
                 "http://example.com" cyc u.
Proof.
  assert (normalizeURL exampleCrawler "/" = ("http://example.com", true))
    as Hseed by (vm_compute; reflexivity).
  split; [exact Hseed|].
  destruct (isSome_inv
              (crawl (L := Sample.libraries) 10 sampleSite "/" exampleCrawler
                 freshEnv))
    as [[c' e'] Hcrawl]; [vm_compute; reflexivity|].
  destruct (X6_crawl_requests_reachable (L := Sample.libraries) 10 sampleSite
              "/" "http://example.com" exampleCrawler c' freshEnv e' Hseed
              Hcrawl) as (cyc & Hcyc).
  exists c', e', cyc. split; [exact Hcrawl | exact Hcyc].
Defined.

(** X7. Over a site whose answers do not change, a second cycle reaches its
    end with the fuel of the first and leaves the durable map as the first
    made it: every record keeps its checksum and its [lastChanged], and the
    snapshot is the same. *)
Theorem X7_crawl_again_unchanged {L : Libraries} (fuel : nat) (w : World)
    (url : string) (c c1 : crawler) (e e1 : Env) :
  stable w →
  (normalizeURL c url).2 = true →
  crawl fuel w url c e = Some (c1, e1) →
  ∃ c2 e2,
    crawl fuel w url c1 e1 = Some (c2, e2)
    ∧ links c2 = links c1
    ∧ getLinks c2 = getLinks c1.
Proof.
  intros Hstable Hok Hcrawl.
  destruct (crawl_completed _ _ _ _ _ _ _ Hok Hcrawl) as (st & Hrun & -> & ->).
  pose proof Hrun as Hinv.
  apply run_loop_inv
    with (links0 := links c) (domain0 := domain c)
         (attrs0 := linkAttributes c) (e0 := e) in Hinv as [Hinv _];
    [|by apply cycle_inv_start].
  destruct Hinv as [Hd Ha Hl _ _].
  set (c1 := set_links (cr st) (newLinks (visited (cr st)) (links (cr st)))).
  assert (similar
            (mkLoopState [(normalizeURL c url).1] (set_visited c ∅) e)
            (mkLoopState [(normalizeURL c url).1] (set_visited c1 ∅) (env st)))
    as Hstart by (repeat split; simpl; congruence).
  destruct (similar_run_loop w fuel _ _ _ Hstable Hstart Hrun)
    as (st2 & Hrun2 & _ & _ & _ & Hsim).
  pose proof Hrun2 as Hinv2.
  apply run_loop_inv
    with (links0 := links c1) (domain0 := domain c1)
         (attrs0 := linkAttributes c1) (e0 := env st) in Hinv2 as [Hinv2 _];
    [|by apply cycle_inv_start].
  destruct Hinv2 as [_ _ Hl2 _ _].
  assert (newLinks (visited (cr st2)) (links (cr st2)) = links c1) as Hsame.
  { rewrite Hl2. apply map_eq. intros k. rewrite newLinks_lookup.
    subst c1. simpl. rewrite newLinks_lookup.
    specialize (Hsim k).
    destruct (visited (cr st) !! k) as [x|] eqn:Hx,
             (visited (cr st2) !! k) as [x2|]; try done.
    simpl in *. injection Hsim as Hsim. f_equal.
    unfold reconciled at 1. rewrite newLinks_lookup, Hx. simpl.
    by rewrite reconciled_checksum, Hsim, String.eqb_refl. }
  exists (set_links (cr st2) (links c1)), (env st2).
  split; [|split; [done | unfold getLinks; by simpl]].
  unfold crawl.
  rewrite <- (normalizeURL_domain c (set_visited c1 ∅)) by (simpl; congruence).
  destruct (normalizeURL c url) as [n []]; [|done]. simpl in *.
  rewrite Hrun2. by rewrite Hsame.
Qed.

Lemma X7_crawl_again_unchanged_witness :
  stable sampleSite
  ∧ (normalizeURL seasonedCrawler "/").2 = true
  ∧ ∃ c1 e1 c2 e2,
      crawl (L := Sample.libraries) 10 sampleSite "/" seasonedCrawler freshEnv
      = Some (c1, e1)
      ∧ crawl (L := Sample.libraries) 10 sampleSite "/" c1 e1 = Some (c2, e2)
      ∧ links c2 = links c1
      ∧ getLinks c2 = getLinks c1.
Proof.
  assert ((normalizeURL seasonedCrawler "/").2 = true) as Hseed
    by (vm_compute; reflexivity).
  split; [exact sampleSite_stable|]. split; [exact Hseed|].
  destruct (isSome_inv
              (crawl (L := Sample.libraries) 10 sampleSite "/" seasonedCrawler
                 freshEnv))
    as [[c1 e1] Hcrawl]; [vm_compute; reflexivity|].
  destruct (X7_crawl_again_unchanged (L := Sample.libraries) 10 sampleSite "/"
              seasonedCrawler c1 freshEnv e1 sampleSite_stable Hseed Hcrawl)
    as (c2 & e2 & Hagain).
  exists c1, e1, c2, e2. split; [exact Hcrawl | exact Hagain].
Defined.

(** X8. A seed that cannot be fetched: the cycle makes that one request,
    logs it, and ends with an empty durable map: the links known from the
    earlier cycles are gone from the snapshot. *)
Theorem X8_crawl_seed_not_fetched {L : Libraries} (fuel : nat) (w : World)
    (url seed : string) (c : crawler) (e : Env) :
  normalizeURL c url = (seed, true) →
  fetched_ok (http_Get w (tick e) seed) = false →
  ∃ c',
    crawl (S fuel) w url c e
    = Some (c', mkEnv (requests e ++ [(seed, http_Get w (tick e) seed)])
                  (log e ++ [logged (seed, http_Get w (tick e) seed)]))
    ∧ links c' = ∅
    ∧ getLinks c' = [].
Proof.
  intros Hseed Hbad. exists (set_links (set_visited c ∅) ∅).
  split;
    [|split; [done | unfold getLinks; simpl; by rewrite map_to_list_empty]].
  unfold crawl.
  change (normalizeURL (set_visited c ∅) url) with (normalizeURL c url).
  rewrite Hseed. simpl. unfold loop_step, iteration. simpl.
  rewrite lookup_empty.
  destruct (http_Get w (tick e) seed) as [err|StatusCode [body|]];
    simpl in *; unfold logged; simpl.
  - by destruct fuel.
  - rewrite Hbad. simpl. by destruct fuel.
  - destruct (StatusCode =? 200); simpl; by destruct fuel.
Qed.

Lemma X8_crawl_seed_not_fetched_witness :
  normalizeURL seasonedCrawler "/missing" = ("http://example.com/missing", true)
  ∧ fetched_ok (http_Get sampleSite (tick freshEnv) "http://example.com/missing")
    = false
  ∧ ∃ c',
      crawl (L := Sample.libraries) 1 sampleSite "/missing" seasonedCrawler
        freshEnv
      = Some (c',
              mkEnv
                (requests freshEnv
                 ++ [("http://example.com/missing",
                      http_Get sampleSite (tick freshEnv)
                        "http://example.com/missing")])
                (log freshEnv
                 ++ [logged
                       ("http://example.com/missing",
                        http_Get sampleSite (tick freshEnv)
                          "http://example.com/missing")]))
      ∧ links c' = ∅
      ∧ getLinks c' = [].
Proof.
  assert (normalizeURL seasonedCrawler "/missing"
          = ("http://example.com/missing", true)) as Hseed
    by (vm_compute; reflexivity).
  assert (fetched_ok
            (http_Get sampleSite (tick freshEnv) "http://example.com/missing")
          = false) as Hbad by (vm_compute; reflexivity).
  split; [exact Hseed|]. split; [exact Hbad|].
  exact (X8_crawl_seed_not_fetched (L := Sample.libraries) 0 sampleSite
           "/missing" "http://example.com/missing" seasonedCrawler freshEnv
           Hseed Hbad).
Defined.

(** X9. Termination: on a site whose pages carry at most [K] links, all
    within a finite set of URLs that holds the normalized seed, the loop of
    [crawl] comes to its end within [1 + K * size site] rounds, and the
    result is the same whatever number of rounds at least that is allowed. *)
Theorem X9_crawl_ends_on_bounded_site {L : Libraries} (w : World)
    (site : gset string) (K : nat) (url : string) (c : crawler) (e : Env) :
  (∀ c' i u body,
     domain c' = domain c →
     linkAttributes c' = linkAttributes c →
     http_Get w i u = GetResponse 200 (Some body) →
     (length (extractLinks c' (html_tokens body)) ≤ K)%nat
     ∧ ∀ l, l ∈ extractLinks c' (html_tokens body) → l ∈ site) →
  (normalizeURL c url).1 ∈ site →
  ∃ r, ∀ fuel, (1 + K * size site ≤ fuel)%nat →
         crawl fuel w url c e = Some r.
Proof.
  intros Hsite Hseed.
  destruct (crawl_terminates w site K (1 + K * size site) url c e Hsite Hseed)
    as [r Hr]; [done|].
  exists r. intros fuel Hfuel.
  replace fuel with ((1 + K * size site) + (fuel - (1 + K * size site)))%nat
    by lia.
  by apply crawl_more_fuel.
Qed.

Lemma X9_crawl_ends_on_bounded_site_witness :
  (∀ c' i u body,
     domain c' = domain exampleCrawler →
     linkAttributes c' = linkAttributes exampleCrawler →
     http_Get sampleSite i u = GetResponse 200 (Some body) →
     (length
        (extractLinks c' (html_tokens (Libraries := Sample.libraries) body))
      ≤ 4)%nat
     ∧ ∀ l, l ∈ extractLinks c'
                  (html_tokens (Libraries := Sample.libraries) body) →
            l ∈ sampleURLs)
  ∧ (normalizeURL exampleCrawler "/").1 ∈ sampleURLs
  ∧ ∃ r, ∀ fuel, (1 + 4 * size sampleURLs ≤ fuel)%nat →
           crawl (L := Sample.libraries) fuel sampleSite "/" exampleCrawler
             freshEnv
           = Some r.
Proof.
  assert ((normalizeURL exampleCrawler "/").1 ∈ sampleURLs) as Hseed.
  { replace (normalizeURL exampleCrawler "/").1 with "http://example.com"
      by (vm_compute; reflexivity).
    apply sampleURLs_spec. by left. }
  split; [exact sampleSite_bounded|]. split; [exact Hseed|].
  exact (X9_crawl_ends_on_bounded_site (L := Sample.libraries) sampleSite
           sampleURLs 4 "/" exampleCrawler freshEnv sampleSite_bounded Hseed).
Defined.

(** X10. The snapshot of a durable map that files every record under its
    own link holds one record for every key and no link twice. *)
Theorem X10_getLinks_distinct (c : crawler) :
  links_wf c = true →
  NoDup (link <$> getLinks c)
  ∧ length (getLinks c) = size (links c)
  ∧ ∀ u, u ∈ link <$> getLinks c ↔ is_Some (links c !! u).
Proof.
  intros Hwf. rewrite (getLinks_keys c Hwf).
  split; [apply NoDup_fst_map_to_list|]. split.
  - unfold getLinks. by rewrite length_fmap, length_map_to_list.
  - intros u. rewrite list_elem_of_fmap. split.
    + intros ([k v] & -> & Hkv%elem_of_map_to_list). by exists v.
    + intros [v Hv]. exists (u, v). split; [done|].
      by apply elem_of_map_to_list.
Qed.

Lemma X10_getLinks_distinct_witness :
  links_wf seasonedCrawler = true
  ∧ NoDup (link <$> getLinks seasonedCrawler)
  ∧ length (getLinks seasonedCrawler) = size (links seasonedCrawler)
  ∧ ∀ u, u ∈ link <$> getLinks seasonedCrawler
         ↔ is_Some (links seasonedCrawler !! u).
Proof.
  assert (links_wf seasonedCrawler = true) as Hwf by (vm_compute; reflexivity).
  split; [exact Hwf|]. exact (X10_getLinks_distinct seasonedCrawler Hwf).
Defined.

End CrawlExtras.

(** ** The options, continued *)
Section OptionsExtras.

Import Options.

Lemma bool_decide_pair (x a b : string) :
  bool_decide (x ∈ [a; b]) = String.eqb x a || String.eqb x b.
Proof.
  destruct (String.eqb_spec x a) as [->|Ha]; simpl.
  - apply bool_decide_eq_true. by left.
  - destruct (String.eqb_spec x b) as [->|Hb].
    + apply bool_decide_eq_true. right; by left.
    + apply bool_decide_eq_false.
      rewrite !elem_of_cons, elem_of_nil. tauto.
Qed.

Lemma bool_decide_eqb (x a : string) : bool_decide (x = a) = String.eqb x a.
Proof.
  destruct (String.eqb_spec x a);
    [by apply bool_decide_eq_true | by apply bool_decide_eq_false].
Qed.

(** X11. [SetDomain] accepts exactly the well-formed domains: those that
    parse with the scheme http or https, no path but the root and a host
    name.  It then stores the domain without its trailing slashes and
    leaves the other options as they were. *)
Theorem X11_SetDomain_accepts_well_formed (options : SiteMapperOptions)
    (d : string) :
  ((SetDomain d options).2 = None ↔ malformedDomain d = false)
  ∧ (malformedDomain d = false →
     SetDomain d options
     = (mkOptions (gostrings.TrimRight d "/")
          (durationBeforeFirstCrawl options) (crawlInterval options)
          (startingURL options) (linkAttributes options),
        None)
     ∧ gostrings.HasSuffixByte (domain (SetDomain d options).1) "/" = false).
Proof.
  assert (malformedDomain d = false →
          SetDomain d options
          = (mkOptions (gostrings.TrimRight d "/")
               (durationBeforeFirstCrawl options) (crawlInterval options)
               (startingURL options) (linkAttributes options),
             None)) as Hok.
  { unfold malformedDomain, SetDomain.
    destruct (url.Parse d) as [p|]; [|done].
    rewrite !bool_decide_pair, bool_decide_eqb.
    destruct (String.eqb (url.Scheme p) "http"),
      (String.eqb (url.Scheme p) "https"),
      (String.eqb (url.Path p) ""), (String.eqb (url.Path p) "/"),
      (String.eqb (url.Hostname p) ""); simpl; done. }
  split; [split|].
  - unfold malformedDomain, SetDomain.
    destruct (url.Parse d) as [p|]; [|done].
    rewrite !bool_decide_pair, bool_decide_eqb.
    destruct (String.eqb (url.Scheme p) "http"),
      (String.eqb (url.Scheme p) "https"),
      (String.eqb (url.Path p) ""), (String.eqb (url.Path p) "/"),
      (String.eqb (url.Hostname p) ""); simpl; done.
  - intros Hwell. by rewrite (Hok Hwell).
  - intros Hwell. split; [by apply Hok|]. rewrite (Hok Hwell). simpl.
    unfold gostrings.HasSuffixByte.
    pose proof (TrimRight_no_suffix d "/") as Hno.
    destruct (gostrings.lastByte (gostrings.TrimRight d "/")) as [x|];
      [|done].
    apply Ascii.eqb_neq. congruence.
Qed.

Lemma X11_SetDomain_accepts_well_formed_witness :
  malformedDomain "https://valid-domain.org/" = false
  ∧ (SetDomain "https://valid-domain.org/" DefaultOptions
     = (mkOptions (gostrings.TrimRight "https://valid-domain.org/" "/")
          (durationBeforeFirstCrawl DefaultOptions)
          (crawlInterval DefaultOptions) (startingURL DefaultOptions)
          (linkAttributes DefaultOptions),
        None)
     ∧ gostrings.HasSuffixByte
         (domain (SetDomain "https://valid-domain.org/" DefaultOptions).1) "/"
       = false)
  ∧ domain (SetDomain "https://valid-domain.org/" DefaultOptions).1
    = "https://valid-domain.org".
Proof.
  assert (malformedDomain "https://valid-domain.org/" = false) as Hwell
    by (vm_compute; reflexivity).
  split; [exact Hwell|].
  split;
    [exact (proj2 (X11_SetDomain_accepts_well_formed DefaultOptions
                     "https://valid-domain.org/") Hwell)
    | vm_compute; reflexivity].
Defined.

End OptionsExtras.

(** ** The scheduler, continued *)
Section SchedulerTrace.

Import Mapper.
Context {L : Libraries}.

Lemma serve_crawls fuel w options signals p p' :
  serve fuel w options signals p = Some p' →
  ∀ url, Crawled url ∈ events p' →
         Crawled url ∈ events p ∨ url = Options.startingURL options.
Proof.
  revert p. induction signals as [|s signals IH]; intros p; simpl.
  - intros [= <-]. by left.
  - assert (∀ q, call_crawl fuel w options p = Some q →
              serve fuel w options signals (call_callbackFunc q) = Some p' →
              ∀ url, Crawled url ∈ events p' →
                     Crawled url ∈ events p
                     ∨ url = Options.startingURL options) as Hround.
    { intros q Hq Hserve url [Hin|Hin]%(IH _ Hserve); [|by right].
      simpl in Hin. rewrite (call_crawl_events _ _ _ _ _ Hq) in Hin.
      rewrite !elem_of_app, !list_elem_of_singleton in Hin.
      destruct Hin as [[?|[= ->]]|?]; [by left | by right | done]. }
    destruct s; destruct (call_crawl fuel w options p) as [q|] eqn:Hq;
      try done; intros Hserve; by apply (Hround q).
Qed.

Lemma mapper_inv_newMapper options : mapper_inv options (newMapper options).
Proof.
  repeat split; simpl; try done; by rewrite lookup_empty in *.
Qed.

Lemma mapper_inv_call_crawl fuel w options p p' :
  mapper_inv options (mapper p) →
  call_crawl fuel w options p = Some p' →
  mapper_inv options (mapper p').
Proof.
  intros (Hm & Hd & Ha & Hlinks). unfold call_crawl.
  destruct (Crawler.crawl _ _ _ _ _) as [[c e]|] eqn:Hcrawl; [|done].
  intros [= <-]. unfold mapper_inv. simpl.
  destruct (Crawler.normalizeURL (spider (mapper p))
              (Options.startingURL options)).2 eqn:Hok.
  - destruct (crawl_confined _ _ _ _ _ _ _ (λ k v H, proj1 (Hlinks k v H))
                Hok Hcrawl) as (Hd' & Ha' & _ & Hlinks').
    split; [done|]. split; [by rewrite Hd'|]. split; [by rewrite Ha'|].
    intros k v Hkv. destruct (Hlinks' k v Hkv) as [? [href Hn]].
    split; [done|]. exists href.
    by rewrite (normalizeURL_domain c (spider (mapper p))).
  - rewrite (crawl_rejected _ _ _ _ _ Hok) in Hcrawl.
    injection Hcrawl as <- <-.
    split; [done|]. split; [done|]. split; [done|]. exact Hlinks.
Qed.

Lemma mapper_inv_serve fuel w options signals p p' :
  mapper_inv options (mapper p) →
  serve fuel w options signals p = Some p' →
  mapper_inv options (mapper p').
Proof.
  revert p. induction signals as [|s signals IH]; intros p Hinv; simpl.
  - by intros [= <-].
  - destruct s; destruct (call_crawl fuel w options p) as [q|] eqn:Hq;
      try done; apply IH; simpl;
      by apply (mapper_inv_call_crawl _ _ _ _ _ Hinv Hq).
Qed.

Lemma mapper_inv_NewSiteMapper fuel w options signals p :
  NewSiteMapper fuel w options signals = Some p →
  mapper_inv options (mapper p).
Proof.
  unfold NewSiteMapper.
  destruct (call_crawl fuel w options _) as [q|] eqn:Hq; [|done].
  assert (mapper_inv options (mapper q)) as Hinv.
  { eapply mapper_inv_call_crawl; [|exact Hq].
    destruct (0 <? _); apply mapper_inv_newMapper. }
  destruct (Options.crawlInterval options <=? 0).
  - by intros [= <-].
  - by apply mapper_inv_serve.
Qed.

End SchedulerTrace.

(** X12. The run of the goroutine of [NewSiteMapper] on a positive
    interval: the sleep when a delay is configured, one crawl, and then for
    every signal served, a tick or a call of [RecrawlSite] alike, a crawl
    followed by one call of the callback; every crawl starts from the
    starting URL of the options. *)
Theorem X12_NewSiteMapper_trace {L : Libraries} (fuel : nat) (w : World)
    (options : Options.SiteMapperOptions) (signals : list Mapper.Signal)
    (p : Mapper.Process) :
  0 < Options.crawlInterval options →
  Mapper.NewSiteMapper fuel w options signals = Some p →
  kind <$> Mapper.events p
  = (if 0 <? Options.durationBeforeFirstCrawl options then [KSlept] else [])
    ++ [KCrawled] ++ (signals ≫= λ _, [KCrawled; KCallback])
  ∧ ∀ url, Mapper.Crawled url ∈ Mapper.events p →
           url = Options.startingURL options.
Proof.
  intros Hinterval Hnew. split; [by apply (NewSiteMapper_events fuel w)|].
  revert Hnew. unfold Mapper.NewSiteMapper.
  destruct (Mapper.call_crawl fuel w options _) as [q|] eqn:Hq; [|done].
  destruct (Options.crawlInterval options <=? 0) eqn:Hle; [lia|].
  intros Hserve url [Hin|Hin]%(serve_crawls _ _ _ _ _ _ Hserve); [|done].
  rewrite (call_crawl_events _ _ _ _ _ Hq) in Hin.
  apply elem_of_app in Hin as [Hin|Hin].
  - destruct (0 <? Options.durationBeforeFirstCrawl options); simpl in Hin.
    + by apply list_elem_of_singleton in Hin.
    + by apply not_elem_of_nil in Hin.
  - apply list_elem_of_singleton in Hin. by injection Hin.
Qed.

Lemma X12_NewSiteMapper_trace_witness :
  0 < Options.crawlInterval sampleOptions
  ∧ ∃ p,
      Mapper.NewSiteMapper (L := Sample.libraries) 10 sampleSite sampleOptions
        [Mapper.RecrawlSignal; Mapper.TickerFired]
      = Some p
      ∧ kind <$> Mapper.events p
        = (if 0 <? Options.durationBeforeFirstCrawl sampleOptions
           then [KSlept] else [])
          ++ [KCrawled]
          ++ ([Mapper.RecrawlSignal; Mapper.TickerFired]
                ≫= λ _, [KCrawled; KCallback])
      ∧ ∀ url, Mapper.Crawled url ∈ Mapper.events p →
               url = Options.startingURL sampleOptions.
Proof.
  assert (0 < Options.crawlInterval sampleOptions) as Hinterval
    by (vm_compute; reflexivity).
  split; [exact Hinterval|].
  destruct (isSome_inv
              (Mapper.NewSiteMapper (L := Sample.libraries) 10 sampleSite
                 sampleOptions [Mapper.RecrawlSignal; Mapper.TickerFired]))
    as [p Hp]; [vm_compute; reflexivity|].
  exists p. split; [exact Hp|].
  exact (X12_NewSiteMapper_trace (L := Sample.libraries) 10 sampleSite
           sampleOptions _ p Hinterval Hp).
Defined.

(** X13. An interval of zero: [SetCrawlInterval] accepts it, and the
    goroutine of [NewSiteMapper] then makes the crawl of the startup path
    and panics in [time.NewTicker]: no signal is served and the callback is
    never called. *)
Theorem X13_NewSiteMapper_zero_interval {L : Libraries} (fuel : nat)
    (w : World) (options : Options.SiteMapperOptions)
    (signals : list Mapper.Signal) (p : Mapper.Process) :
  Mapper.NewSiteMapper fuel w (Options.SetCrawlInterval 0 options).1 signals
  = Some p →
  (Options.SetCrawlInterval 0 options).2 = None
  ∧ kind <$> Mapper.events p
    = (if 0 <? Options.durationBeforeFirstCrawl options then [KSlept] else [])
      ++ [KCrawled; KPanicked].
Proof.
  intros Hnew. split; [done|]. revert Hnew. unfold Mapper.NewSiteMapper.
  simpl.
  destruct (Mapper.call_crawl fuel w _ _) as [q|] eqn:Hq; [|done].
  intros [= <-]. simpl.
  rewrite (call_crawl_events _ _ _ _ _ Hq), !fmap_app, <- app_assoc.
  by destruct (0 <? Options.durationBeforeFirstCrawl options).
Qed.

Lemma X13_NewSiteMapper_zero_interval_witness :
  ∃ p,
    Mapper.NewSiteMapper (L := Sample.libraries) 10 sampleSite
      (Options.SetCrawlInterval 0 sampleOptions).1
      [Mapper.RecrawlSignal; Mapper.TickerFired]
    = Some p
    ∧ (Options.SetCrawlInterval 0 sampleOptions).2 = None
    ∧ kind <$> Mapper.events p
      = (if 0 <? Options.durationBeforeFirstCrawl sampleOptions
         then [KSlept] else [])
        ++ [KCrawled; KPanicked].
Proof.
  destruct (isSome_inv
              (Mapper.NewSiteMapper (L := Sample.libraries) 10 sampleSite
                 (Options.SetCrawlInterval 0 sampleOptions).1
                 [Mapper.RecrawlSignal; Mapper.TickerFired]))
    as [p Hp]; [vm_compute; reflexivity|].
  exists p. split; [exact Hp|].
  exact (X13_NewSiteMapper_zero_interval (L := Sample.libraries) 10 sampleSite
           sampleOptions _ p Hp).
Defined.

(** X14. The mapper that [NewSiteMapper] returns, at the moment the last of
    the signals is served, whatever the signals and the site: its domain
    and the configuration of its crawler are those of the options, the
    durable map files every record under its own link, and every link of
    the snapshot is a result of the normalizer: it starts with the domain
    of the mapper, the prefix that [GenerateSitemap] replaces, and has no
    trailing slash. *)
Theorem X14_NewSiteMapper_mapper_consistent {L : Libraries} (fuel : nat)
    (w : World) (options : Options.SiteMapperOptions)
    (signals : list Mapper.Signal) (p : Mapper.Process) :
  Mapper.NewSiteMapper fuel w options signals = Some p →
  Mapper.domain (Mapper.mapper p) = Options.domain options
  ∧ Crawler.domain (Mapper.spider (Mapper.mapper p)) = Options.domain options
  ∧ Crawler.linkAttributes (Mapper.spider (Mapper.mapper p))
    = Options.linkAttributes options
  ∧ links_wf (Mapper.spider (Mapper.mapper p)) = true
  ∧ ∀ l, l ∈ Crawler.getLinks (Mapper.spider (Mapper.mapper p)) →
         normalized (Mapper.spider (Mapper.mapper p)) (Crawler.link l)
         ∧ gostrings.HasPrefix (Crawler.link l)
             (Mapper.domain (Mapper.mapper p)) = true
         ∧ gostrings.HasSuffixByte (Crawler.link l) "/" = false.
Proof.
  intros (Hm & Hd & Ha & Hlinks)%mapper_inv_NewSiteMapper.
  split; [done|]. split; [done|]. split; [done|]. split.
  - apply links_wf_spec. intros k v Hkv. by apply Hlinks.
  - intros l. unfold Crawler.getLinks.
    intros ([k v] & -> & Hkv%elem_of_map_to_list)%list_elem_of_fmap.
    simpl. destruct (Hlinks k v Hkv) as [-> Hk].
    split; [done|]. rewrite Hm, <- Hd. by apply normalized_in_domain.
Qed.

Lemma X14_NewSiteMapper_mapper_consistent_witness :
  ∃ p,
    Mapper.NewSiteMapper (L := Sample.libraries) 10 sampleSite sampleOptions
      [Mapper.RecrawlSignal; Mapper.TickerFired]
    = Some p
    ∧ Mapper.domain (Mapper.mapper p) = Options.domain sampleOptions
    ∧ Crawler.domain (Mapper.spider (Mapper.mapper p))
      = Options.domain sampleOptions
    ∧ Crawler.linkAttributes (Mapper.spider (Mapper.mapper p))
      = Options.linkAttributes sampleOptions
    ∧ links_wf (Mapper.spider (Mapper.mapper p)) = true
    ∧ ∀ l, l ∈ Crawler.getLinks (Mapper.spider (Mapper.mapper p)) →
           normalized (Mapper.spider (Mapper.mapper p)) (Crawler.link l)
           ∧ gostrings.HasPrefix (Crawler.link l)
               (Mapper.domain (Mapper.mapper p)) = true
           ∧ gostrings.HasSuffixByte (Crawler.link l) "/" = false.
Proof.
  destruct (isSome_inv
              (Mapper.NewSiteMapper (L := Sample.libraries) 10 sampleSite
                 sampleOptions [Mapper.RecrawlSignal; Mapper.TickerFired]))
    as [p Hp]; [vm_compute; reflexivity|].
  exists p. split; [exact Hp|].
  exact (X14_NewSiteMapper_mapper_consistent (L := Sample.libraries) 10
           sampleSite sampleOptions _ p Hp).
Defined.

(** ** The sitemap, continued *)
Section Sitemap.

Import Mapper.

(** X15. [replaceDomain] on a link that starts with the old domain gives a
    link that starts with the new one, and replacing back gives the link
    again; replacing a domain by itself changes no link. *)
Theorem X15_replaceDomain_round_trip (link oldDomain newDomain : string) :
  (gostrings.HasPrefix link oldDomain = true →
   gostrings.HasPrefix (replaceDomain link oldDomain newDomain) newDomain
   = true
   ∧ replaceDomain (replaceDomain link oldDomain newDomain)
       newDomain oldDomain
     = link)
  ∧ replaceDomain link oldDomain oldDomain = link.
Proof.
  split.
  - intros Hpre.
    assert (replaceDomain link oldDomain newDomain
            = newDomain +:+ gostrings.drop (String.length oldDomain) link)
      as -> by (unfold replaceDomain; by rewrite Hpre).
    split; [apply HasPrefix_app|].
    unfold replaceDomain. rewrite HasPrefix_app, string_drop_app.
    symmetry. by apply HasPrefix_split.
  - unfold replaceDomain.
    destruct (gostrings.HasPrefix link oldDomain) eqn:Hpre; [|done].
    symmetry. by apply HasPrefix_split.
Qed.

Lemma X15_replaceDomain_round_trip_witness :
  gostrings.HasPrefix "http://localhost:8080/page" "http://localhost:8080"
  = true
  ∧ (gostrings.HasPrefix
       (replaceDomain "http://localhost:8080/page" "http://localhost:8080"
          "https://www.example.com")
       "https://www.example.com"
     = true
     ∧ replaceDomain
         (replaceDomain "http://localhost:8080/page" "http://localhost:8080"
            "https://www.example.com")
         "https://www.example.com" "http://localhost:8080"
       = "http://localhost:8080/page").
Proof.
  assert (gostrings.HasPrefix "http://localhost:8080/page"
            "http://localhost:8080" = true) as Hpre
    by (vm_compute; reflexivity).
  split; [exact Hpre|].
  exact (proj1 (X15_replaceDomain_round_trip "http://localhost:8080/page"
                  "http://localhost:8080" "https://www.example.com") Hpre).
Defined.

Context {L : Libraries}.

Lemma sitemapURLs_spec m baseDomain filter links urls :
  sitemapURLs m baseDomain filter links urls
  = urls
    ++ (sitemapEntry m baseDomain
          <$> base.filter (λ l, MatchString filter (Crawler.link l) = false)
                links).
Proof.
  revert urls. induction links as [|l links IH]; intros urls; simpl.
  - by rewrite app_nil_r.
  - rewrite filter_cons.
    destruct (MatchString filter (Crawler.link l)) eqn:Hm.
    + rewrite decide_False by done. apply IH.
    + rewrite decide_True by done. rewrite IH, <- app_assoc. done.
Qed.

(** X16. [GenerateSitemap]: a pattern that does not compile gives the
    fallback document of [EmptySitemapXML] with an error; any other pattern
    gives no error and the header followed by the [urlset] whose entries
    are, in the order of the snapshot, those of the links that the pattern
    does not match, each with the domain replaced and its date formatted. *)
Theorem X16_GenerateSitemap_entries (m : SiteMapper) (now : Time)
    (baseDomain filterPattern : string) :
  match regexp_Compile filterPattern with
  | None =>
      GenerateSitemap m now baseDomain filterPattern
      = (EmptySitemapXML baseDomain now,
         Some "invalid filter pattern provided")
  | Some filter =>
      sitemapURLs m baseDomain filter (Crawler.getLinks (spider m)) []
      = sitemapEntry m baseDomain
          <$> base.filter
                (λ l, MatchString filter (Crawler.link l) = false)
                (Crawler.getLinks (spider m))
      ∧ ∃ xmlBytes,
          xml_MarshalIndent
            (mkSitemapURLSet (Xmlns emptyURLSet) (XmlnsXsi emptyURLSet)
               (XsiSchemaLoc emptyURLSet)
               (sitemapEntry m baseDomain
                  <$> base.filter
                        (λ l, MatchString filter (Crawler.link l) = false)
                        (Crawler.getLinks (spider m))))
          = Some xmlBytes
          ∧ GenerateSitemap m now baseDomain filterPattern
            = (xmlHeader +:+ xmlBytes, None)
  end.
Proof.
  unfold GenerateSitemap.
  destruct (regexp_Compile filterPattern) as [filter|]; [|done].
  rewrite sitemapURLs_spec. simpl. split; [done|]. by eexists.
Qed.

(** X17. The locations of a sitemap: when every link of the snapshot starts
    with the domain of the mapper and the durable map files every record
    under its own link, every location is the base domain asked for,
    followed by what followed the domain in a link that the pattern does
    not match, and no location comes twice. *)
Theorem X17_sitemap_locations (m : SiteMapper) (baseDomain : string)
    (filter : Regexp) :
  links_wf (spider m) = true →
  (∀ l, l ∈ Crawler.getLinks (spider m) →
        gostrings.HasPrefix (Crawler.link l) (domain m) = true) →
  (∀ u, u ∈ sitemapURLs m baseDomain filter (Crawler.getLinks (spider m)) [] →
        ∃ l, l ∈ Crawler.getLinks (spider m)
             ∧ MatchString filter (Crawler.link l) = false
             ∧ Crawler.link l
               = domain m
                 +:+ gostrings.drop (String.length (domain m)) (Crawler.link l)
             ∧ Location u
               = baseDomain
                 +:+ gostrings.drop (String.length (domain m)) (Crawler.link l))
  ∧ NoDup (Location
             <$> sitemapURLs m baseDomain filter
                   (Crawler.getLinks (spider m)) []).
Proof.
  intros Hwf Hpre. rewrite sitemapURLs_spec. simpl.
  assert (∀ l, l ∈ Crawler.getLinks (spider m) →
            replaceDomain (Crawler.link l) (domain m) baseDomain
            = baseDomain
              +:+ gostrings.drop (String.length (domain m)) (Crawler.link l))
    as Hrep.
  { intros l Hl. unfold replaceDomain. by rewrite (Hpre l Hl). }
  split.
  - intros u (l & -> & [Hm Hl]%list_elem_of_filter)%list_elem_of_fmap.
    exists l. split; [done|]. split; [done|].
    split; [by apply HasPrefix_split, Hpre|]. by apply Hrep.
  - rewrite <- list_fmap_compose.
    apply NoDup_fmap_2_strong.
    + intros x y [_ Hx]%list_elem_of_filter [_ Hy]%list_elem_of_filter.
      simpl. rewrite (Hrep x Hx), (Hrep y Hy). intros Heq%app_inv_head'.
      assert (Crawler.link x = Crawler.link y) as Hlink.
      { rewrite (HasPrefix_split _ _ (Hpre x Hx)),
          (HasPrefix_split _ _ (Hpre y Hy)). by rewrite Heq. }
      unfold Crawler.getLinks in Hx, Hy.
      apply list_elem_of_fmap in Hx as ([kx vx] & -> & Hkx%elem_of_map_to_list).
      apply list_elem_of_fmap in Hy as ([ky vy] & -> & Hky%elem_of_map_to_list).
      simpl in *.
      pose proof (proj1 (links_wf_spec _) Hwf _ _ Hkx) as Hx.
      pose proof (proj1 (links_wf_spec _) Hwf _ _ Hky) as Hy.
      congruence.
    + apply NoDup_filter. apply (NoDup_fmap_1 Crawler.link).
      rewrite (getLinks_keys (spider m) Hwf). apply NoDup_fst_map_to_list.
Qed.

End Sitemap.

Lemma X17_sitemap_locations_witness :
  links_wf (Mapper.spider seasonedMapper) = true
  ∧ (∀ l, l ∈ Crawler.getLinks (Mapper.spider seasonedMapper) →
          gostrings.HasPrefix (Crawler.link l) (Mapper.domain seasonedMapper)
          = true)
  ∧ (∀ u, u ∈ Mapper.sitemapURLs (L := Sample.libraries) seasonedMapper
                "https://www.example.com" "old"
                (Crawler.getLinks (Mapper.spider seasonedMapper)) [] →
          ∃ l, l ∈ Crawler.getLinks (Mapper.spider seasonedMapper)
               ∧ MatchString (Libraries := Sample.libraries) "old"
                   (Crawler.link l) = false
               ∧ Crawler.link l
                 = Mapper.domain seasonedMapper
                   +:+ gostrings.drop
                         (String.length (Mapper.domain seasonedMapper))
                         (Crawler.link l)
               ∧ Mapper.Location u
                 = "https://www.example.com"
                   +:+ gostrings.drop
                         (String.length (Mapper.domain seasonedMapper))
                         (Crawler.link l))
  ∧ NoDup (Mapper.Location
             <$> Mapper.sitemapURLs (L := Sample.libraries) seasonedMapper
                   "https://www.example.com" "old"
                   (Crawler.getLinks (Mapper.spider seasonedMapper)) []).
Proof.
  assert (links_wf (Mapper.spider seasonedMapper) = true) as Hwf
    by (vm_compute; reflexivity).
  assert (∀ l, l ∈ Crawler.getLinks (Mapper.spider seasonedMapper) →
            gostrings.HasPrefix (Crawler.link l)
              (Mapper.domain seasonedMapper) = true) as Hpre.
  { intros l Hl%list_elem_of_In. revert l Hl. apply forallb_forall.
    vm_compute. reflexivity. }
  split; [exact Hwf|]. split; [exact Hpre|].
  exact (X17_sitemap_locations (L := Sample.libraries) seasonedMapper
           "https://www.example.com" "old" Hwf Hpre).
Defined.

(** ** The number of requests of a cycle and the first request *)
Section Budget.

Import Crawler.
Context {L : Libraries}.

Lemma pages_snoc t u r :
  pages (t ++ [(u, r)]) = (pages t + if fetched_ok r then 1 else 0)%nat.
Proof.
  unfold pages. rewrite filter_app, length_app, filter_cons, filter_nil.
  destruct (fetched_ok r) eqn:Hr.
  - by rewrite decide_True.
  - rewrite decide_False; [done|]. simpl. congruence.
Qed.

Lemma budget_inv_iteration w c0 K e0 u q c e :
  (∀ c' i u body,
     domain c' = domain c0 → linkAttributes c' = linkAttributes c0 →
     http_Get w i u = GetResponse 200 (Some body) →
     (length (extractLinks c' (html_tokens body)) ≤ K)%nat) →
  budget_inv c0 K e0 (mkLoopState (u :: q) c e) →
  budget_inv c0 K e0 (iteration w u q c e).
Proof.
  intros Hsite (Hd & Ha & cyc & Hreq & Hlen). simpl in *.
  assert (∀ r e', fetched_ok r = false →
            requests e' = requests e ++ [(u, r)] →
            budget_inv c0 K e0 (mkLoopState q c e')) as Hfailed.
  { intros r e' Hbad He'. split; [done|]. split; [done|].
    exists (cyc ++ [(u, r)]). simpl.
    split; [by rewrite He', Hreq, app_assoc|].
    rewrite pages_snoc, Hbad, length_app. simpl. lia. }
  unfold iteration.
  destruct (visited c !! u) as [x|] eqn:Hcur.
  { split; [done|]. split; [done|]. exists cyc. simpl. split; [done|]. lia. }
  destruct (http_Get w (tick e) u) as [err|StatusCode body] eqn:Hget;
    [by apply (Hfailed (GetFailed err))|].
  destruct (StatusCode =? 200) eqn:Hstatus; simpl.
  2:{ apply (Hfailed (GetResponse StatusCode body)); [|done].
      simpl. rewrite Hstatus. by destruct body. }
  destruct body as [bodyBytes|];
    [|by apply (Hfailed (GetResponse StatusCode None))].
  apply Z.eqb_eq in Hstatus as ->.
  split; [done|]. split; [done|].
  exists (cyc ++ [(u, GetResponse 200 (Some bodyBytes))]). simpl.
  split; [by rewrite Hreq, app_assoc|].
  rewrite pages_snoc, length_app. simpl.
  pose proof (enqueue_length c q (extractLinks c (html_tokens bodyBytes))).
  pose proof (Hsite c (tick e) u bodyBytes Hd Ha Hget).
  rewrite Nat.mul_add_distr_l, Nat.mul_1_r. lia.
Qed.

End Budget.

Section First.

Import Crawler.
Context {L : Libraries}.

Lemma iteration_requests w u q c e :
  requests (env (iteration w u q c e))
  = requests e
    ++ match visited c !! u with
       | Some _ => []
       | None => [(u, http_Get w (tick e) u)]
       end.
Proof.
  unfold iteration. destruct (visited c !! u); simpl; [by rewrite app_nil_r|].
  destruct (http_Get w (tick e) u) as [err|StatusCode [body|]]; simpl;
    try done; by destruct (StatusCode =? 200).
Qed.

(** The first request of a cycle is the one for the normalized seed. *)
Lemma crawl_first_request fuel w url seed c c' e e' :
  normalizeURL c url = (seed, true) →
  crawl fuel w url c e = Some (c', e') →
  ∃ rest, requests e' = requests e ++ (seed, http_Get w (tick e) seed) :: rest.
Proof.
  intros Hseed Hcrawl.
  assert ((normalizeURL c url).2 = true) as Hok by (by rewrite Hseed).
  destruct (crawl_completed _ _ _ _ _ _ _ Hok Hcrawl) as (st & Hrun & _ & ->).
  rewrite Hseed in Hrun. simpl in Hrun.
  destruct fuel as [|fuel]; [done|]. simpl in Hrun.
  apply (run_loop_ind
           (λ st, ∃ rest, requests (env st)
                          = requests e ++ (seed, http_Get w (tick e) seed)
                                          :: rest) w) in Hrun; [done| |].
  - intros u q c1 e1 [rest Hrest]. simpl in *.
    rewrite iteration_requests, Hrest, <- app_assoc. simpl. by eexists.
  - unfold loop_step. simpl. rewrite iteration_requests. simpl.
    rewrite lookup_empty. by exists [].
Qed.

Lemma crawl_requests_grow fuel w url c e c' e' :
  crawl fuel w url c e = Some (c', e') →
  ∃ cyc, requests e' = requests e ++ cyc.
Proof.
  intros Hcrawl. destruct (normalizeURL c url).2 eqn:Hok.
  - destruct (crawl_inv _ _ _ _ _ _ _ Hok Hcrawl) as (st & Hinv & _ & _ & ->).
    destruct (inv_requests _ _ _ _ _ _ Hinv) as (cyc & Hreq & _).
    by exists cyc.
  - rewrite (crawl_rejected _ _ _ _ _ Hok) in Hcrawl.
    injection Hcrawl as _ <-. exists []. by rewrite app_nil_r.
Qed.

End First.

Section FirstRequest.

Import Mapper.
Context {L : Libraries}.

Lemma call_crawl_requests fuel w options p p' :
  call_crawl fuel w options p = Some p' →
  ∃ cyc, requests (penv p') = requests (penv p) ++ cyc.
Proof.
  unfold call_crawl.
  destruct (Crawler.crawl _ _ _ _ _) as [[c e]|] eqn:Hcrawl; [|done].
  intros [= <-]. simpl. by eapply crawl_requests_grow.
Qed.

Lemma serve_requests fuel w options signals p p' :
  serve fuel w options signals p = Some p' →
  ∃ cyc, requests (penv p') = requests (penv p) ++ cyc.
Proof.
  revert p. induction signals as [|s signals IH]; intros p; simpl.
  - intros [= <-]. exists []. by rewrite app_nil_r.
  - assert (∀ q, call_crawl fuel w options p = Some q →
              serve fuel w options signals (call_callbackFunc q) = Some p' →
              ∃ cyc, requests (penv p') = requests (penv p) ++ cyc) as Hround.
    { intros q [cyc1 Hq]%call_crawl_requests [cyc2 Hserve]%IH.
      simpl in Hserve. exists (cyc1 ++ cyc2).
      by rewrite Hserve, Hq, app_assoc. }
    destruct s; destruct (call_crawl fuel w options p) as [q|] eqn:Hq;
      try done; intros Hserve; by apply (Hround q).
Qed.

End FirstRequest.

Section BudgetResult.
Import Crawler.

(** X18. The requests of a cycle are paid for by the pages it fetches: over
    pages that carry at most [K] links each, a cycle makes at most
    [1 + K * n] requests, where [n] is the number of its requests that led
    to a page. *)
Theorem X18_crawl_request_budget {L : Libraries} (fuel : nat) (w : World)
    (K : nat) (url : string) (c c' : crawler) (e e' : Env) :
  (∀ c' i u body,
     domain c' = domain c → linkAttributes c' = linkAttributes c →
     http_Get w i u = GetResponse 200 (Some body) →
     (length (extractLinks c' (html_tokens body)) ≤ K)%nat) →
  crawl fuel w url c e = Some (c', e') →
  ∃ cyc, requests e' = requests e ++ cyc
         ∧ (length cyc ≤ 1 + K * pages cyc)%nat.
Proof.
  intros Hsite Hcrawl. destruct (normalizeURL c url).2 eqn:Hok.
  - destruct (crawl_completed _ _ _ _ _ _ _ Hok Hcrawl) as (st & Hrun & _ & ->).
    pose proof Hrun as Hbudget.
    apply (run_loop_ind (budget_inv c K e) w) in Hbudget
      as (_ & _ & cyc & Hreq & Hlen).
    + exists cyc. split; [done|]. lia.
    + intros u q c1 e1. by apply budget_inv_iteration.
    + split; [done|]. split; [done|]. exists []. simpl.
      rewrite app_nil_r. split; [done|]. lia.
  - rewrite (crawl_rejected _ _ _ _ _ Hok) in Hcrawl.
    injection Hcrawl as _ <-. exists []. rewrite app_nil_r. split; [done|].
    simpl. lia.
Qed.

Lemma X18_crawl_request_budget_witness :
  (∀ c' i u body,
     domain c' = domain exampleCrawler →
     linkAttributes c' = linkAttributes exampleCrawler →
     http_Get sampleSite i u = GetResponse 200 (Some body) →
     (length
        (extractLinks c' (html_tokens (Libraries := Sample.libraries) body))
      ≤ 4)%nat)
  ∧ ∃ c' e' cyc,
      crawl (L := Sample.libraries) 10 sampleSite "/" exampleCrawler freshEnv
      = Some (c', e')
      ∧ requests e' = requests freshEnv ++ cyc
      ∧ (length cyc ≤ 1 + 4 * pages cyc)%nat.
Proof.
  assert (∀ c' i u body,
            domain c' = domain exampleCrawler →
            linkAttributes c' = linkAttributes exampleCrawler →
            http_Get sampleSite i u = GetResponse 200 (Some body) →
            (length
               (extractLinks c'
                  (html_tokens (Libraries := Sample.libraries) body))
             ≤ 4)%nat) as Hsite.
  { intros c' i u body Hd Ha Hget.
    exact (proj1 (sampleSite_bounded c' i u body Hd Ha Hget)). }
  split; [exact Hsite|].
  destruct (isSome_inv
              (crawl (L := Sample.libraries) 10 sampleSite "/" exampleCrawler
                 freshEnv))
    as [[c' e'] Hcrawl]; [vm_compute; reflexivity|].
  destruct (X18_crawl_request_budget (L := Sample.libraries) 10 sampleSite 4
              "/" exampleCrawler c' freshEnv e' Hsite Hcrawl) as (cyc & Hcyc).
  exists c', e', cyc. split; [exact Hcrawl | exact Hcyc].
Defined.

End BudgetResult.

(** X19. The first request of the process that [NewSiteMapper] starts is the
    one for the normalized starting URL; with the starting URL [/] on a
    domain that is a bare origin, it is the request for the domain
    itself. *)
Theorem X19_NewSiteMapper_first_request {L : Libraries} (fuel : nat)
    (w : World) (options : Options.SiteMapperOptions)
    (signals : list Mapper.Signal) (p : Mapper.Process) :
  Mapper.NewSiteMapper fuel w options signals = Some p →
  (∀ seed,
     Crawler.normalizeURL (Mapper.spider (Mapper.newMapper options))
       (Options.startingURL options) = (seed, true) →
     ∃ rest, requests (Mapper.penv p) = (seed, http_Get w 0 seed) :: rest)
  ∧ (bareOrigin (Options.domain options) = true →
     Options.startingURL options = "/" →
     ∃ rest,
       requests (Mapper.penv p)
       = (Options.domain options, http_Get w 0 (Options.domain options))
         :: rest).
Proof.
  intros Hnew.
  assert (∀ seed,
            Crawler.normalizeURL (Mapper.spider (Mapper.newMapper options))
              (Options.startingURL options) = (seed, true) →
            ∃ rest,
              requests (Mapper.penv p) = (seed, http_Get w 0 seed) :: rest)
    as Hfirst.
  { intros seed Hseed. revert Hnew. unfold Mapper.NewSiteMapper.
    destruct (Mapper.call_crawl fuel w options _) as [q|] eqn:Hq; [|done].
    assert (∃ rest,
              requests (Mapper.penv q) = (seed, http_Get w 0 seed) :: rest)
      as [rest Hrest].
    { revert Hq. unfold Mapper.call_crawl.
      destruct (Crawler.crawl _ _ _ _ _) as [[c e]|] eqn:Hcrawl; [|done].
      intros [= <-]. simpl.
      assert (Crawler.crawl fuel w (Options.startingURL options)
                (Mapper.spider (Mapper.newMapper options)) (mkEnv [] [])
              = Some (c, e)) as Hcrawl'
        by (by destruct (0 <? Options.durationBeforeFirstCrawl options)).
      by apply (crawl_first_request _ _ _ _ _ _ _ _ Hseed) in Hcrawl'. }
    destruct (Options.crawlInterval options <=? 0).
    - intros [= <-]. simpl. by exists rest.
    - intros [cyc Hserve]%serve_requests. exists (rest ++ cyc).
      by rewrite Hserve, Hrest. }
  split; [exact Hfirst|].
  intros Hbare Hstart. apply Hfirst. rewrite Hstart.
  by apply (normalizeURL_root
              (Mapper.spider (Mapper.newMapper options))).
Qed.

Lemma X19_NewSiteMapper_first_request_witness :
  bareOrigin (Options.domain sampleOptions) = true
  ∧ Options.startingURL sampleOptions = "/"
  ∧ ∃ p,
      Mapper.NewSiteMapper (L := Sample.libraries) 10 sampleSite sampleOptions
        [Mapper.RecrawlSignal]
      = Some p
      ∧ ∃ rest,
          requests (Mapper.penv p)
          = (Options.domain sampleOptions,
             http_Get sampleSite 0 (Options.domain sampleOptions))
            :: rest.
Proof.
  assert (bareOrigin (Options.domain sampleOptions) = true) as Hbare
    by (vm_compute; reflexivity).
  split; [exact Hbare|]. split; [reflexivity|].
  destruct (isSome_inv
              (Mapper.NewSiteMapper (L := Sample.libraries) 10 sampleSite
                 sampleOptions [Mapper.RecrawlSignal]))
    as [p Hp]; [vm_compute; reflexivity|].
  exists p. split; [exact Hp|].
  exact (proj2 (X19_NewSiteMapper_first_request (L := Sample.libraries) 10
                  sampleSite sampleOptions _ p Hp) Hbare eq_refl).
Defined.
